(** * Nuclide: device stop-package provider, package loader, pane-item visibility

    A shallow embedding of three files of the Nuclide sources and the
    properties stated about them:

    - [pkg/nuclide-adb-sdb/lib/ATDeviceStopPackageProvider.js]  (module [Provider])
    - [lib/main.js]                                             (module [Loader])
    - [modules/nuclide-commons-atom/observePaneItemVisibility.js] (module [Visibility])

    JavaScript values are modelled as follows.  Strings are [string] (the
    operations used, [indexOf], [startsWith] and concatenation, agree on UTF-8
    bytes and UTF-16 units for the ASCII needles of the source).  An exception
    is an [Error] object, a value of [JsError]; a call that may throw returns
    an [Outcome].  Ordinary objects used as dictionaries are insertion-ordered
    association lists ([Obj]); the ES6 [Map] and [Set] are [gmap] and [gset].

    The first part of the file holds the definitions, module by module, and
    the inputs used in examples; the second part holds the properties. *)

From Stdlib Require Import ZArith String Ascii.
From stdpp Require Import base option list gmap sets strings.

Set Warnings "-register-all".

Local Open Scope string_scope.
Local Open Scope list_scope.
Local Open Scope Z_scope.

(** ** Exceptions *)

Record JsError := mkError {
  err_code : option string;   (* [err.code], e.g. 'ENOENT' *)
  err_message : string        (* [err.message] *)
}.

Inductive Outcome (A : Type) : Type :=
| Return (a : A)
| Throw (e : JsError).
Arguments Return {A} a.
Arguments Throw {A} e.

#[global] Instance Outcome_ret : MRet Outcome := @Return.

#[global] Instance Outcome_bind : MBind Outcome := fun A B f m =>
  match m with
  | Return a => f a
  | Throw e => Throw e
  end.

(** ** ATDeviceStopPackageProvider.js *)

Module Provider.

Definition NuclideUri := string.

(** The fields of [Process] (nuclide-devices/lib/types) that the provider
    reads. *)
Record Process := mkProcess {
  pid : Z;
  name : string
}.

Section WithRemote.
(** The RPC layer is not part of this file.  A call on an [AdbService]
    is a computation over the state [R] of whatever is behind the factory;
    the promise it returns either resolves or rejects. *)
Context {R : Type}.

Definition Promise (A : Type) : Type := R -> Outcome A * R.

Definition Promise_resolve {A} (a : A) : Promise A := fun r => (Return a, r).

Record AdbService := mkAdbService {
  killProcess : string -> string -> Promise unit
}.

Record ATDeviceStopPackageProvider := mkProvider {
  _type : string;
  _rpcFactory : NuclideUri -> AdbService
}.

Definition constructor (type : string) (rpcFactory : NuclideUri -> AdbService)
  : ATDeviceStopPackageProvider :=
  {| _type := type; _rpcFactory := rpcFactory |}.

Definition getType (this : ATDeviceStopPackageProvider) : string :=
  _type this.

Definition getTaskType (this : ATDeviceStopPackageProvider) : string :=
  "STOP_PACKAGE".

Definition getName (this : ATDeviceStopPackageProvider) : string :=
  "Stop package".

Definition isSupported (this : ATDeviceStopPackageProvider) (proc : Process)
  : bool := true.

Definition getSupportedPIDs (this : ATDeviceStopPackageProvider)
    (host : NuclideUri) (device : string) (procs : list Process)
  : Promise (gset Z) :=
  Promise_resolve (list_to_set (map pid procs)).

Definition run (this : ATDeviceStopPackageProvider)
    (host : NuclideUri) (device : string) (proc : Process)
  : Promise unit :=
  killProcess (_rpcFactory this host) device (name proc).

End WithRemote.

(** A remote side that only records the calls it receives, each with the host
    the service was made for. *)
Record RpcCall := mkRpcCall {
  call_host : NuclideUri;
  call_device : string;
  call_packageName : string
}.

Definition recordingFactory (host : NuclideUri) : @AdbService (list RpcCall) :=
  {| killProcess := fun device packageName log =>
       (Return tt, log ++ [mkRpcCall host device packageName]) |}.

End Provider.

(** ** JavaScript strings, JSON values and objects *)

(** The double-quote character and the empty string. *)
Definition dq : string := String "034"%char EmptyString.
Definition empty : string := EmptyString.

(** [s.indexOf(searchString)]: the first position at which [searchString]
    occurs in [s], or [-1]. *)
Fixpoint indexOf_from (searchString s : string) (i : Z) : Z :=
  if String.prefix searchString s then i
  else match s with
       | EmptyString => -1
       | String _ s' => indexOf_from searchString s' (i + 1)
       end.

Definition indexOf (s searchString : string) : Z :=
  indexOf_from searchString s 0.

(** [s.startsWith(searchString)] *)
Definition startsWith (s searchString : string) : bool :=
  String.prefix searchString s.

(** [keys.join(separator)] *)
Definition join (l : list string) (separator : string) : string :=
  String.concat separator l.

(** An ordinary object used as a dictionary: its own properties in the order
    in which [Object.keys] lists them, which for names that are not array
    indices is the order of creation.  (An engine lists array indices first;
    [set] does not reproduce this, package names and setting keys are taken
    not to be numerals.) *)
Definition Obj (V : Type) : Type := list (string * V).

Module Obj.

Fixpoint get {V} (k : string) (o : Obj V) : option V :=
  match o with
  | [] => None
  | (k', v) :: o' => if String.eqb k k' then Some v else get k o'
  end.

(** [o[k] = v]: an existing property keeps its place, a new one goes last. *)
Fixpoint set {V} (k : string) (v : V) (o : Obj V) : Obj V :=
  match o with
  | [] => [(k, v)]
  | (k', v') :: o' =>
      if String.eqb k k' then (k, v) :: o' else (k', v') :: set k v o'
  end.

(** [Object.keys(o)] *)
Definition keys {V} (o : Obj V) : list string := map fst o.

End Obj.

(** What [JSON.parse] produces.  Numbers are kept as integers: the loader only
    ever tests a number for truthiness. *)
Inductive Json : Type :=
| JNull
| JBool (b : bool)
| JNum (n : Z)
| JStr (s : string)
| JArr (l : list Json)
| JObj (o : list (string * Json)).

(** Truthiness of a property that may be absent ([undefined]). *)
Definition truthy (v : option Json) : bool :=
  match v with
  | None | Some JNull => false
  | Some (JBool b) => b
  | Some (JNum n) => negb (n =? 0)
  | Some (JStr s) => negb (String.eqb s empty)
  | Some (JArr _) | Some (JObj _) => true
  end.

Definition truthy_string (v : option string) : bool :=
  match v with
  | None => false
  | Some s => negb (String.eqb s empty)
  end.

(** String coercion of a property that holds a string when present, as done
    by a template literal or a computed property name. *)
Definition String_ (v : option string) : string :=
  match v with
  | None => "undefined"
  | Some s => s
  end.

(** [array.findIndex(predicate)]: the first position whose element satisfies
    [predicate], or [-1]. *)
Fixpoint findIndex_from {A} (predicate : A -> bool) (l : list A) (i : Z) : Z :=
  match l with
  | [] => -1
  | x :: l' => if predicate x then i else findIndex_from predicate l' (i + 1)
  end.

Definition findIndex {A} (l : list A) (predicate : A -> bool) : Z :=
  findIndex_from predicate l 0.

(** [array.splice(start, deleteCount, ...items)]: the removed elements and
    the array afterwards.  A negative [start] counts from the end. *)
Definition splice {A} (l : list A) (start deleteCount : Z) (items : list A)
  : list A * list A :=
  let len := Z.of_nat (List.length l) in
  let actualStart :=
    if start <? 0 then Z.max (len + start) 0 else Z.min start len in
  let actualDeleteCount := Z.min (Z.max deleteCount 0) (len - actualStart) in
  let n := Z.to_nat actualStart in
  let k := Z.to_nat actualDeleteCount in
  (take k (drop n l), take n l ++ items ++ drop (n + k) l).

(** ** lib/main.js *)

Module Loader.

(** *** The file system as [fs] sees it *)

Inductive Node : Type :=
| File (content : string)
| Directory (entries : list (string * Node)).

Definition path := list string.

(** [path.join(dir, item)] for a single path segment [item]. *)
Definition path_join (dir : path) (item : string) : path := dir ++ [item].

(** [path.join(dir, '..')] *)
Definition path_parent (dir : path) : path := removelast dir.

Definition ENOENT : JsError := mkError (Some "ENOENT") "no such file or directory".
Definition ENOTDIR : JsError := mkError (Some "ENOTDIR") "not a directory".
Definition EISDIR : JsError := mkError (Some "EISDIR") "illegal operation on a directory".
Definition AssertionError : JsError := mkError None "false == true".
Definition TypeError : JsError := mkError None "Cannot read property of undefined".

Fixpoint resolve (root : Node) (p : path) : Outcome Node :=
  match p with
  | [] => Return root
  | segment :: p' =>
      match root with
      | File _ => Throw ENOTDIR
      | Directory entries =>
          match Obj.get segment entries with
          | None => Throw ENOENT
          | Some child => resolve child p'
          end
      end
  end.

Record Stats := mkStats { isFile : bool }.

Definition statSync (root : Node) (p : path) : Outcome Stats :=
  match resolve root p with
  | Return (File _) => Return (mkStats true)
  | Return (Directory _) => Return (mkStats false)
  | Throw e => Throw e
  end.

Definition readFileSync (root : Node) (p : path) : Outcome string :=
  match resolve root p with
  | Return (File content) => Return content
  | Return (Directory _) => Throw EISDIR
  | Throw e => Throw e
  end.

Definition readdirSync (root : Node) (p : path) : Outcome (list string) :=
  match resolve root p with
  | Return (Directory entries) => Return (map fst entries)
  | Return (File _) => Throw ENOTDIR
  | Throw e => Throw e
  end.

(** [invariant(condition)] from 'assert'. *)
Definition invariant (condition : bool) : Outcome unit :=
  if condition then Return tt else Throw AssertionError.

(** *** package.json and features *)

(** A setting of a feature's config: an object of JSON values. *)
Definition Setting : Type := Obj Json.

Record NuclideSection := mkNuclide {
  packageType : option string;
  nuclide_config : option (Obj Setting)
}.

(** The properties of a parsed package.json that the loader reads; [None]
    is an absent property. *)
Record PackageJson := mkPackageJson {
  name : option string;
  description : option string;
  providedServices : option (Obj Json);
  consumedServices : option (Obj Json);
  atomConfig : option (Obj Setting);
  nuclide : option NuclideSection
}.

Record Feature := mkFeature {
  pkg : PackageJson;
  dirname : path;
  useKeyPath : string
}.

Section Discovery.

(** The disk, the text-to-object function and the directory of main.js. *)
Variable fs : Node.
Variable JSON_parse : string -> Outcome PackageJson.
Variable __dirname : path.

Definition FEATURES_DIR : path := path_join (path_parent __dirname) "pkg".

Definition newFeature (pkg : PackageJson) (dirname : path) : string * Feature :=
  (String_ (name pkg),
   {| pkg := pkg;
      dirname := dirname;
      useKeyPath := "nuclide.use." +:+ String_ (name pkg) |}).

(** The callback of the first [forEach]: the property it adds to [features],
    if it gets that far. *)
Definition scanFeature (item : string) : Outcome (option (string * Feature)) :=
  if negb (indexOf item "." =? -1) then Return None
  else
    let dirname := path_join FEATURES_DIR item in
    let filename := path_join dirname "package.json" in
    let afterStat : Outcome (option (string * Feature)) :=
      src ← readFileSync fs filename;
      if indexOf src (dq +:+ "Atom" +:+ dq) =? -1 then Return None
      else
        pkg ← JSON_parse src;
        if match nuclide pkg with
           | Some n => bool_decide (packageType n = Some "Atom")
           | None => false
           end
        then
          _ ← invariant (truthy_string (name pkg));
          Return (Some (newFeature pkg dirname))
        else Return None in
    match stat ← statSync fs filename; invariant (isFile stat) with
    | Throw err =>
        if bool_decide (err_code err = Some "ENOENT") then Return None
        else afterStat
    | Return _ => afterStat
    end.

Definition ATOM_IDE_DIR : path :=
  path_join (path_join (path_join (path_parent __dirname) "modules") "atom-ide-ui") "pkg".

(** The callback of the second [forEach]. *)
Definition scanAtomIdeFeature (item : string) : Outcome (option (string * Feature)) :=
  let dirname := path_join ATOM_IDE_DIR item in
  let filename := path_join dirname "package.json" in
  src ← readFileSync fs filename;
  pkg ← JSON_parse src;
  Return (Some (newFeature pkg dirname)).

(** [items.forEach(item => { ... features[pkg.name] = ... })] *)
Fixpoint forEachItem (callback : string -> Outcome (option (string * Feature)))
    (items : list string) (features : Obj Feature) : Outcome (Obj Feature) :=
  match items with
  | [] => Return features
  | item :: items' =>
      match callback item with
      | Throw err => Throw err
      | Return None => forEachItem callback items' features
      | Return (Some (key, feature)) =>
          forEachItem callback items' (Obj.set key feature features)
      end
  end.

(** The value of [features] once both directories have been scanned. *)
Definition features : Outcome (Obj Feature) :=
  items ← readdirSync fs FEATURES_DIR;
  features ← forEachItem scanFeature items [];
  items' ← readdirSync fs ATOM_IDE_DIR;
  forEachItem scanAtomIdeFeature items' features.

End Discovery.

(** *** The settings schema *)

(** The exported [config] object as the literal creates it. *)
Definition config : Obj Json :=
  [ ("installRecommendedPackages",
     JObj [ ("default", JBool false);
            ("description",
             JStr ("On start up, check for and install Atom packages recommended for use with Nuclide. The" +:+
                   " list of packages can be found in the <code>package-deps</code> setting in this package's" +:+
                   " " +:+ dq +:+ "package.json" +:+ dq +:+ " file. Disabling this setting will not uninstall packages it previously" +:+
                   " installed. Restart Atom after changing this setting for it to take effect."));
            ("title", JStr "Install Recommended Packages on Startup");
            ("type", JStr "boolean") ]);
    ("useLocalRpc",
     JObj [ ("default", JBool false);
            ("description",
             JStr ("Use RPC marshalling for local services. This ensures better compatibility between the local" +:+
                   " and remote case. Useful for internal Nuclide development. Requires restart to take" +:+
                   " effect."));
            ("title", JStr "Use RPC for local Services.");
            ("type", JStr "boolean") ]);
    ("use",
     JObj [ ("type", JStr "object");
            ("collapsed", JBool true);
            ("properties", JObj []) ]) ].

(** [config[section].properties[key] = value].  Reading [properties] of a
    section that is not there throws; the loader only ever stores objects
    under [config[section]] and its [properties]. *)
Definition assignProperty (section key : string) (value : Json)
    (config : Obj Json) : Outcome (Obj Json) :=
  match Obj.get section config with
  | Some (JObj o) =>
      match Obj.get "properties" o with
      | Some (JObj properties) =>
          Return (Obj.set section
                    (JObj (Obj.set "properties"
                             (JObj (Obj.set key value properties)) o))
                    config)
      | _ => Throw TypeError
      end
  | _ => Throw TypeError
  end.

(** The entry for enabling or disabling the feature [name]. *)
Definition enableSetting (name : string) (pkg : PackageJson) : Obj Json :=
  let enabled := negb (startsWith name "sample-") in
  let setting : Obj Json :=
    [ ("title", JStr ("Enable the " +:+ dq +:+ name +:+ dq +:+ " feature"));
      ("description", JStr (match description pkg with
                            | Some d => d
                            | None => empty
                            end));
      ("type", JStr "boolean");
      ("default", JBool enabled) ] in
  let append (text : string) (setting : Obj Json) : Obj Json :=
    match Obj.get "description" setting with
    | Some (JStr d) => Obj.set "description" (JStr (d +:+ text)) setting
    | _ => setting
    end in
  let setting :=
    match providedServices pkg with
    | Some services =>
        let provides := join (Obj.keys services) ", " in
        append ("<br/>**Provides:** _" +:+ provides +:+ "_") setting
    | None => setting
    end in
  match consumedServices pkg with
  | Some services =>
      let consumes := join (Obj.keys services) ", " in
      append ("<br/>**Consumes:** _" +:+ consumes +:+ "_") setting
  | None => setting
  end.

(** [pkg.atomConfig || pkg.nuclide.config] *)
Definition pkgConfigOf (pkg : PackageJson) : Outcome (option (Obj Setting)) :=
  match atomConfig pkg with
  | Some c => Return (Some c)
  | None =>
      match nuclide pkg with
      | Some n => Return (nuclide_config n)
      | None => Throw TypeError
      end
  end.

(** [{...setting, title: setting.title || key}] *)
Definition withTitle (key : string) (setting : Setting) : Setting :=
  let title :=
    match Obj.get "title" setting with
    | Some t => if truthy (Some t) then t else JStr key
    | None => JStr key
    end in
  Obj.set "title" title setting.

(** [Object.keys(pkgConfig).forEach(key => { config[name].properties[key] = ... })] *)
Fixpoint mergeSettings (name : string) (pkgConfig : Obj Setting)
    (keys : list string) (config : Obj Json) : Outcome (Obj Json) :=
  match keys with
  | [] => Return config
  | key :: keys' =>
      match Obj.get key pkgConfig with
      | None => Throw TypeError
      | Some setting =>
          config ← assignProperty name key (JObj (withTitle key setting)) config;
          mergeSettings name pkgConfig keys' config
      end
  end.

(** The body of [Object.keys(features).forEach(name => ...)] that builds the
    schema. *)
Definition addFeature (features : Obj Feature) (name : string)
    (config : Obj Json) : Outcome (Obj Json) :=
  match Obj.get name features with
  | None => Throw TypeError
  | Some feature =>
      let pkg := pkg feature in
      let setting := enableSetting name pkg in
      config ← assignProperty "use" name (JObj setting) config;
      pkgConfig ← pkgConfigOf pkg;
      match pkgConfig with
      | Some pkgConfig =>
          let config :=
            Obj.set name (JObj [ ("type", JStr "object");
                                 ("collapsed", JBool true);
                                 ("properties", JObj []) ]) config in
          mergeSettings name pkgConfig (Obj.keys pkgConfig) config
      | None => Return config
      end
  end.

Fixpoint forEachFeature (features : Obj Feature) (names : list string)
    (config : Obj Json) : Outcome (Obj Json) :=
  match names with
  | [] => Return config
  | name :: names' =>
      config ← addFeature features name config;
      forEachFeature features names' config
  end.

(** The exported [config] once the module has been evaluated. *)
Definition buildConfig (features : Obj Feature) : Outcome (Obj Json) :=
  forEachFeature features (Obj.keys features) config.

(** *** The host editor *)

Inductive MenuItem : Type :=
  mkMenuItem {
    label : option string;
    role : option string;
    enabled : option bool;
    submenu : list MenuItem
  }.

(** What [atom.packages.getLoadedPackage] returns when the package is
    loaded. *)
Record Package := mkPackage {
  getCanDeferMainModuleRequireStorageKey : string
}.

Record BrowserWindow := mkBrowserWindow { id : Z }.

(** A [Disposable] is known by the handle the host gave out. *)
Definition Disposable : Type := nat.

(** The argument of a config watcher. *)
Record ConfigEvent := mkConfigEvent {
  oldValue : option Json;
  newValue : option Json
}.

(** The one closure the loader hands to the host: the watcher created for
    the feature [name] in [activate], with the variables it captures. *)
Inductive Callback : Type :=
| FeatureWatcher (name : string) (feature : Feature).

(** The state of the editor: the menu template, which the loader reads and
    splices directly, and everything else, which it only reaches through
    calls. *)
Record Atom (H : Type) := mkAtom {
  menu_template : list MenuItem;
  internals : H
}.
Arguments mkAtom {H} _ _.
Arguments menu_template {H} _.
Arguments internals {H} _.

Definition HostCall (H A : Type) : Type := Atom H -> Outcome A * Atom H.

(** The functions that [activate], [deactivate] and the watchers call: those
    of the editor and of its libraries, and those imported from modules of
    Nuclide other than main.js.  Nothing is assumed of them: each may change
    the editor in any way, return anything of its type, or throw. *)
Record Host (H : Type) := mkHost {
  installErrorReporter : HostCall H Disposable;
  packages_getLoadedPackage : string -> HostCall H (option Package);
  packages_activatePackage : path -> HostCall H unit;
  packages_deactivatePackage : string -> option bool -> HostCall H unit;
  localStorage_removeItem : string -> HostCall H unit;
  menu_add : list MenuItem -> HostCall H Disposable;
  menu_update : HostCall H unit;
  config_get : string -> HostCall H (option Json);
  config_onDidChange : string -> Callback -> HostCall H Disposable;
  featureConfig_get : string -> HostCall H (option Json);
  remote_BrowserWindow_getAllWindows : HostCall H (list BrowserWindow);
  remote_getCurrentWindow : HostCall H BrowserWindow;
  atomPackageDepsInstall : string -> bool -> HostCall H unit;
  Disposable_dispose : Disposable -> HostCall H unit;
  CompositeDisposable_dispose : list Disposable -> HostCall H unit
}.

(** A call the loader made, with what came back. *)
Inductive Event : Type :=
| InstallErrorReporter (r : Outcome Disposable)
| GetLoadedPackage (name : string) (r : Outcome (option Package))
| ActivatePackage (dirname : path) (r : Outcome unit)
| DeactivatePackage (name : string) (suppressSerialization : option bool)
    (r : Outcome unit)
| RemoveItem (key : string) (r : Outcome unit)
| MenuAdd (items : list MenuItem) (r : Outcome Disposable)
| MenuUpdate (r : Outcome unit)
| ConfigGet (keyPath : string) (r : Outcome (option Json))
| OnDidChange (keyPath : string) (callback : Callback) (r : Outcome Disposable)
| FeatureConfigGet (key : string) (r : Outcome (option Json))
| GetAllWindows (r : Outcome (list BrowserWindow))
| GetCurrentWindow (r : Outcome BrowserWindow)
| PackageDepsInstall (name : string) (promptUser : bool) (r : Outcome unit)
| Dispose (d : Disposable) (r : Outcome unit)
| DisposeAll (ds : list Disposable) (r : Outcome unit)
| ConsoleError (message : string).

(** The module's variables, the editor, and the calls made so far. *)
Record State (H : Type) := mkState {
  errorReporterDisposable : option Disposable;
  disposables : option (list Disposable);
  atom : Atom H;
  trace : list Event
}.
Arguments mkState {H} _ _ _ _.
Arguments errorReporterDisposable {H} _.
Arguments disposables {H} _.
Arguments atom {H} _.
Arguments trace {H} _.

(** Statements of the loader: they read and write the state and may throw;
    what was done before a throw stays done. *)
Definition M (H A : Type) : Type := State H -> Outcome A * State H.

#[global] Instance M_ret {H} : MRet (M H) := fun A a s => (Return a, s).

#[global] Instance M_bind {H} : MBind (M H) := fun A B f m s =>
  match m s with
  | (Return a, s') => f a s'
  | (Throw e, s') => (Throw e, s')
  end.

Section Lifecycle.

Context {H : Type}.
Variable host : Host H.
Variable nuclidePackageJson_version : string.
Variable features : Obj Feature.

(** A call into the editor, recorded in the trace. *)
Definition call {A} (f : HostCall H A) (event : Outcome A -> Event) : M H A :=
  fun s =>
    let (r, atom') := f (atom s) in
    (r, {| errorReporterDisposable := errorReporterDisposable s;
           disposables := disposables s;
           atom := atom';
           trace := trace s ++ [event r] |}).

Definition console_error (message : string) : M H unit :=
  fun s =>
    (Return tt, {| errorReporterDisposable := errorReporterDisposable s;
                   disposables := disposables s;
                   atom := atom s;
                   trace := trace s ++ [ConsoleError message] |}).

Definition throw {A} (e : JsError) : M H A := fun s => (Throw e, s).

(** [try { body } catch (err) { handler }] *)
Definition try_catch {A} (body : M H A) (handler : JsError -> M H A) : M H A :=
  fun s =>
    match body s with
    | (Return a, s') => (Return a, s')
    | (Throw err, s') => handler err s'
    end.

Definition get_errorReporterDisposable : M H (option Disposable) :=
  fun s => (Return (errorReporterDisposable s), s).

Definition set_errorReporterDisposable (v : option Disposable) : M H unit :=
  fun s => (Return tt, {| errorReporterDisposable := v;
                          disposables := disposables s;
                          atom := atom s;
                          trace := trace s |}).

Definition get_disposables : M H (option (list Disposable)) :=
  fun s => (Return (disposables s), s).

Definition set_disposables (v : option (list Disposable)) : M H unit :=
  fun s => (Return tt, {| errorReporterDisposable := errorReporterDisposable s;
                          disposables := v;
                          atom := atom s;
                          trace := trace s |}).

Definition get_template : M H (list MenuItem) :=
  fun s => (Return (menu_template (atom s)), s).

Definition set_template (template : list MenuItem) : M H unit :=
  fun s => (Return tt, {| errorReporterDisposable := errorReporterDisposable s;
                          disposables := disposables s;
                          atom := {| menu_template := template;
                                     internals := internals (atom s) |};
                          trace := trace s |}).

(** [disposables.add(d)] on the [CompositeDisposable] held in [disposables]. *)
Definition disposables_add (d : Disposable) : M H unit :=
  ds ← get_disposables;
  match ds with
  | Some members => set_disposables (Some (members ++ [d]))
  | None => throw TypeError
  end.

Fixpoint forEach {A} (l : list A) (callback : A -> M H unit) : M H unit :=
  match l with
  | [] => mret tt
  | x :: l' => _ ← callback x; forEach l' callback
  end.

Definition safeDeactivate (name : string) (suppressSerialization : option bool)
  : M H unit :=
  try_catch
    (pack ← call (packages_getLoadedPackage H host name) (GetLoadedPackage name);
     match pack with
     | Some _ =>
         call (packages_deactivatePackage H host name suppressSerialization)
              (DeactivatePackage name suppressSerialization)
     | None => mret tt
     end)
    (fun err =>
       console_error ("Error deactivating " +:+ dq +:+ name +:+ dq +:+ ": "
                      +:+ err_message err)).

(** The menu, as added by [activate]. *)
Definition nuclideMenu : MenuItem :=
  {| label := Some "Nuclide";
     role := None;
     enabled := None;
     submenu := [ {| label := Some ("Version " +:+ nuclidePackageJson_version);
                     role := None;
                     enabled := Some false;
                     submenu := [] |} ] |}.

Definition isWindowOrHelp (item : MenuItem) : bool :=
  bool_decide (role item = Some "window") || bool_decide (role item = Some "help").

Definition isNuclide (item : MenuItem) : bool :=
  bool_decide (label item = Some "Nuclide").

(** The two [splice] calls on [atom.menu.template].  ([removed] has an
    element whenever [insertIndex] was found, see [moveNuclide_removed].) *)
Definition moveNuclide (template : list MenuItem) (insertIndex : Z)
  : list MenuItem :=
  let nuclideIndex := findIndex template isNuclide in
  let (removed, template) := splice template nuclideIndex 1 [] in
  let newIndex :=
    if insertIndex >? nuclideIndex then insertIndex - 1 else insertIndex in
  match removed with
  | menuItem :: _ => snd (splice template newIndex 0 [menuItem])
  | [] => template
  end.

(** "Manually manipulate the menu template order." *)
Definition reorderMenu : M H unit :=
  template ← get_template;
  let insertIndex := findIndex template isWindowOrHelp in
  if negb (insertIndex =? -1) then
    _ ← set_template (moveNuclide template insertIndex);
    call (menu_update H host) MenuUpdate
  else mret tt.

(** The watcher passed to [atom.config.onDidChange] for a feature. *)
Definition featureWatcher (name : string) (feature : Feature) (event : ConfigEvent)
  : M H unit :=
  match newValue event with
  | Some (JBool true) =>
      call (packages_activatePackage H host (dirname feature))
           (ActivatePackage (dirname feature))
  | Some (JBool false) => safeDeactivate name None
  | _ => mret tt
  end.

(** What the editor runs when it invokes a callback it was given. *)
Definition invoke (callback : Callback) (event : ConfigEvent) : M H unit :=
  match callback with
  | FeatureWatcher name feature => featureWatcher name feature event
  end.

Definition activate : M H unit :=
  reporter ← get_errorReporterDisposable;
  _ ← match reporter with
      | None =>
          d ← call (installErrorReporter H host) InstallErrorReporter;
          set_errorReporterDisposable (Some d)
      | Some _ => mret tt
      end;
  nuclidePack ← call (packages_getLoadedPackage H host "nuclide")
                     (GetLoadedPackage "nuclide");
  match nuclidePack with
  | None => throw AssertionError
  | Some nuclidePack =>
      let key := getCanDeferMainModuleRequireStorageKey nuclidePack in
      _ ← call (localStorage_removeItem H host key) (RemoveItem key);
      _ ← set_disposables (Some []);
      d ← call (menu_add H host [nuclideMenu]) (MenuAdd [nuclideMenu]);
      _ ← disposables_add d;
      _ ← reorderMenu;
      _ ← forEach (Obj.keys features) (fun name =>
            match Obj.get name features with
            | None => throw TypeError
            | Some feature =>
                v ← call (config_get H host (useKeyPath feature))
                         (ConfigGet (useKeyPath feature));
                if truthy v then
                  call (packages_activatePackage H host (dirname feature))
                       (ActivatePackage (dirname feature))
                else mret tt
            end);
      _ ← forEach (Obj.keys features) (fun name =>
            match Obj.get name features with
            | None => throw TypeError
            | Some feature =>
                watcher ← call (config_onDidChange H host (useKeyPath feature)
                                  (FeatureWatcher name feature))
                               (OnDidChange (useKeyPath feature)
                                  (FeatureWatcher name feature));
                ds ← get_disposables;
                match ds with
                | None => throw AssertionError
                | Some _ => disposables_add watcher
                end
            end);
      v ← call (featureConfig_get H host "installRecommendedPackages")
               (FeatureConfigGet "installRecommendedPackages");
      if truthy v then
        windows ← call (remote_BrowserWindow_getAllWindows H host) GetAllWindows;
        match windows with
        | [] => throw TypeError
        | first :: _ =>
            let firstWindowId := id first in
            current ← call (remote_getCurrentWindow H host) GetCurrentWindow;
            let currentWindowId := id current in
            if firstWindowId =? currentWindowId then
              call (atomPackageDepsInstall H host "nuclide" false)
                   (PackageDepsInstall "nuclide" false)
            else mret tt
        end
      else mret tt
  end.

Definition deactivate : M H unit :=
  _ ← forEach (Obj.keys features) (fun name => safeDeactivate name (Some true));
  ds ← get_disposables;
  match ds with
  | None => throw AssertionError
  | Some members =>
      _ ← call (CompositeDisposable_dispose H host members) (DisposeAll members);
      _ ← set_disposables None;
      reporter ← get_errorReporterDisposable;
      match reporter with
      | None => throw AssertionError
      | Some d =>
          _ ← call (Disposable_dispose H host d) (Dispose d);
          set_errorReporterDisposable None
      end
  end.

End Lifecycle.

(** The settings key path of every feature is 'nuclide.use.' followed by the
    name it is stored under. *)
Definition wellFormed (features : Obj Feature) : Prop :=
  forall name feature,
    Obj.get name features = Some feature ->
    useKeyPath feature = "nuclide.use." +:+ name.

(** [config[section].properties[key]] and [config[section][f]], when there. *)
Definition property (section key : string) (config : Obj Json) : option Json :=
  match Obj.get section config with
  | Some (JObj o) =>
      match Obj.get "properties" o with
      | Some (JObj properties) => Obj.get key properties
      | _ => None
      end
  | _ => None
  end.

Definition field (section f : string) (config : Obj Json) : option Json :=
  match Obj.get section config with
  | Some (JObj o) => Obj.get f o
  | _ => None
  end.

(** [config[section]] is an object whose [properties] is an object. *)
Definition hasProperties (section : string) (config : Obj Json) : Prop :=
  exists o properties,
    Obj.get section config = Some (JObj o)
    /\ Obj.get "properties" o = Some (JObj properties).

(** The text logged when deactivating [name] threw [err]. *)
Definition deactivatingMessage (name : string) (err : JsError) : string :=
  "Error deactivating " +:+ dq +:+ name +:+ dq +:+ ": " +:+ err_message err.

(** One attempt to deactivate [name]: the package is looked up and, if it is
    loaded, deactivated; an exception from either call is followed by a line
    on the console and nothing else. *)
Inductive Attempt (name : string) (suppressSerialization : option bool)
  : list Event -> Prop :=
| attempt_not_loaded :
    Attempt name suppressSerialization
      [ GetLoadedPackage name (Return None) ]
| attempt_lookup_threw (err : JsError) :
    Attempt name suppressSerialization
      [ GetLoadedPackage name (Throw err);
        ConsoleError (deactivatingMessage name err) ]
| attempt_deactivated (pack : Package) :
    Attempt name suppressSerialization
      [ GetLoadedPackage name (Return (Some pack));
        DeactivatePackage name suppressSerialization (Return tt) ]
| attempt_deactivate_threw (pack : Package) (err : JsError) :
    Attempt name suppressSerialization
      [ GetLoadedPackage name (Return (Some pack));
        DeactivatePackage name suppressSerialization (Throw err);
        ConsoleError (deactivatingMessage name err) ].

(** [s'] is [s] with a different editor and more calls recorded. *)
Definition after {H} (s : State H) (atom' : Atom H) (events : list Event)
  : State H :=
  {| errorReporterDisposable := errorReporterDisposable s;
     disposables := disposables s;
     atom := atom';
     trace := trace s ++ events |}.

End Loader.

(** ** nuclide-commons-atom/observePaneItemVisibility.js *)

Module Visibility.

(** Panes, pane items and pane containers are objects compared by identity. *)
Definition Pane : Type := nat.
Definition Item : Type := nat.
Definition PaneContainer : Type := nat.

(** [atom.workspace]: [getPaneContainers] is absent before Atom 1.17. *)
Record Workspace := mkWorkspace {
  getPaneContainers : option (list PaneContainer)
}.

(** What happens in the editor, in order: a container reports a pane to the
    callbacks of [observePanes], a pane reports its active item to the
    callbacks of [observeActiveItem] ([None] when it has none), a pane reports
    its destruction to the callbacks of [onDidDestroy], or an animation frame
    comes round. *)
Inductive Tick : Type :=
| observePanes_callback (container : PaneContainer) (pane : Pane)
| observeActiveItem_callback (pane : Pane) (item : option Item)
| onDidDestroy_callback (pane : Pane)
| animationFrame.

Definition isAnimationFrame (tick : Tick) : bool :=
  match tick with
  | animationFrame => true
  | _ => false
  end.

(** An observable, seen from a subscriber over a stretch of time: the values
    delivered during each tick, in order, and, if it completes, the number of
    ticks after which it does (0: on subscription). *)
Abbreviation Signal A := (list (list A)).

Record Subscription (A : Type) := mkSubscription {
  received : Signal A;
  completedAfter : option nat
}.
Arguments mkSubscription {A} _ _.
Arguments received {A} _.
Arguments completedAfter {A} _.

(** All values delivered, in order. *)
Definition emitted {A} (s : Subscription A) : list A := concat (received s).

Section Operators.

Context {A B : Type}.

(** [Observable.empty()] *)
Definition Observable_empty (timeline : list Tick) : Subscription A :=
  {| received := map (fun _ => []) timeline; completedAfter := Some 0%nat |}.

(** [source.map(f)] *)
Definition map_ (f : A -> B) (source : Signal A) : Signal B :=
  map (map f) source.

(** [source.scan(f, seed)] *)
Fixpoint scan_tick (f : B -> A -> B) (acc : B) (xs : list A) : list B * B :=
  match xs with
  | [] => ([], acc)
  | x :: xs' =>
      let acc' := f acc x in
      let (out, final) := scan_tick f acc' xs' in
      (acc' :: out, final)
  end.

Fixpoint scan (f : B -> A -> B) (acc : B) (source : Signal A) : Signal B :=
  match source with
  | [] => []
  | xs :: source' =>
      let (out, acc') := scan_tick f acc xs in
      out :: scan f acc' source'
  end.

(** [source.debounceTime(0, Scheduler.animationFrame)]: a value waits for
    the next animation frame and is dropped if another arrives first. *)
Fixpoint debounceTime (pending : option A) (timeline : list Tick)
    (source : Signal A) : Signal A :=
  match timeline, source with
  | tick :: timeline', xs :: source' =>
      let pending :=
        match last xs with
        | Some x => Some x
        | None => pending
        end in
      if isAnimationFrame tick then
        match pending with
        | Some x => [x] :: debounceTime None timeline' source'
        | None => [] :: debounceTime None timeline' source'
        end
      else [] :: debounceTime pending timeline' source'
  | _, _ => []
  end.

(** [source.distinctUntilChanged()] *)
Fixpoint distinct_tick `{EqDecision A} (previous : option A) (xs : list A)
  : list A * option A :=
  match xs with
  | [] => ([], previous)
  | x :: xs' =>
      if bool_decide (previous = Some x) then distinct_tick previous xs'
      else
        let (out, final) := distinct_tick (Some x) xs' in
        (x :: out, final)
  end.

Fixpoint distinctUntilChanged `{EqDecision A} (previous : option A)
    (source : Signal A) : Signal A :=
  match source with
  | [] => []
  | xs :: source' =>
      let (out, previous') := distinct_tick previous xs in
      out :: distinctUntilChanged previous' source'
  end.

(** [source.share()], for a subscriber that arrives after [since] ticks of
    one connection to [source]. *)
Definition share (since : nat) (source : Signal A) : Signal A :=
  drop since source.

End Operators.

(** [{pane, item}] *)
Record Activation := mkActivation {
  pane : Pane;
  item : option Item
}.

(** The number of subscriptions that [flatMap] holds on [pane]. *)
Definition subscriptions (pane : Pane) (live : list Pane) : nat :=
  List.length (filter (fun p => p = pane) live).

(** [itemActivations]: the merge, over the containers, of the panes each one
    reports, every pane giving [{pane, item}] for each active item it reports
    until it is destroyed ([takeUntil]) and [{pane, item: null}] then
    ([concat] with [of]).  [live] has a pane once for every subscription
    currently held on it. *)
Fixpoint itemActivations (containers : list PaneContainer) (live : list Pane)
    (timeline : list Tick) : Signal Activation :=
  match timeline with
  | [] => []
  | tick :: timeline' =>
      match tick with
      | observePanes_callback container pane =>
          let n := List.length (filter (fun c => c = container) containers) in
          [] :: itemActivations containers (replicate n pane ++ live) timeline'
      | observeActiveItem_callback pane item =>
          replicate (subscriptions pane live) (mkActivation pane item)
            :: itemActivations containers live timeline'
      | onDidDestroy_callback pane =>
          replicate (subscriptions pane live) (mkActivation pane None)
            :: itemActivations containers (filter (fun p => p <> pane) live) timeline'
      | animationFrame => [] :: itemActivations containers live timeline'
      end
  end.

(** The accumulator of [scan]: it changes the [Map] it is given in place and
    returns it.  The [Map] is read when a debounced notification is
    delivered; nothing changes it between the last activation and that
    delivery, so the snapshot taken at the last activation is what is read. *)
Definition setActiveItem (acc : gmap Pane Item) (activation : Activation)
  : gmap Pane Item :=
  match item activation with
  | None => delete (pane activation) acc
  | Some i => <[pane activation := i]> acc
  end.

(** [Array.from(map.values())], up to order. *)
Definition values (acc : gmap Pane Item) : list Item :=
  (map_to_list acc).*2.

(** [activeItems.includes(item)] *)
Definition includes (activeItems : list Item) (item : Item) : bool :=
  bool_decide (item ∈ activeItems).

(** What a connection to [itemActivations] that lasts for [timeline] makes
    of the [Map] it finds as [seed]. *)
Definition panesToActiveItemAfter (containers : list PaneContainer)
    (seed : gmap Pane Item) (timeline : list Tick) : gmap Pane Item :=
  fold_left setActiveItem (concat (itemActivations containers [] timeline)) seed.

(** The seed of [scan] is [new Map()], evaluated once, when the memoized
    function runs: every connection that [share] makes to the source, from a
    first subscriber to the departure of the last, starts [scan] on that one
    object, as the connections before it left it.  [earlier] are the stretches
    of time of those connections, the oldest first. *)
Definition seedAfter (containers : list PaneContainer)
    (earlier : list (list Tick)) : gmap Pane Item :=
  fold_left (panesToActiveItemAfter containers) earlier ∅.

(** The memoized [observeActiveItems()], over the connection that lasts for
    [timeline]. *)
Definition observeActiveItems (containers : list PaneContainer)
    (earlier : list (list Tick)) (timeline : list Tick) : Signal (list Item) :=
  let itemActivations := itemActivations containers [] timeline in
  let panesToActiveItem :=
    scan setActiveItem (seedAfter containers earlier) itemActivations in
  map_ values (debounceTime None timeline panesToActiveItem).

(** [observePaneItemVisibility(item)], subscribed to after [since] ticks of
    the connection that lasts for [timeline].  With no container at all the
    merge is empty and everything downstream completes at once. *)
Definition observePaneItemVisibility (workspace : Workspace) (item : Item)
    (earlier : list (list Tick)) (since : nat) (timeline : list Tick)
  : Subscription bool :=
  match getPaneContainers workspace with
  | None => Observable_empty (drop since timeline)
  | Some containers =>
      {| received :=
           distinctUntilChanged None
             (map_ (fun activeItems => includes activeItems item)
                   (share since (observeActiveItems containers earlier timeline)));
         completedAfter :=
           match containers with
           | [] => Some 0%nat
           | _ => None
           end |}
  end.

(** The panes on which subscriptions are held after [timeline]. *)
Fixpoint liveAfter (containers : list PaneContainer) (live : list Pane)
    (timeline : list Tick) : list Pane :=
  match timeline with
  | [] => live
  | observePanes_callback container pane :: timeline' =>
      let n := List.length (filter (fun c => c = container) containers) in
      liveAfter containers (replicate n pane ++ live) timeline'
  | onDidDestroy_callback pane :: timeline' =>
      liveAfter containers (filter (fun p => p <> pane) live) timeline'
  | _ :: timeline' => liveAfter containers live timeline'
  end.

(** In words: [pane] has been reported by one of the containers and has not
    been destroyed since. *)
Inductive Observed (containers : list PaneContainer) : list Tick -> Pane -> Prop :=
| observed_now timeline container pane :
    container ∈ containers ->
    Observed containers (timeline ++ [observePanes_callback container pane]) pane
| observed_before timeline tick pane :
    Observed containers timeline pane ->
    tick <> onDidDestroy_callback pane ->
    Observed containers (timeline ++ [tick]) pane.

(** In words: the active item that [pane] reported last, while observed, is
    [item], and [pane] has not been destroyed since. *)
Inductive ActiveItemOf (containers : list PaneContainer)
  : list Tick -> Pane -> Item -> Prop :=
| active_now timeline pane item :
    Observed containers timeline pane ->
    ActiveItemOf containers
      (timeline ++ [observeActiveItem_callback pane (Some item)]) pane item
| active_before timeline tick pane item :
    ActiveItemOf containers timeline pane item ->
    (forall i, tick <> observeActiveItem_callback pane i) ->
    tick <> onDidDestroy_callback pane ->
    ActiveItemOf containers (timeline ++ [tick]) pane item.

(** A sequence in which no value follows itself, [previous] being what came
    before it. *)
Fixpoint NoRepeat {A} (previous : option A) (l : list A) : Prop :=
  match l with
  | [] => True
  | x :: l' => previous <> Some x /\ NoRepeat (Some x) l'
  end.

(** Two connections.  During the first, container 0 reports pane 1 and pane 1
    reports item 7; then the last subscriber leaves.  Pane 1 is destroyed while
    nobody is connected.  The second connection finds pane 2 only, showing
    item 9. *)
Definition first_connection : list Tick :=
  [ observePanes_callback 0 1;
    observeActiveItem_callback 1 (Some 7%nat);
    animationFrame ]%nat.

Definition second_connection : list Tick :=
  [ observePanes_callback 0 2;
    observeActiveItem_callback 2 (Some 9%nat);
    animationFrame ]%nat.

(** A stretch of time to try the observable on: container 0 reports pane 1,
    pane 1 reports item 7, a frame; it reports item 8 and at once item 7
    again, a frame; it is destroyed, a frame. *)
Definition sample_timeline : list Tick :=
  [ observePanes_callback 0 1;
    observeActiveItem_callback 1 (Some 7%nat);
    animationFrame;
    observeActiveItem_callback 1 (Some 8%nat);
    observeActiveItem_callback 1 (Some 7%nat);
    animationFrame;
    onDidDestroy_callback 1;
    animationFrame ]%nat.

End Visibility.

(** ** lib/main.js: what is said of the discovery and of the calls *)

Module LoaderCalls.
Import Loader.

(** [callback] adds [feature] under [key] for some item of [items] and for
    no later one. *)
Definition LastRegistered (callback : string -> Outcome (option (string * Feature)))
    (items : list string) (key : string) (feature : Feature) : Prop :=
  exists before item after,
    items = before ++ item :: after
    /\ callback item = Return (Some (key, feature))
    /\ Forall (fun item' => forall feature',
                 callback item' <> Return (Some (key, feature'))) after.

Definition NeverRegistered (callback : string -> Outcome (option (string * Feature)))
    (items : list string) (key : string) : Prop :=
  Forall (fun item => forall feature,
            callback item <> Return (Some (key, feature))) items.

(** The package has a section in which [pkg.atomConfig || pkg.nuclide.config]
    can be looked up. *)
Definition hasConfigSection (pkg : PackageJson) : Prop :=
  is_Some (atomConfig pkg) \/ is_Some (nuclide pkg).

Section Calls.

Context {H : Type}.
Variable host : Host H.
Variable nuclidePackageJson_version : string.
Variable features : Obj Feature.

(** The first loop of [activate]: packages of enabled features are
    activated. *)
Definition enableFeature (name : string) : M H unit :=
  match Obj.get name features with
  | None => throw TypeError
  | Some feature =>
      v ← call (config_get H host (useKeyPath feature))
               (ConfigGet (useKeyPath feature));
      if truthy v then
        call (packages_activatePackage H host (dirname feature))
             (ActivatePackage (dirname feature))
      else mret tt
  end.

(** The end of [activate]: the recommended packages. *)
Definition installRecommended : M H unit :=
  v ← call (featureConfig_get H host "installRecommendedPackages")
           (FeatureConfigGet "installRecommendedPackages");
  if truthy v then
    windows ← call (remote_BrowserWindow_getAllWindows H host) GetAllWindows;
    match windows with
    | [] => throw TypeError
    | first :: _ =>
        let firstWindowId := id first in
        current ← call (remote_getCurrentWindow H host) GetCurrentWindow;
        let currentWindowId := id current in
        if firstWindowId =? currentWindowId then
          call (atomPackageDepsInstall H host "nuclide" false)
               (PackageDepsInstall "nuclide" false)
        else mret tt
    end
  else mret tt.

(** The calls made for one feature by the first loop, when they return:
    its setting is read, and its package is activated if the setting is
    truthy. *)
Inductive Enabling (name : string) : list Event -> Prop :=
| enabling_off (feature : Feature) (v : option Json) :
    Obj.get name features = Some feature ->
    truthy v = false ->
    Enabling name [ ConfigGet (useKeyPath feature) (Return v) ]
| enabling_on (feature : Feature) (v : option Json) :
    Obj.get name features = Some feature ->
    truthy v = true ->
    Enabling name [ ConfigGet (useKeyPath feature) (Return v);
                    ActivatePackage (dirname feature) (Return tt) ].

(** The call made for one feature by the second loop, when it returns the
    disposable [d]. *)
Inductive Watching (name : string) : Disposable * Event -> Prop :=
| watching (feature : Feature) (d : Disposable) :
    Obj.get name features = Some feature ->
    Watching name (d, OnDidChange (useKeyPath feature)
                        (FeatureWatcher name feature) (Return d)).

(** The calls made for the recommended packages, when they return: the
    setting is read; if it is truthy the windows are listed and the current
    one is asked for; if the first window is the current one the packages
    of 'nuclide' are installed, without a prompt. *)
Inductive Recommended : list Event -> Prop :=
| recommended_off (v : option Json) :
    truthy v = false ->
    Recommended [ FeatureConfigGet "installRecommendedPackages" (Return v) ]
| recommended_other_window (v : option Json) (first : BrowserWindow)
    (windows : list BrowserWindow) (current : BrowserWindow) :
    truthy v = true ->
    id first <> id current ->
    Recommended [ FeatureConfigGet "installRecommendedPackages" (Return v);
                  GetAllWindows (Return (first :: windows));
                  GetCurrentWindow (Return current) ]
| recommended_first_window (v : option Json) (first : BrowserWindow)
    (windows : list BrowserWindow) (current : BrowserWindow) :
    truthy v = true ->
    id first = id current ->
    Recommended [ FeatureConfigGet "installRecommendedPackages" (Return v);
                  GetAllWindows (Return (first :: windows));
                  GetCurrentWindow (Return current);
                  PackageDepsInstall "nuclide" false (Return tt) ].

(** The calls that [activate] may make. *)
Definition setsUp (e : Event) : Prop :=
  match e with
  | InstallErrorReporter _ | RemoveItem _ _ | MenuUpdate _
  | GetAllWindows _ | GetCurrentWindow _ => True
  | GetLoadedPackage name _ => name = "nuclide"
  | MenuAdd items _ => items = [nuclideMenu nuclidePackageJson_version]
  | ConfigGet keyPath _ =>
      exists name feature,
        Obj.get name features = Some feature /\ keyPath = useKeyPath feature
  | ActivatePackage dir _ =>
      exists name feature,
        Obj.get name features = Some feature /\ dir = dirname feature
  | OnDidChange keyPath callback _ =>
      exists name feature,
        Obj.get name features = Some feature
        /\ keyPath = useKeyPath feature
        /\ callback = FeatureWatcher name feature
  | FeatureConfigGet key _ => key = "installRecommendedPackages"
  | PackageDepsInstall name promptUser _ => name = "nuclide" /\ promptUser = false
  | DeactivatePackage _ _ _ | Dispose _ _ | DisposeAll _ _ | ConsoleError _ => False
  end.

End Calls.

(** The calls of the first loop, of the recommended packages, and of the
    error reporter. *)
Definition isEnablingCall (e : Event) : bool :=
  match e with
  | ConfigGet _ _ | ActivatePackage _ _ => true
  | _ => false
  end.

Definition isRecommendedCall (e : Event) : bool :=
  match e with
  | FeatureConfigGet _ _ | GetAllWindows _ | GetCurrentWindow _
  | PackageDepsInstall _ _ _ => true
  | _ => false
  end.

Definition isInstallErrorReporter (e : Event) : bool :=
  match e with
  | InstallErrorReporter _ => true
  | _ => false
  end.

(** Every call that [m] records satisfies [P], however [m] ends. *)
Definition Emits {H} (P : Event -> Prop) {A} (m : M H A) : Prop :=
  forall s r s', m s = (r, s') ->
    exists events, trace s' = trace s ++ events /\ Forall P events.

End LoaderCalls.

(** ** lib/main.js: the load phase and serialization *)

(** The rest of main.js: the statements that settle [useLocalRpc] while the
    module is evaluated, the callback given to
    [atom.packages.onDidLoadPackage], and [serialize].  They reach the editor
    through calls that [activate] and [deactivate] do not make, and are
    modelled with a record of calls of their own. *)
Module LoaderPhases.

(** The argument of the callback of [onDidLoadPackage]. *)
Record LoadedPackage := mkLoadedPackage {
  name : string
}.

Definition HostCall (H A : Type) : Type := H -> Outcome A * H.

(** The functions called: nothing is assumed of them. *)
Record Host (H : Type) := mkHost {
  config_get : string -> HostCall H (option Json);
  setUseLocalRpc : option Json -> HostCall H unit;
  packages_loadPackage : Loader.path -> HostCall H unit;
  packages_getActivePackage : string -> HostCall H (option Loader.Package);
  packages_serializePackage : Loader.Package -> HostCall H unit;
  Disposable_dispose : Loader.Disposable -> HostCall H unit
}.

(** A call made, with what came back. *)
Inductive Event : Type :=
| ConfigGet (keyPath : string) (r : Outcome (option Json))
| SetUseLocalRpc (value : option Json) (r : Outcome unit)
| LoadPackage (dirname : Loader.path) (r : Outcome unit)
| GetActivePackage (name : string) (r : Outcome (option Loader.Package))
| SerializePackage (pack : Loader.Package) (r : Outcome unit)
| Dispose (d : Loader.Disposable) (r : Outcome unit)
| ConsoleError (message : string).

(** The module variable [initialLoadDisposable], the editor, and the calls
    made so far. *)
Record State (H : Type) := mkState {
  initialLoadDisposable : option Loader.Disposable;
  atom : H;
  trace : list Event
}.
Arguments mkState {H} _ _ _.
Arguments initialLoadDisposable {H} _.
Arguments atom {H} _.
Arguments trace {H} _.

Definition M (H A : Type) : Type := State H -> Outcome A * State H.

#[export] Instance M_ret {H} : MRet (M H) := fun A a s => (Return a, s).

#[export] Instance M_bind {H} : MBind (M H) := fun A B f m s =>
  match m s with
  | (Return a, s') => f a s'
  | (Throw e, s') => (Throw e, s')
  end.

Section Phases.

Context {H : Type}.
Variable host : Host H.
Variable features : Obj Loader.Feature.

(** The exported [config], as it is when the function runs. *)
Variable config : Obj Json.

Definition call {A} (f : HostCall H A) (event : Outcome A -> Event) : M H A :=
  fun s =>
    let (r, atom') := f (atom s) in
    (r, {| initialLoadDisposable := initialLoadDisposable s;
           atom := atom';
           trace := trace s ++ [event r] |}).

Definition console_error (message : string) : M H unit :=
  fun s =>
    (Return tt, {| initialLoadDisposable := initialLoadDisposable s;
                   atom := atom s;
                   trace := trace s ++ [ConsoleError message] |}).

Definition throw {A} (e : JsError) : M H A := fun s => (Throw e, s).

(** An expression that may throw, evaluated as a statement. *)
Definition eval {A} (r : Outcome A) : M H A := fun s => (r, s).

(** [try { body } catch (err) { handler }] *)
Definition try_catch {A} (body : M H A) (handler : JsError -> M H A) : M H A :=
  fun s =>
    match body s with
    | (Return a, s') => (Return a, s')
    | (Throw err, s') => handler err s'
    end.

Definition get_initialLoadDisposable : M H (option Loader.Disposable) :=
  fun s => (Return (initialLoadDisposable s), s).

Definition set_initialLoadDisposable (v : option Loader.Disposable) : M H unit :=
  fun s => (Return tt, {| initialLoadDisposable := v;
                          atom := atom s;
                          trace := trace s |}).

Fixpoint forEach {A} (l : list A) (callback : A -> M H unit) : M H unit :=
  match l with
  | [] => mret tt
  | x :: l' => _ ← callback x; forEach l' callback
  end.

(** [typeof _useLocalRpc !== 'boolean' ? config.useLocalRpc.default
    : _useLocalRpc], where [config] is still the literal. *)
Definition _shouldUseLocalRpc (_useLocalRpc : option Json) : option Json :=
  match _useLocalRpc with
  | Some (JBool b) => Some (JBool b)
  | _ => Loader.field "useLocalRpc" "default" Loader.config
  end.

(** "[setUseLocalRpc] can only be called once, so it's set out here during
    load." *)
Definition useLocalRpc : M H unit :=
  _useLocalRpc ← call (config_get H host "nuclide.useLocalRpc")
                      (ConfigGet "nuclide.useLocalRpc");
  call (setUseLocalRpc H host (_shouldUseLocalRpc _useLocalRpc))
       (SetUseLocalRpc (_shouldUseLocalRpc _useLocalRpc)).

(** [config.use.properties[name].default]: reading [default] of an entry
    that is not there throws.  (The loader only ever stores objects in
    [config.use.properties].) *)
Definition defaultOf (name : string) : Outcome (option Json) :=
  match Loader.property "use" name config with
  | Some (JObj setting) => Return (Obj.get "default" setting)
  | _ => Throw Loader.TypeError
  end.

(** The body of the [forEach] in the callback of [onDidLoadPackage]. *)
Definition loadFeature (name : string) : M H unit :=
  match Obj.get name features with
  | None => throw Loader.TypeError
  | Some feature =>
      _enabled ← call (config_get H host (Loader.useKeyPath feature))
                      (ConfigGet (Loader.useKeyPath feature));
      _shouldEnable ← match _enabled with
                       | None => eval (defaultOf name)
                       | Some v => mret (Some v)
                       end;
      if truthy _shouldEnable then
        call (packages_loadPackage H host (Loader.dirname feature))
             (LoadPackage (Loader.dirname feature))
      else mret tt
  end.

(** The callback given to [atom.packages.onDidLoadPackage]. *)
Definition onDidLoadPackage_callback (pack : LoadedPackage) : M H unit :=
  if negb (String.eqb (name pack) "nuclide") then mret tt
  else
    _ ← forEach (Obj.keys features) loadFeature;
    d ← get_initialLoadDisposable;
    match d with
    | None => throw Loader.AssertionError
    | Some d =>
        _ ← call (Disposable_dispose H host d) (Dispose d);
        set_initialLoadDisposable None
    end.

Definition safeSerialize (name : string) : M H unit :=
  try_catch
    (pack ← call (packages_getActivePackage H host name) (GetActivePackage name);
     match pack with
     | Some pack =>
         call (packages_serializePackage H host pack) (SerializePackage pack)
     | None => mret tt
     end)
    (fun err =>
       console_error ("Error serializing " +:+ dq +:+ name +:+ dq +:+ ": "
                      +:+ err_message err)).

Definition serialize : M H unit :=
  forEach (Obj.keys features) safeSerialize.

End Phases.

(** [s] with a different editor and more calls recorded. *)
Definition after {H} (s : State H) (atom' : H) (events : list Event) : State H :=
  {| initialLoadDisposable := initialLoadDisposable s;
     atom := atom';
     trace := trace s ++ events |}.

(** Whether the feature [name] is loaded when its setting reads [_enabled]
    and the default is that of the schema: a set value decides by its
    truthiness; with no value set, every feature but the samples is
    loaded. *)
Definition enabledBy (name : string) (_enabled : option Json) : bool :=
  match _enabled with
  | None => negb (startsWith name "sample-")
  | Some v => truthy (Some v)
  end.

(** The text logged when serializing [name] threw [err]. *)
Definition serializingMessage (name : string) (err : JsError) : string :=
  "Error serializing " +:+ dq +:+ name +:+ dq +:+ ": " +:+ err_message err.

(** One attempt to serialize [name]: the active package is looked up and,
    if there is one, that package is serialized; an exception from either
    call is followed by a line on the console and nothing else. *)
Inductive Attempt (name : string) : list Event -> Prop :=
| attempt_not_active :
    Attempt name [ GetActivePackage name (Return None) ]
| attempt_lookup_threw (err : JsError) :
    Attempt name [ GetActivePackage name (Throw err);
                   ConsoleError (serializingMessage name err) ]
| attempt_serialized (pack : Loader.Package) :
    Attempt name [ GetActivePackage name (Return (Some pack));
                   SerializePackage pack (Return tt) ]
| attempt_serialize_threw (pack : Loader.Package) (err : JsError) :
    Attempt name [ GetActivePackage name (Return (Some pack));
                   SerializePackage pack (Throw err);
                   ConsoleError (serializingMessage name err) ].

(** The calls made for one feature by the callback, when they return: its
    setting is read, and its package is loaded if [enabledBy] says so. *)
Inductive Loading (features : Obj Loader.Feature) (name : string)
  : list Event -> Prop :=
| loading_skipped (feature : Loader.Feature) (v : option Json) :
    Obj.get name features = Some feature ->
    enabledBy name v = false ->
    Loading features name [ ConfigGet (Loader.useKeyPath feature) (Return v) ]
| loading_loaded (feature : Loader.Feature) (v : option Json) :
    Obj.get name features = Some feature ->
    enabledBy name v = true ->
    Loading features name [ ConfigGet (Loader.useKeyPath feature) (Return v);
                            LoadPackage (Loader.dirname feature) (Return tt) ].

End LoaderPhases.

(** ** Sample inputs *)

Module Examples.
Import Loader.

Definition SyntaxError : JsError := mkError None "Unexpected token".





(** A string in double quotes. *)
Definition q (s : string) : string := dq +:+ s +:+ dq.

(** A checkout with two features, one of them a sample, a package that is
    not an Atom package, and a file. *)
Definition debugger_src : string :=
  "{" +:+ q "name" +:+ ":" +:+ q "nuclide-debugger" +:+ ","
      +:+ q "nuclide" +:+ ":{" +:+ q "packageType" +:+ ":" +:+ q "Atom" +:+ ","
      +:+ q "config" +:+ ":{" +:+ q "showConsole" +:+ ":{"
      +:+ q "type" +:+ ":" +:+ q "boolean" +:+ "," +:+ q "default" +:+ ":true}}}}".

Definition debugger_pkg : PackageJson :=
  {| name := Some "nuclide-debugger"; description := None;
     providedServices := None; consumedServices := None;
     atomConfig := None;
     nuclide := Some {| packageType := Some "Atom";
                        nuclide_config :=
                          Some [ ("showConsole",
                                  [ ("type", JStr "boolean");
                                    ("default", JBool true) ]) ] |} |}.

Definition hello_src : string :=
  "{" +:+ q "name" +:+ ":" +:+ q "sample-hello" +:+ ","
      +:+ q "nuclide" +:+ ":{" +:+ q "packageType" +:+ ":" +:+ q "Atom" +:+ "}}".

Definition hello_pkg : PackageJson :=
  {| name := Some "sample-hello"; description := None;
     providedServices := None; consumedServices := None;
     atomConfig := None;
     nuclide := Some {| packageType := Some "Atom"; nuclide_config := None |} |}.

Definition rpc_src : string :=
  "{" +:+ q "name" +:+ ":" +:+ q "nuclide-rpc" +:+ ","
      +:+ q "nuclide" +:+ ":{" +:+ q "packageType" +:+ ":" +:+ q "Node" +:+ "}}".

Definition rpc_pkg : PackageJson :=
  {| name := Some "nuclide-rpc"; description := None;
     providedServices := None; consumedServices := None;
     atomConfig := None;
     nuclide := Some {| packageType := Some "Node"; nuclide_config := None |} |}.

Definition sample_fs : Node :=
  Directory
    [ ("lib", Directory [ ("main.js", File "...") ]);
      ("pkg", Directory
         [ ("README.md", File "features");
           ("nuclide-debugger", Directory [ ("package.json", File debugger_src) ]);
           ("nuclide-rpc", Directory [ ("package.json", File rpc_src) ]);
           ("sample-hello", Directory [ ("package.json", File hello_src) ]) ]);
      ("modules", Directory [ ("atom-ide-ui", Directory [ ("pkg", Directory []) ]) ]) ].

Definition sample_parse (src : string) : Outcome PackageJson :=
  if String.eqb src debugger_src then Return debugger_pkg
  else if String.eqb src hello_src then Return hello_pkg
  else if String.eqb src rpc_src then Return rpc_pkg
  else Throw SyntaxError.

Definition sample_features : Obj Feature :=
  [ ("nuclide-debugger",
     {| pkg := debugger_pkg; dirname := ["pkg"; "nuclide-debugger"];
        useKeyPath := "nuclide.use.nuclide-debugger" |});
    ("sample-hello",
     {| pkg := hello_pkg; dirname := ["pkg"; "sample-hello"];
        useKeyPath := "nuclide.use.sample-hello" |}) ].

(** A checkout whose one feature is named 'use' and declares a config. *)
Definition use_src : string :=
  "{" +:+ q "name" +:+ ":" +:+ q "use" +:+ ","
      +:+ q "nuclide" +:+ ":{" +:+ q "packageType" +:+ ":" +:+ q "Atom" +:+ ","
      +:+ q "config" +:+ ":{" +:+ q "verbose" +:+ ":{"
      +:+ q "type" +:+ ":" +:+ q "boolean" +:+ "," +:+ q "default" +:+ ":false}}}}".

Definition use_pkg : PackageJson :=
  {| name := Some "use"; description := None;
     providedServices := None; consumedServices := None;
     atomConfig := None;
     nuclide := Some {| packageType := Some "Atom";
                        nuclide_config :=
                          Some [ ("verbose",
                                  [ ("type", JStr "boolean");
                                    ("default", JBool false) ]) ] |} |}.


Definition use_parse (src : string) : Outcome PackageJson :=
  if String.eqb src use_src then Return use_pkg else Throw SyntaxError.


(** A small editor to run the loader against: it hands out consecutive
    handles, knows which packages are loaded and which settings are set, and
    fails to deactivate the packages listed in [broken]. *)
Record Editor := mkEditor {
  nextHandle : nat;
  loaded : list string;
  settings : Obj Json;
  broken : list string
}.

Definition newHandle (a : Atom Editor) : Outcome Disposable * Atom Editor :=
  (Return (nextHandle (internals a)),
   {| menu_template := menu_template a;
      internals := {| nextHandle := S (nextHandle (internals a));
                      loaded := loaded (internals a);
                      settings := settings (internals a);
                      broken := broken (internals a) |} |}).

Definition sample_host : Host Editor :=
  {| installErrorReporter := newHandle;
     packages_getLoadedPackage := fun name a =>
       (Return (if bool_decide (name ∈ loaded (internals a))
                then Some (mkPackage ("defer:" +:+ name)) else None), a);
     packages_activatePackage := fun dirname a => (Return tt, a);
     packages_deactivatePackage := fun name suppressSerialization a =>
       if bool_decide (name ∈ broken (internals a))
       then (Throw (mkError None "service already disconnected"), a)
       else (Return tt, a);
     localStorage_removeItem := fun key a => (Return tt, a);
     menu_add := fun items a =>
       newHandle {| menu_template := menu_template a ++ items;
                    internals := internals a |};
     menu_update := fun a => (Return tt, a);
     config_get := fun keyPath a =>
       (Return (Obj.get keyPath (settings (internals a))), a);
     config_onDidChange := fun keyPath callback a => newHandle a;
     featureConfig_get := fun key a =>
       (Return (Obj.get ("nuclide." +:+ key) (settings (internals a))), a);
     remote_BrowserWindow_getAllWindows := fun a =>
       (Return [mkBrowserWindow 1; mkBrowserWindow 2], a);
     remote_getCurrentWindow := fun a => (Return (mkBrowserWindow 1), a);
     atomPackageDepsInstall := fun name promptUser a => (Return tt, a);
     Disposable_dispose := fun d a => (Return tt, a);
     CompositeDisposable_dispose := fun ds a => (Return tt, a) |}.

Definition menuItem (label : string) (role : option string) : MenuItem :=
  {| label := Some label; role := role; enabled := None; submenu := [] |}.

Definition sample_menu : list MenuItem :=
  [ menuItem "File" None; menuItem "Edit" None;
    menuItem "Window" (Some "window"); menuItem "Help" (Some "help") ].

(** The state when the module has been loaded: the error reporter is
    installed (handle 0), nothing is activated yet. *)
Definition sample_state : State Editor :=
  {| errorReporterDisposable := Some 0%nat;
     disposables := None;
     atom := {| menu_template := sample_menu;
                internals := {| nextHandle := 1;
                                loaded := ["nuclide"; "nuclide-debugger"; "sample-hello"];
                                settings := [ ("nuclide.use.nuclide-debugger", JBool true) ];
                                broken := ["nuclide-debugger"] |} |};
     trace := [] |}.

(** The same editor once [activate] has run. *)
Definition sample_activated : State Editor :=
  snd (activate sample_host "0.7.234" sample_features sample_state).

(** A checkout whose pkg directory holds a file without a period in its
    name and a directory whose package.json is itself a directory. *)
Definition stray_fs : Node :=
  Directory
    [ ("lib", Directory [ ("main.js", File "...") ]);
      ("pkg", Directory
         [ ("LICENSE", File "BSD");
           ("odd", Directory [ ("package.json", Directory []) ]);
           ("empty", Directory []) ]);
      ("modules", Directory [ ("atom-ide-ui", Directory [ ("pkg", Directory []) ]) ]) ].

(** A checkout in which a package of atom-ide-ui has the name of a feature
    of the pkg directory. *)
Definition shadowed_fs : Node :=
  Directory
    [ ("lib", Directory [ ("main.js", File "...") ]);
      ("pkg", Directory
         [ ("nuclide-debugger", Directory [ ("package.json", File debugger_src) ]);
           ("sample-hello", Directory [ ("package.json", File hello_src) ]) ]);
      ("modules", Directory
         [ ("atom-ide-ui", Directory
              [ ("pkg", Directory
                   [ ("hello", Directory [ ("package.json", File hello_src) ]) ]) ]) ]) ].

(** A package of atom-ide-ui with neither an [atomConfig] nor a [nuclide]
    section, next to a feature. *)
Definition bare_pkg : PackageJson :=
  {| name := Some "atom-ide-bare"; description := None;
     providedServices := None; consumedServices := None;
     atomConfig := None; nuclide := None |}.

Definition bare_features : Obj Feature :=
  [ ("nuclide-debugger",
     {| pkg := debugger_pkg; dirname := ["pkg"; "nuclide-debugger"];
        useKeyPath := "nuclide.use.nuclide-debugger" |});
    ("atom-ide-bare",
     {| pkg := bare_pkg; dirname := ["modules"; "atom-ide-ui"; "pkg"; "bare"];
        useKeyPath := "nuclide.use.atom-ide-bare" |}) ].

(** A package that describes itself and lists services. *)
Definition services_pkg : PackageJson :=
  {| name := Some "nuclide-hg"; description := Some "Mercurial support";
     providedServices := Some [ ("hg.repository", JObj []); ("hg.blame", JObj []) ];
     consumedServices := Some [ ("status-bar", JObj []) ];
     atomConfig := None;
     nuclide := Some {| packageType := Some "Atom"; nuclide_config := None |} |}.

(** The state of an editor that has not loaded the package 'nuclide'. *)
Definition unloaded_state : State Editor :=
  {| errorReporterDisposable := Some 0%nat;
     disposables := None;
     atom := {| menu_template := sample_menu;
                internals := {| nextHandle := 1;
                                loaded := [];
                                settings := [];
                                broken := [] |} |};
     trace := [] |}.

(** The editor once [activate] and then [deactivate] have run. *)
Definition sample_deactivated : State Editor :=
  snd (deactivate sample_host sample_features sample_activated).

(** An editor for the load phase: its state is the user's settings; every
    package is active; serializing the packages listed in [broken] of
    [sample_state] fails. *)
Definition phases_host : LoaderPhases.Host (Obj Json) :=
  {| LoaderPhases.config_get := fun keyPath settings =>
       (Return (Obj.get keyPath settings), settings);
     LoaderPhases.setUseLocalRpc := fun value settings => (Return tt, settings);
     LoaderPhases.packages_loadPackage := fun dirname settings => (Return tt, settings);
     LoaderPhases.packages_getActivePackage := fun name settings =>
       (Return (Some (mkPackage ("defer:" +:+ name))), settings);
     LoaderPhases.packages_serializePackage := fun pack settings =>
       if String.eqb (getCanDeferMainModuleRequireStorageKey pack)
                     "defer:nuclide-debugger"
       then (Throw (mkError None "cannot serialize"), settings)
       else (Return tt, settings);
     LoaderPhases.Disposable_dispose := fun d settings => (Return tt, settings) |}.

(** The user has switched the sample feature on and set nothing else;
    the subscription to [onDidLoadPackage] has handle 4. *)
Definition phases_state : LoaderPhases.State (Obj Json) :=
  {| LoaderPhases.initialLoadDisposable := Some 4%nat;
     LoaderPhases.atom := [ ("nuclide.use.sample-hello", JBool true);
                            ("nuclide.useLocalRpc", JStr "true") ];
     LoaderPhases.trace := [] |}.

(** The schema built for the sample features. *)
Definition sample_config : Obj Json :=
  match buildConfig sample_features with
  | Return config => config
  | Throw _ => []
  end.

End Examples.

(** * Properties *)

(** ** Strings *)

(** [needle] occurs in [s]. *)
Definition occursIn (needle s : string) : Prop :=
  exists before after, s = before +:+ needle +:+ after.

Lemma prefix_app (p s : string) :
  String.prefix p s = true <-> exists t, s = p +:+ t.
Proof.
  revert s. induction p as [|c p IH]; intros s.
  - split; [intros _; exists s; reflexivity | intros _; destruct s; reflexivity].
  - destruct s as [|d s]; simpl.
    + split; [discriminate | intros [t Ht]; discriminate].
    + destruct (Ascii.ascii_dec c d) as [->|Hne].
      * rewrite IH. split; intros [t Ht]; exists t.
        -- now rewrite Ht.
        -- now injection Ht.
      * split; [discriminate | intros [t Ht]; injection Ht; intros; congruence].
Qed.

Lemma indexOf_from_found (needle s : string) (i : Z) :
  0 <= i -> (indexOf_from needle s i <> -1 <-> occursIn needle s).
Proof.
  revert i. induction s as [|c s IH]; intros i Hi; cbn [indexOf_from].
  - destruct (String.prefix needle EmptyString) eqn:Hp.
    + split; [intros _ | intros _; lia].
      apply prefix_app in Hp as [t Ht]. exists EmptyString, t. exact Ht.
    + split; [congruence | intros (before & after & H)].
      destruct before; [|discriminate]. simpl in H.
      assert (String.prefix needle EmptyString = true) by (apply prefix_app; eauto).
      congruence.
  - destruct (String.prefix needle (String c s)) eqn:Hp.
    + split; [intros _ | intros _; lia].
      apply prefix_app in Hp as [t Ht]. exists EmptyString, t. exact Ht.
    + rewrite IH by lia. split; intros (before & after & H).
      * exists (String c before), after. simpl. now rewrite H.
      * destruct before as [|d before]; simpl in H.
        -- assert (String.prefix needle (String c s) = true)
             by (apply prefix_app; eauto).
           congruence.
        -- injection H as _ H. exists before, after. exact H.
Qed.

Lemma indexOf_found (s needle : string) :
  indexOf s needle <> -1 <-> occursIn needle s.
Proof. apply indexOf_from_found. lia. Qed.

Lemma indexOf_eqb (s needle : string) :
  (indexOf s needle =? -1) = false <-> occursIn needle s.
Proof. rewrite <- indexOf_found, Z.eqb_neq. reflexivity. Qed.

(** ** Arrays *)

Lemma findIndex_from_spec {A} (p : A -> bool) (l : list A) (i : Z) :
  (Forall (fun x => p x = false) l /\ findIndex_from p l i = -1)
  \/ exists l1 x l2,
       l = l1 ++ x :: l2
       /\ Forall (fun y => p y = false) l1
       /\ p x = true
       /\ findIndex_from p l i = i + Z.of_nat (List.length l1).
Proof.
  revert i. induction l as [|x l IH]; intros i; simpl.
  - left. split; [constructor | reflexivity].
  - destruct (p x) eqn:Hx.
    + right. exists [], x, l. repeat split; [constructor | assumption | simpl; lia].
    + destruct (IH (i + 1)) as [[Hall Hnone]|(l1 & y & l2 & -> & Hall & Hy & Hi)].
      * left. split; [now constructor | assumption].
      * right. exists (x :: l1), y, l2.
        repeat split; [now constructor | assumption |].
        rewrite Hi. simpl List.length. lia.
Qed.

Lemma findIndex_none {A} (l : list A) (p : A -> bool) :
  Forall (fun x => p x = false) l -> findIndex l p = -1.
Proof.
  intros Hall. unfold findIndex.
  destruct (findIndex_from_spec p l 0) as [[_ H]|(l1 & x & l2 & -> & _ & Hx & _)]; [exact H|].
  apply Forall_app in Hall as [_ Hall]. apply Forall_cons in Hall as [Hx' _]. congruence.
Qed.




Lemma splice_nat {A} (l : list A) (n k : nat) (items : list A) :
  (n <= List.length l)%nat -> (k <= List.length l - n)%nat ->
  splice l (Z.of_nat n) (Z.of_nat k) items
  = (take k (drop n l), take n l ++ items ++ drop (n + k) l).
Proof.
  intros Hn Hk. unfold splice. cbv zeta.
  destruct (Z.ltb_spec (Z.of_nat n) 0) as [?|_]; [lia|].
  replace (Z.to_nat (Z.min (Z.of_nat n) (Z.of_nat (List.length l)))) with n by lia.
  replace (Z.to_nat (Z.min (Z.max (Z.of_nat k) 0) (Z.of_nat (List.length l) - _)))
    with k by lia.
  reflexivity.
Qed.


Lemma splice_insert {A} (l : list A) (k : nat) (x : A) :
  (k <= List.length l)%nat ->
  snd (splice l (Z.of_nat k) 0 [x]) = take k l ++ x :: drop k l.
Proof.
  intros Hk. rewrite (splice_nat _ _ 0) by lia. simpl.
  now rewrite Nat.add_0_r.
Qed.

(** ** ATDeviceStopPackageProvider.js *)

Module ProviderProps.
Import Provider.

(** C1: [run(host, device, proc)] is the one call
    [rpcFactory(host).killProcess(device, proc.name)]: it returns what that
    call returns, whatever the service does; it depends on the process only
    through its name, not its pid; and a remote side that records its calls
    has received exactly that one call once [run] is done. *)
Theorem run_delegates_to_killProcess :
  forall (R : Type) (type : string) (rpcFactory : NuclideUri -> @AdbService R)
         (host : NuclideUri) (device : string) (proc : Process),
    run (constructor type rpcFactory) host device proc
      = killProcess (rpcFactory host) device (name proc)
    /\ (forall pid', run (constructor type rpcFactory) host device
                       (mkProcess pid' (name proc))
                     = run (constructor type rpcFactory) host device proc)
    /\ (forall log, run (constructor type recordingFactory) host device proc log
                    = (Return tt, log ++ [mkRpcCall host device (name proc)])).
Proof.
  intros. repeat split.
Qed.

(** C8: whatever the constructor was given, [getName()] is 'Stop package' and
    [getTaskType()] is 'STOP_PACKAGE'; [getType()] is the type string given
    at construction. *)
Theorem provider_constant_getters :
  forall (R : Type) (type : string) (rpcFactory : NuclideUri -> @AdbService R),
    getName (constructor type rpcFactory) = "Stop package"
    /\ getTaskType (constructor type rpcFactory) = "STOP_PACKAGE"
    /\ getType (constructor type rpcFactory) = type.
Proof.
  intros. repeat split.
Qed.

(** C9: [isSupported] is true of every process, and [getSupportedPIDs]
    resolves, without touching the remote side, to the set whose members are
    exactly the pids of the processes given. *)
Theorem provider_supports_every_process :
  forall (R : Type) (this : @ATDeviceStopPackageProvider R)
         (host : NuclideUri) (device : string) (procs : list Process) (r : R),
    (forall proc, isSupported this proc = true)
    /\ exists pids : gset Z,
         getSupportedPIDs this host device procs r = (Return pids, r)
         /\ forall n : Z, n ∈ pids <-> exists proc, proc ∈ procs /\ pid proc = n.
Proof.
  intros. split; [reflexivity|].
  exists (list_to_set (map pid procs)). split; [reflexivity|].
  intros n. rewrite elem_of_list_to_set, list_elem_of_fmap.
  split; intros (proc & H1 & H2); exists proc; auto.
Qed.

Lemma size_difference_le (x : Z) (l : list Z) :
  (size (list_to_set l ∖ {[x]} : gset Z) <= size (list_to_set l : gset Z))%nat.
Proof. apply subseteq_size, subseteq_difference_l. reflexivity. Qed.

Lemma size_list_to_set_le (l : list Z) :
  (size (list_to_set l : gset Z) <= List.length l)%nat.
Proof.
  induction l as [|x l IH].
  - rewrite list_to_set_nil, size_empty. reflexivity.
  - rewrite list_to_set_cons, size_union_alt, size_singleton.
    pose proof (size_difference_le x l). simpl. lia.
Qed.

(** X1: The set that [getSupportedPIDs] resolves to is empty for no process, and
    never has more members than there are processes: processes that share a
    pid count once, so it has as many members as processes exactly when the
    pids differ from each other. *)
Theorem getSupportedPIDs_counts_each_pid_once :
  forall (R : Type) (this : @ATDeviceStopPackageProvider R)
         (host : NuclideUri) (device : string) (procs : list Process) (r : R),
    exists pids : gset Z,
      getSupportedPIDs this host device procs r = (Return pids, r)
      /\ (procs = [] -> pids = ∅)
      /\ (size pids <= List.length procs)%nat
      /\ (size pids = List.length procs <-> NoDup (map pid procs)).
Proof.
  intros R this host device procs r.
  exists (list_to_set (map pid procs)). split; [reflexivity|]. split; [|split].
  - now intros ->.
  - rewrite <- (length_map pid procs). apply size_list_to_set_le.
  - rewrite <- (length_map pid procs). generalize (map pid procs). clear.
    intros l. split; [|apply size_list_to_set].
    induction l as [|x l IH]; [constructor|].
    rewrite list_to_set_cons, size_union_alt, size_singleton. simpl. intros Hsize.
    pose proof (size_list_to_set_le l) as Hle.
    pose proof (size_difference_le x l) as Hsub.
    assert (Hx : x ∉ l).
    { intros Hin.
      assert (Hlt : (size (list_to_set l ∖ {[x]} : gset Z)
                     < size (list_to_set l : gset Z))%nat).
      { apply subset_size, subset_difference_elem_of.
        now apply elem_of_list_to_set. }
      lia. }
    apply NoDup_cons. split; [exact Hx|]. apply IH.
    assert (Heq : list_to_set l ∖ {[x]} = (list_to_set l : gset Z)).
    { apply set_eq. intros y.
      rewrite elem_of_difference, elem_of_singleton, elem_of_list_to_set.
      split; [tauto|]. intros Hy. split; [exact Hy | congruence]. }
    rewrite Heq in Hsize. lia.
Qed.

End ProviderProps.

(** ** Objects *)

Module ObjProps.

Lemma get_set_eq {V} (k : string) (v : V) (o : Obj V) :
  Obj.get k (Obj.set k v o) = Some v.
Proof.
  induction o as [|[k' v'] o IH]; simpl.
  - now rewrite String.eqb_refl.
  - destruct (String.eqb k k') eqn:E; simpl; rewrite ?E, ?String.eqb_refl; auto.
Qed.

Lemma get_set_ne {V} (k k' : string) (v : V) (o : Obj V) :
  k <> k' -> Obj.get k' (Obj.set k v o) = Obj.get k' o.
Proof.
  intros Hne. induction o as [|[k0 v0] o IH]; simpl.
  - apply String.eqb_neq in Hne. rewrite String.eqb_sym in Hne. now rewrite Hne.
  - destruct (String.eqb k k0) eqn:E; simpl.
    + apply String.eqb_eq in E. subst k0.
      destruct (String.eqb k' k) eqn:E'; [|reflexivity].
      apply String.eqb_eq in E'. congruence.
    + now rewrite IH.
Qed.

Lemma get_set {V} (k k' : string) (v : V) (o : Obj V) :
  Obj.get k' (Obj.set k v o) = if String.eqb k k' then Some v else Obj.get k' o.
Proof.
  destruct (String.eqb_spec k k') as [->|Hne].
  - apply get_set_eq.
  - now apply get_set_ne.
Qed.

Lemma get_keys {V} (k : string) (o : Obj V) :
  k ∈ Obj.keys o <-> exists v, Obj.get k o = Some v.
Proof.
  induction o as [|[k' v'] o IH]; simpl.
  - split; [intros H; inversion H | intros [v H]; discriminate].
  - rewrite elem_of_cons, IH. destruct (String.eqb_spec k k') as [->|Hne].
    + split; eauto.
    + split; [intros [?|?]; [congruence | assumption] | auto].
Qed.

Lemma keys_set {V} (k k' : string) (v : V) (o : Obj V) :
  k' ∈ Obj.keys (Obj.set k v o) <-> k' = k \/ k' ∈ Obj.keys o.
Proof.
  rewrite !get_keys, get_set. destruct (String.eqb_spec k k') as [->|Hne].
  - split; eauto.
  - split; [auto | intros [?|?]; [congruence | assumption]].
Qed.

End ObjProps.

(** ** lib/main.js *)

Module LoaderProps.
Import Loader.
Import LoaderCalls.

Section Discovery.

Variable fs : Node.
Variable JSON_parse : string -> Outcome PackageJson.
Variable __dirname : path.

Local Abbreviation FEATURES_DIR := (FEATURES_DIR __dirname).
Local Abbreviation scanFeature := (scanFeature fs JSON_parse __dirname).



End Discovery.

Lemma forEachItem_keys (callback : string -> Outcome (option (string * Feature)))
    (items : list string) (init result : Obj Feature) :
  forEachItem callback items init = Return result ->
  forall key, key ∈ Obj.keys result <->
    key ∈ Obj.keys init
    \/ exists item feature, item ∈ items /\ callback item = Return (Some (key, feature)).
Proof.
  revert init. induction items as [|item items IH]; intros init Hrun key; simpl in Hrun.
  - injection Hrun as <-. split; [auto|].
    intros [H|(item & f & Hin & _)]; [exact H | inversion Hin].
  - destruct (callback item) as [[[k f]|]|e] eqn:Hcb; [| |discriminate].
    + rewrite (IH _ Hrun), ObjProps.keys_set. split.
      * intros [[->|H]|(item' & f' & Hin & H)]; eauto.
        -- right. exists item, f. split; [left|]; auto.
        -- right. exists item', f'. split; [right|]; auto.
      * intros [H|(item' & f' & Hin & H)]; auto.
        apply elem_of_cons in Hin as [->|Hin]; eauto.
        rewrite Hcb in H. injection H as <- <-. auto.
    + rewrite (IH _ Hrun). split.
      * intros [H|(item' & f' & Hin & H)]; eauto.
        right. exists item', f'. split; [right|]; auto.
      * intros [H|(item' & f' & Hin & H)]; auto.
        apply elem_of_cons in Hin as [->|Hin]; eauto. congruence.
Qed.

Lemma forEachItem_wellFormed (callback : string -> Outcome (option (string * Feature)))
    (items : list string) (init result : Obj Feature) :
  (forall item key feature,
      callback item = Return (Some (key, feature)) ->
      useKeyPath feature = "nuclide.use." +:+ key) ->
  wellFormed init ->
  forEachItem callback items init = Return result ->
  wellFormed result.
Proof.
  intros Hcb. revert init. induction items as [|item items IH]; intros init Hinit Hrun;
    simpl in Hrun.
  - now injection Hrun as <-.
  - destruct (callback item) as [[[k f]|]|e] eqn:E; [| |discriminate].
    + eapply IH; [|exact Hrun]. intros name feature.
      rewrite ObjProps.get_set. destruct (String.eqb_spec k name) as [<-|Hne].
      * intros [= <-]. eauto.
      * apply Hinit.
    + eauto.
Qed.

Lemma scanFeature_newFeature (fs : Node)
    (JSON_parse : string -> Outcome PackageJson) (__dirname : path)
    (item key : string) (feature : Feature) :
  scanFeature fs JSON_parse __dirname item = Return (Some (key, feature)) ->
  exists pkg,
    (key, feature) = newFeature pkg (path_join (FEATURES_DIR __dirname) item).
Proof.
  unfold scanFeature.
  destruct (negb (indexOf item "." =? -1)); [discriminate|].
  set (afterStat := (readFileSync fs _ ≫= _)).
  assert (Hafter : afterStat = Return (Some (key, feature)) ->
                   exists pkg,
                     (key, feature)
                     = newFeature pkg (path_join (FEATURES_DIR __dirname) item)).
  { subst afterStat. unfold mbind, Outcome_bind.
    destruct (readFileSync fs _) as [src|]; [|discriminate].
    destruct (indexOf src _ =? -1); [discriminate|].
    destruct (JSON_parse src) as [pkg|]; [|discriminate].
    destruct (match nuclide pkg with Some _ => _ | None => _ end); [|discriminate].
    destruct (invariant _); [|discriminate].
    intros [= <- <-]. eauto. }
  destruct (statSync fs _ ≫= _) as [?|err]; [exact Hafter|].
  destruct (bool_decide _); [discriminate | exact Hafter].
Qed.

Lemma features_wellFormed (fs : Node) (JSON_parse : string -> Outcome PackageJson)
    (__dirname : path) (result : Obj Feature) :
  features fs JSON_parse __dirname = Return result -> wellFormed result.
Proof.
  unfold features, mbind, Outcome_bind.
  destruct (readdirSync fs _) as [items|?]; [|discriminate].
  destruct (forEachItem (scanFeature _ _ _) items []) as [first|?] eqn:Hfirst; [|discriminate].
  destruct (readdirSync fs _) as [items'|?]; [|discriminate].
  apply forEachItem_wellFormed.
  - intros item key feature. unfold scanAtomIdeFeature, mbind, Outcome_bind.
    destruct (readFileSync _ _); [|discriminate].
    destruct (JSON_parse _); [|discriminate].
    intros [= <- <-]. reflexivity.
  - revert Hfirst. apply forEachItem_wellFormed.
    + intros item key feature H.
      apply scanFeature_newFeature in H as [pkg [= -> ->]]. reflexivity.
    + intros name feature. discriminate.
Qed.

Example sample_features_discovered :
  features Examples.sample_fs Examples.sample_parse ["lib"]
    = Return Examples.sample_features.
Proof. vm_compute. reflexivity. Qed.


(** *** Discovery: the atom-ide-ui packages, errors, and precedence *)

Section DiscoveryMore.

Variable fs : Node.
Variable JSON_parse : string -> Outcome PackageJson.
Variable __dirname : path.

Local Abbreviation FEATURES_DIR := (FEATURES_DIR __dirname).
Local Abbreviation ATOM_IDE_DIR := (ATOM_IDE_DIR __dirname).
Local Abbreviation scanFeature := (scanFeature fs JSON_parse __dirname).
Local Abbreviation scanAtomIdeFeature := (scanAtomIdeFeature fs JSON_parse __dirname).


(** X3: What the scan of the pkg directory does with an entry it cannot read.
    An entry with a period in its name is skipped without a look at the
    disk.  Otherwise, when [item]/package.json does not exist the entry is
    skipped; any other error of [statSync] is swallowed by the [catch], but
    [readFileSync] then meets it again and discovery throws: so for an entry
    that is a file (ENOTDIR), and for a package.json that is a directory,
    where the failed [invariant] is swallowed and the read throws EISDIR. *)
Theorem scanFeature_unreadable_entries :
  forall (item : string),
    let filename := FEATURES_DIR ++ [item; "package.json"] in
    (occursIn "." item -> scanFeature item = Return None)
    /\ (~ occursIn "." item ->
        (forall e, resolve fs filename = Throw e ->
                   scanFeature item
                   = if bool_decide (err_code e = Some "ENOENT")
                     then Return None else Throw e)
        /\ (forall entries, resolve fs filename = Return (Directory entries) ->
                            scanFeature item = Throw EISDIR)).
Proof.
  intros item filename. unfold Loader.scanFeature, path_join.
  rewrite <- (app_assoc _ [item] ["package.json"]). simpl app. fold filename.
  split.
  - intros Hdot. apply indexOf_eqb in Hdot. now rewrite Hdot.
  - intros Hnodot.
    assert (Hdot : (indexOf item "." =? -1) = true).
    { destruct (indexOf item "." =? -1) eqn:E; [reflexivity|].
      apply indexOf_eqb in E. contradiction. }
    rewrite Hdot. simpl negb. cbv iota. split.
    + intros e Hres. unfold statSync, readFileSync, mbind, Outcome_bind.
      rewrite Hres. now destruct (bool_decide _).
    + intros entries Hres. unfold statSync, readFileSync, mbind, Outcome_bind.
      rewrite Hres. reflexivity.
Qed.

(** X4: A package.json is parsed only if its text contains ["Atom"] (with the
    quotes).  One that does not is skipped whatever else it holds, also if it
    is not JSON at all; one that does and cannot be parsed makes discovery
    throw the error of the parser. *)
Theorem scanFeature_parses_only_Atom_candidates :
  forall (item src : string),
    ~ occursIn "." item ->
    resolve fs (FEATURES_DIR ++ [item; "package.json"]) = Return (File src) ->
    (~ occursIn (dq +:+ "Atom" +:+ dq) src -> scanFeature item = Return None)
    /\ (occursIn (dq +:+ "Atom" +:+ dq) src ->
        forall e, JSON_parse src = Throw e -> scanFeature item = Throw e).
Proof.
  intros item src Hnodot Hres. unfold Loader.scanFeature, path_join.
  rewrite <- (app_assoc _ [item] ["package.json"]). simpl app.
  assert (Hdot : (indexOf item "." =? -1) = true).
  { destruct (indexOf item "." =? -1) eqn:E; [reflexivity|].
    apply indexOf_eqb in E. contradiction. }
  rewrite Hdot. simpl negb. cbv iota.
  unfold statSync, readFileSync, mbind, Outcome_bind. rewrite Hres. simpl.
  split.
  - intros Hno. destruct (indexOf src _ =? -1) eqn:E; [reflexivity|].
    apply indexOf_eqb in E. contradiction.
  - intros Hyes e Hparse. apply indexOf_eqb in Hyes. rewrite Hyes, Hparse.
    reflexivity.
Qed.

End DiscoveryMore.

Lemma scanFeature_parses_only_Atom_candidates_witness :
  scanFeature Examples.sample_fs Examples.use_parse ["lib"] "nuclide-rpc" = Return None
  /\ scanFeature Examples.sample_fs Examples.use_parse ["lib"] "nuclide-debugger"
     = Throw Examples.SyntaxError.
Proof.
  assert (Hnodot : forall item, (indexOf item "." =? -1) = true -> ~ occursIn "." item).
  { intros item H Hocc. apply indexOf_eqb in Hocc. congruence. }
  split.
  - destruct (scanFeature_parses_only_Atom_candidates Examples.sample_fs
                Examples.use_parse ["lib"] "nuclide-rpc" Examples.rpc_src
                (Hnodot "nuclide-rpc" eq_refl) eq_refl) as [Hskip _].
    apply Hskip. intros Hocc. apply indexOf_eqb in Hocc. discriminate.
  - destruct (scanFeature_parses_only_Atom_candidates Examples.sample_fs
                Examples.use_parse ["lib"] "nuclide-debugger" Examples.debugger_src
                (Hnodot "nuclide-debugger" eq_refl) eq_refl) as [_ Hthrow].
    apply Hthrow; [|reflexivity]. apply indexOf_eqb. reflexivity.
Defined.


Lemma scanFeature_unreadable_entries_witness :
  scanFeature Examples.stray_fs Examples.sample_parse ["lib"] "README.md" = Return None
  /\ scanFeature Examples.stray_fs Examples.sample_parse ["lib"] "empty" = Return None
  /\ scanFeature Examples.stray_fs Examples.sample_parse ["lib"] "LICENSE" = Throw ENOTDIR
  /\ scanFeature Examples.stray_fs Examples.sample_parse ["lib"] "odd" = Throw EISDIR.
Proof.
  assert (Hnodot : forall item, (indexOf item "." =? -1) = true -> ~ occursIn "." item).
  { intros item H Hocc. apply indexOf_eqb in Hocc. congruence. }
  split; [|split; [|split]].
  - apply (scanFeature_unreadable_entries Examples.stray_fs Examples.sample_parse
             ["lib"] "README.md").
    apply indexOf_eqb. reflexivity.
  - destruct (scanFeature_unreadable_entries Examples.stray_fs Examples.sample_parse
                ["lib"] "empty") as [_ H].
    destruct (H (Hnodot "empty" eq_refl)) as [He _]. exact (He ENOENT eq_refl).
  - destruct (scanFeature_unreadable_entries Examples.stray_fs Examples.sample_parse
                ["lib"] "LICENSE") as [_ H].
    destruct (H (Hnodot "LICENSE" eq_refl)) as [He _]. exact (He ENOTDIR eq_refl).
  - destruct (scanFeature_unreadable_entries Examples.stray_fs Examples.sample_parse
                ["lib"] "odd") as [_ H].
    destruct (H (Hnodot "odd" eq_refl)) as [_ Hd]. exact (Hd [] eq_refl).
Defined.

Lemma forEachItem_get (callback : string -> Outcome (option (string * Feature)))
    (items : list string) (init result : Obj Feature) :
  forEachItem callback items init = Return result ->
  forall key feature,
    Obj.get key result = Some feature <->
      LastRegistered callback items key feature
      \/ (NeverRegistered callback items key /\ Obj.get key init = Some feature).
Proof.
  unfold LastRegistered, NeverRegistered.
  revert init. induction items as [|item items IH]; intros init Hrun key feature;
    simpl in Hrun.
  - injection Hrun as <-. split.
    + intros H. right. split; [constructor | exact H].
    + intros [(before & i & after & H & _)|[_ H]]; [|exact H].
      now destruct before.
  - destruct (callback item) as [[[k f]|]|e] eqn:Hcb; [| |discriminate].
    + rewrite (IH _ Hrun). split.
      * intros [(before & i & after & -> & Hi & Hafter)|[Hnever Hget]].
        -- left. exists (item :: before), i, after. auto.
        -- rewrite ObjProps.get_set in Hget.
           destruct (String.eqb_spec k key) as [->|Hne].
           ++ injection Hget as ->. left. exists [], item, items. auto.
           ++ right. split; [|exact Hget]. constructor; [|exact Hnever].
              intros f'. rewrite Hcb. congruence.
      * intros [(before & i & after & Heq & Hi & Hafter)|[Hnever Hget]].
        -- destruct before as [|x before]; simpl in Heq; injection Heq as <- ->.
           ++ rewrite Hcb in Hi. injection Hi as -> ->. right.
              split; [exact Hafter | apply ObjProps.get_set_eq].
           ++ left. exists before, i, after. auto.
        -- apply Forall_cons in Hnever as [Hitem Hnever]. right.
           split; [exact Hnever|]. rewrite ObjProps.get_set.
           destruct (String.eqb_spec k key) as [->|Hne]; [|exact Hget].
           exfalso. apply (Hitem f). exact Hcb.
    + rewrite (IH _ Hrun). split.
      * intros [(before & i & after & -> & Hi & Hafter)|[Hnever Hget]].
        -- left. exists (item :: before), i, after. auto.
        -- right. split; [|exact Hget]. constructor; [|exact Hnever].
           intros f'. rewrite Hcb. discriminate.
      * intros [(before & i & after & Heq & Hi & Hafter)|[Hnever Hget]].
        -- destruct before as [|x before]; simpl in Heq; injection Heq as <- ->.
           ++ congruence.
           ++ left. exists before, i, after. auto.
        -- apply Forall_cons in Hnever as [_ Hnever]. auto.
Qed.

(** X5: When discovery returns, both directories were listed, and the feature
    found under a name is the one added for the last entry of
    modules/atom-ide-ui/pkg whose package has that name; only if there is
    none, the one added for the last such entry of pkg.  A package of
    atom-ide-ui thus replaces a feature of the same name. *)
Theorem atom_ide_features_take_precedence :
  forall (fs : Node) (JSON_parse : string -> Outcome PackageJson)
         (__dirname : path) (result : Obj Feature),
    features fs JSON_parse __dirname = Return result ->
    exists items items',
      readdirSync fs (FEATURES_DIR __dirname) = Return items
      /\ readdirSync fs (ATOM_IDE_DIR __dirname) = Return items'
      /\ forall key feature,
           Obj.get key result = Some feature <->
             LastRegistered (scanAtomIdeFeature fs JSON_parse __dirname)
                            items' key feature
             \/ (NeverRegistered (scanAtomIdeFeature fs JSON_parse __dirname)
                                 items' key
                 /\ LastRegistered (scanFeature fs JSON_parse __dirname)
                                   items key feature).
Proof.
  intros fs JSON_parse __dirname result. unfold features, mbind, Outcome_bind.
  destruct (readdirSync fs (FEATURES_DIR __dirname)) as [items|?]; [|discriminate].
  destruct (forEachItem (scanFeature _ _ _) items []) as [first|?] eqn:Hfirst;
    [|discriminate].
  destruct (readdirSync fs (ATOM_IDE_DIR __dirname)) as [items'|?]; [|discriminate].
  intros Hsecond. exists items, items'. split; [reflexivity|]. split; [reflexivity|].
  intros key feature. rewrite (forEachItem_get _ _ _ _ Hsecond).
  rewrite (forEachItem_get _ _ _ _ Hfirst). simpl. split.
  - intros [H|[Hnever [H|[_ H]]]]; [auto | auto | discriminate].
  - intros [H|[Hnever H]]; auto.
Qed.

Lemma atom_ide_features_take_precedence_witness :
  exists result,
    features Examples.shadowed_fs Examples.sample_parse ["lib"] = Return result
    /\ (Obj.get "sample-hello" result ≫= fun feature => Some (dirname feature))
       = Some ["modules"; "atom-ide-ui"; "pkg"; "hello"]
    /\ exists items items',
         readdirSync Examples.shadowed_fs (FEATURES_DIR ["lib"]) = Return items
         /\ readdirSync Examples.shadowed_fs (ATOM_IDE_DIR ["lib"]) = Return items'
         /\ forall key feature,
              Obj.get key result = Some feature <->
                LastRegistered (scanAtomIdeFeature Examples.shadowed_fs
                                  Examples.sample_parse ["lib"]) items' key feature
                \/ (NeverRegistered (scanAtomIdeFeature Examples.shadowed_fs
                                       Examples.sample_parse ["lib"]) items' key
                    /\ LastRegistered (scanFeature Examples.shadowed_fs
                                         Examples.sample_parse ["lib"])
                                      items key feature).
Proof.
  eexists. split; [vm_compute; reflexivity|]. split; [reflexivity|].
  apply (atom_ide_features_take_precedence Examples.shadowed_fs
           Examples.sample_parse ["lib"]).
  vm_compute. reflexivity.
Defined.

Lemma keys_set_NoDup {V} (k : string) (v : V) (o : Obj V) :
  NoDup (Obj.keys o) -> NoDup (Obj.keys (Obj.set k v o)).
Proof.
  induction o as [|[k' v'] o IH]; simpl; intros Hno.
  - repeat constructor. intros Hin. inversion Hin.
  - apply NoDup_cons in Hno as [Hk' Hno].
    destruct (String.eqb_spec k k') as [->|Hne]; simpl.
    + now apply NoDup_cons.
    + apply NoDup_cons. split; [|auto].
      change (k' ∉ Obj.keys (Obj.set k v o)). rewrite ObjProps.keys_set.
      intros [->|Hin]; [congruence | contradiction].
Qed.

Lemma forEachItem_NoDup (callback : string -> Outcome (option (string * Feature)))
    (items : list string) (init result : Obj Feature) :
  NoDup (Obj.keys init) ->
  forEachItem callback items init = Return result ->
  NoDup (Obj.keys result).
Proof.
  revert init. induction items as [|item items IH]; intros init Hno Hrun;
    simpl in Hrun.
  - now injection Hrun as <-.
  - destruct (callback item) as [[[k f]|]|e]; [| |discriminate].
    + eapply IH; [|exact Hrun]. now apply keys_set_NoDup.
    + eauto.
Qed.

(** X6: What discovery returns is consistent: no name is listed twice, so that
    every loop over the features meets each of them once; and each feature is
    stored under the name of its package ('undefined' if it has none), has
    the key path 'nuclide.use.<name>', and has as its directory an entry of
    pkg or of modules/atom-ide-ui/pkg. *)
Theorem discovered_features_are_consistent :
  forall (fs : Node) (JSON_parse : string -> Outcome PackageJson)
         (__dirname : path) (result : Obj Feature),
    features fs JSON_parse __dirname = Return result ->
    NoDup (Obj.keys result)
    /\ forall key feature,
         Obj.get key result = Some feature ->
         key = String_ (name (pkg feature))
         /\ useKeyPath feature = "nuclide.use." +:+ key
         /\ exists item,
              dirname feature = FEATURES_DIR __dirname ++ [item]
              \/ dirname feature = ATOM_IDE_DIR __dirname ++ [item].
Proof.
  intros fs JSON_parse __dirname result. unfold features, mbind, Outcome_bind.
  destruct (readdirSync fs (FEATURES_DIR __dirname)) as [items|?]; [|discriminate].
  destruct (forEachItem (scanFeature _ _ _) items []) as [first|?] eqn:Hfirst;
    [|discriminate].
  destruct (readdirSync fs (ATOM_IDE_DIR __dirname)) as [items'|?]; [|discriminate].
  intros Hsecond. split.
  - eapply forEachItem_NoDup; [|exact Hsecond].
    eapply forEachItem_NoDup; [|exact Hfirst]. constructor.
  - intros key feature Hget.
    apply (forEachItem_get _ _ _ _ Hsecond) in Hget
      as [(before & item & after & _ & Hitem & _)|[_ Hget]].
    + revert Hitem. unfold scanAtomIdeFeature, mbind, Outcome_bind.
      destruct (readFileSync _ _); [|discriminate].
      destruct (JSON_parse _) as [pkg|]; [|discriminate].
      intros [= <- <-]. simpl. eauto.
    + apply (forEachItem_get _ _ _ _ Hfirst) in Hget
        as [(before & item & after & _ & Hitem & _)|[_ Hget]]; [|discriminate].
      apply scanFeature_newFeature in Hitem as [pkg [= -> ->]]. simpl. eauto.
Qed.

Lemma discovered_features_are_consistent_witness :
  NoDup (Obj.keys Examples.sample_features)
  /\ forall key feature,
       Obj.get key Examples.sample_features = Some feature ->
       key = String_ (name (pkg feature))
       /\ useKeyPath feature = "nuclide.use." +:+ key
       /\ exists item,
            dirname feature = FEATURES_DIR ["lib"] ++ [item]
            \/ dirname feature = ATOM_IDE_DIR ["lib"] ++ [item].
Proof.
  apply (discovered_features_are_consistent Examples.sample_fs Examples.sample_parse
           ["lib"] Examples.sample_features).
  vm_compute. reflexivity.
Defined.

(** *** The settings schema *)

Lemma assignProperty_spec (section key : string) (value : Json) (config : Obj Json) :
  hasProperties section config ->
  exists config',
    assignProperty section key value config = Return config'
    /\ property section key config' = Some value
    /\ (forall k, k <> key -> property section k config' = property section k config)
    /\ (forall s, s <> section -> Obj.get s config' = Obj.get s config)
    /\ (forall f, f <> "properties" -> field section f config' = field section f config)
    /\ hasProperties section config'.
Proof.
  intros (o & ps & Ho & Hps). unfold assignProperty. rewrite Ho, Hps.
  eexists. split; [reflexivity|].
  unfold property, field, hasProperties.
  rewrite !ObjProps.get_set_eq, Ho, Hps. repeat split.
  - intros k Hk. apply ObjProps.get_set_ne. congruence.
  - intros s Hs. apply ObjProps.get_set_ne. congruence.
  - intros f Hf. apply ObjProps.get_set_ne. congruence.
  - do 2 eexists. split; [reflexivity|]. apply ObjProps.get_set_eq.
Qed.

Lemma property_frame (section s key : string) (config config' : Obj Json) :
  Obj.get s config' = Obj.get s config ->
  property s key config' = property s key config
  /\ (forall f, field s f config' = field s f config)
  /\ (hasProperties s config -> hasProperties s config').
Proof.
  intros H. unfold property, field, hasProperties. rewrite H. auto.
Qed.

Lemma mergeSettings_spec (name : string) (pkgConfig : Obj Setting)
    (keys : list string) (config : Obj Json) :
  hasProperties name config ->
  (forall key, key ∈ keys -> exists setting, Obj.get key pkgConfig = Some setting) ->
  exists config',
    mergeSettings name pkgConfig keys config = Return config'
    /\ (forall key, key ∈ keys ->
          property name key config'
          = (fun setting => JObj (withTitle key setting)) <$> Obj.get key pkgConfig)
    /\ (forall key, key ∉ keys -> property name key config' = property name key config)
    /\ (forall s, s <> name -> Obj.get s config' = Obj.get s config)
    /\ (forall f, f <> "properties" -> field name f config' = field name f config)
    /\ hasProperties name config'.
Proof.
  revert config. induction keys as [|key keys IH]; intros config Hhas Hkeys; simpl.
  - exists config. repeat split; auto. intros key H. inversion H.
  - destruct (Hkeys key) as [setting Hsetting]; [left|]. rewrite Hsetting.
    destruct (assignProperty_spec name key (JObj (withTitle key setting)) config Hhas)
      as (c1 & -> & Hset & Hother & Hframe & Hfield & Hhas1).
    unfold mbind, Outcome_bind.
    destruct (IH c1 Hhas1) as (c2 & -> & Hin & Hout & Hframe2 & Hfield2 & Hhas2).
    { intros k Hk. apply Hkeys. now right. }
    exists c2. split; [reflexivity|]. repeat split; auto.
    + intros k Hk. destruct (decide (k ∈ keys)) as [Hk'|Hk']; [auto|].
      apply elem_of_cons in Hk as [->|Hk]; [|contradiction].
      rewrite (Hout _ Hk'), Hset, Hsetting. reflexivity.
    + intros k Hk. apply not_elem_of_cons in Hk as [Hne Hk].
      rewrite (Hout _ Hk). now apply Hother.
    + intros s Hs. rewrite (Hframe2 _ Hs). now apply Hframe.
    + intros f Hf. rewrite (Hfield2 _ Hf). now apply Hfield.
Qed.

Lemma enableSetting_type_default (name : string) (pkg : PackageJson) :
  Obj.get "type" (enableSetting name pkg) = Some (JStr "boolean")
  /\ Obj.get "default" (enableSetting name pkg)
     = Some (JBool (negb (startsWith name "sample-"))).
Proof.
  unfold enableSetting.
  destruct (providedServices pkg), (consumedServices pkg); split; reflexivity.
Qed.


Section Schema.

Variable features : Obj Feature.

(** What the schema holds for the feature [name] once it has been added. *)
Definition added (name : string) (config : Obj Json) : Prop :=
  forall feature, Obj.get name features = Some feature ->
    property "use" name config = Some (JObj (enableSetting name (pkg feature)))
    /\ forall pkgConfig, pkgConfigOf (pkg feature) = Return (Some pkgConfig) ->
         field name "type" config = Some (JStr "object")
         /\ forall key,
              property name key config
              = (fun setting => JObj (withTitle key setting)) <$> Obj.get key pkgConfig.

Hypothesis declared : forall name feature,
  Obj.get name features = Some feature ->
  exists pkgConfig, pkgConfigOf (pkg feature) = Return pkgConfig.

Hypothesis use_declares_none : forall feature,
  Obj.get "use" features = Some feature ->
  pkgConfigOf (pkg feature) = Return None.

Lemma addFeature_spec (name : string) (config : Obj Json) :
  name ∈ Obj.keys features ->
  hasProperties "use" config ->
  exists config',
    addFeature features name config = Return config'
    /\ hasProperties "use" config'
    /\ added name config'
    /\ forall name', added name' config -> added name' config'.
Proof.
  intros Hin Huse. apply ObjProps.get_keys in Hin as [feature Hfeature].
  unfold addFeature. rewrite Hfeature.
  destruct (assignProperty_spec "use" name (JObj (enableSetting name (pkg feature)))
              config Huse) as (c1 & -> & Hset & Hother & Hframe & _ & Huse1).
  destruct (declared _ _ Hfeature) as [pkgConfig Hdecl].
  unfold mbind, Outcome_bind. rewrite Hdecl.
  (* what the first assignment leaves of the features added before *)
  assert (Hkeep1 : forall name', name' <> name -> added name' config -> added name' c1).
  { intros name' Hne Hadded feature' Hfeature'.
    destruct (Hadded _ Hfeature') as [Hentry Hconfig]. split.
    - rewrite Hother; auto.
    - intros pc Hpc.
      assert (name' <> "use").
      { intros ->. rewrite (use_declares_none _ Hfeature') in Hpc. discriminate. }
      destruct (property_frame name' name' "type" config c1) as (_ & Hf & _); [auto|].
      destruct (Hconfig pc Hpc) as [Htype Hkeys]. split.
      + now rewrite Hf.
      + intros key.
        destruct (property_frame name' name' key config c1) as (Hp & _); [auto|].
        now rewrite Hp. }
  destruct pkgConfig as [pkgConfig|].
  - assert (Hname : name <> "use").
    { intros ->. rewrite (use_declares_none _ Hfeature) in Hdecl. discriminate. }
    set (fresh := JObj [("type", JStr "object"); ("collapsed", JBool true);
                        ("properties", JObj [])]).
    set (c2 := Obj.set name fresh c1).
    assert (Hc2 : Obj.get name c2 = Some fresh) by apply ObjProps.get_set_eq.
    assert (Hframe2 : forall s, s <> name -> Obj.get s c2 = Obj.get s c1).
    { intros s Hs. apply ObjProps.get_set_ne. congruence. }
    destruct (mergeSettings_spec name pkgConfig (Obj.keys pkgConfig) c2)
      as (c3 & -> & Hkeys & Hnokeys & Hframe3 & Hfield3 & _).
    { unfold hasProperties. rewrite Hc2. do 2 eexists. split; reflexivity. }
    { intros key Hkey. now apply ObjProps.get_keys. }
    assert (Hget3 : forall s, s <> name -> Obj.get s c3 = Obj.get s c1).
    { intros s Hs. rewrite Hframe3, Hframe2; auto. }
    assert (Hadded : added name c3).
    { intros feature' Hfeature'. rewrite Hfeature in Hfeature'.
      injection Hfeature' as <-. split.
      - destruct (property_frame "use" "use" name c1 c3) as (-> & _); auto.
      - intros pc Hpc. rewrite Hdecl in Hpc. injection Hpc as <-. split.
        + rewrite Hfield3 by discriminate. unfold field. now rewrite Hc2.
        + intros key. destruct (decide (key ∈ Obj.keys pkgConfig)) as [Hk|Hk].
          * auto.
          * rewrite (Hnokeys _ Hk). unfold property. rewrite Hc2. simpl.
            destruct (Obj.get key pkgConfig) eqn:E; [|reflexivity].
            exfalso. apply Hk, ObjProps.get_keys. eauto. }
    exists c3. split; [reflexivity|]. split; [|split].
    + destruct (property_frame "use" "use" name c1 c3) as (_ & _ & H); auto.
    + exact Hadded.
    + intros name' Hadded'. destruct (decide (name' = name)) as [->|Hne]; [exact Hadded|].
      specialize (Hkeep1 _ Hne Hadded').
      intros feature' Hfeature'. destruct (Hkeep1 _ Hfeature') as [Hentry Hconfig]. split.
      * destruct (property_frame "use" "use" name' c1 c3) as (-> & _); auto.
      * intros pc Hpc. destruct (Hconfig pc Hpc) as [Htype Hprops].
        destruct (property_frame name' name' "type" c1 c3) as (_ & Hf & _); [auto|].
        split; [now rewrite Hf|]. intros key.
        destruct (property_frame name' name' key c1 c3) as (-> & _); auto.
  - assert (Hadded : added name c1).
    { intros feature' Hfeature'. rewrite Hfeature in Hfeature'.
      injection Hfeature' as <-. split; [exact Hset|].
      intros pc Hpc. rewrite Hdecl in Hpc. discriminate. }
    exists c1. split; [reflexivity|]. split; [|split]; auto.
    intros name' Hadded'. destruct (decide (name' = name)) as [->|Hne]; auto.
Qed.

Lemma forEachFeature_spec (names : list string) (config : Obj Json) :
  (forall name, name ∈ names -> name ∈ Obj.keys features) ->
  hasProperties "use" config ->
  exists config',
    forEachFeature features names config = Return config'
    /\ hasProperties "use" config'
    /\ (forall name, name ∈ names -> added name config')
    /\ (forall name, added name config -> added name config').
Proof.
  revert config. induction names as [|name names IH]; intros config Hnames Huse; simpl.
  - exists config. split; [|split; [|split]]; auto. intros name H. inversion H.
  - destruct (addFeature_spec name config) as (c1 & -> & Huse1 & Hadded & Hkeep); auto.
    { apply Hnames. left. }
    unfold mbind, Outcome_bind.
    destruct (IH c1) as (c2 & -> & Huse2 & Hall & Hkeep2); auto.
    { intros n Hn. apply Hnames. now right. }
    exists c2. split; [reflexivity|]. split; [|split]; auto.
    intros n Hn. apply elem_of_cons in Hn as [->|Hn]; auto.
Qed.


End Schema.

Ltac inspect_get H :=
  simpl in H;
  repeat match type of H with
         | (if ?b then _ else _) = _ => destruct b
         end;
  try discriminate H; try (injection H as <-).


Example sample_config_use :
  exists config',
    buildConfig Examples.sample_features = Return config'
    /\ (property "use" "sample-hello" config' ≫= fun setting =>
          match setting with JObj o => Obj.get "default" o | _ => None end)
       = Some (JBool false)
    /\ (property "use" "nuclide-debugger" config' ≫= fun setting =>
          match setting with JObj o => Obj.get "default" o | _ => None end)
       = Some (JBool true)
    /\ property "nuclide-debugger" "showConsole" config'
       = Some (JObj [ ("type", JStr "boolean"); ("default", JBool true);
                      ("title", JStr "showConsole") ]).
Proof. eexists. split; [vm_compute; reflexivity|]. repeat split. Qed.


(** *** The schema: when it is built, and what it leaves alone *)

Lemma append_empty_r (s : string) : s +:+ "" = s.
Proof.
  induction s as [|c s IH]; [reflexivity|].
  change (String c (s +:+ "") = String c s). now rewrite IH.
Qed.

Lemma hasConfigSection_dec (pkg : PackageJson) :
  hasConfigSection pkg \/ ~ hasConfigSection pkg.
Proof.
  unfold hasConfigSection. destruct (atomConfig pkg); [left; left; eauto|].
  destruct (nuclide pkg); [left; right; eauto|].
  right. intros [[? H]|[? H]]; discriminate.
Qed.

Lemma pkgConfigOf_outcome (pkg : PackageJson) :
  (hasConfigSection pkg -> exists pkgConfig, pkgConfigOf pkg = Return pkgConfig)
  /\ (~ hasConfigSection pkg -> pkgConfigOf pkg = Throw TypeError).
Proof.
  unfold hasConfigSection, pkgConfigOf.
  destruct (atomConfig pkg), (nuclide pkg); split; eauto.
  - intros H. exfalso. apply H. left. eauto.
  - intros H. exfalso. apply H. left. eauto.
  - intros H. exfalso. apply H. right. eauto.
  - intros [[? H]|[? H]]; discriminate.
Qed.

Lemma addFeature_outcome (features : Obj Feature) (name : string)
    (feature : Feature) (config : Obj Json) :
  Obj.get name features = Some feature ->
  hasProperties "use" config ->
  match pkgConfigOf (pkg feature) with
  | Throw e => addFeature features name config = Throw e
  | Return pkgConfig =>
      exists config',
        addFeature features name config = Return config'
        /\ hasProperties "use" config'
        /\ forall s, s <> "use" -> s <> name \/ pkgConfig = None ->
                     Obj.get s config' = Obj.get s config
  end.
Proof.
  intros Hfeature Huse. unfold addFeature. rewrite Hfeature.
  destruct (assignProperty_spec "use" name (JObj (enableSetting name (pkg feature)))
              config Huse) as (c1 & -> & _ & _ & Hframe & _ & Huse1).
  unfold mbind, Outcome_bind.
  destruct (pkgConfigOf (pkg feature)) as [[pkgConfig|]|e]; [| |reflexivity].
  - set (fresh := JObj [("type", JStr "object"); ("collapsed", JBool true);
                        ("properties", JObj [])]).
    set (c2 := Obj.set name fresh c1).
    assert (Hc2 : Obj.get name c2 = Some fresh) by apply ObjProps.get_set_eq.
    destruct (mergeSettings_spec name pkgConfig (Obj.keys pkgConfig) c2)
      as (c3 & -> & _ & _ & Hframe3 & _ & Hhas3).
    { unfold hasProperties. rewrite Hc2. do 2 eexists. split; reflexivity. }
    { intros key Hkey. now apply ObjProps.get_keys. }
    assert (Hget3 : forall s, s <> name -> Obj.get s c3 = Obj.get s c1).
    { intros s Hs. rewrite Hframe3 by exact Hs. apply ObjProps.get_set_ne. congruence. }
    exists c3. split; [reflexivity|]. split.
    + destruct (decide (name = "use")) as [->|Hne]; [exact Hhas3|].
      destruct (property_frame "use" "use" name c1 c3) as (_ & _ & H); auto.
    + intros s Hs [Hname|Hnone]; [|discriminate].
      rewrite Hget3 by exact Hname. now apply Hframe.
  - exists c1. split; [reflexivity|]. split; [exact Huse1|].
    intros s Hs _. now apply Hframe.
Qed.

Lemma forEachFeature_outcome (features : Obj Feature) (names : list string)
    (config : Obj Json) :
  (forall name, name ∈ names -> name ∈ Obj.keys features) ->
  hasProperties "use" config ->
  ((forall name feature, name ∈ names -> Obj.get name features = Some feature ->
                         hasConfigSection (pkg feature)) ->
   exists config',
     forEachFeature features names config = Return config'
     /\ forall s, s <> "use" ->
          (forall feature, s ∈ names -> Obj.get s features = Some feature ->
                           pkgConfigOf (pkg feature) = Return None) ->
          Obj.get s config' = Obj.get s config)
  /\ ((exists name feature, name ∈ names /\ Obj.get name features = Some feature
                            /\ ~ hasConfigSection (pkg feature)) ->
      forEachFeature features names config = Throw TypeError).
Proof.
  revert config. induction names as [|name names IH]; intros config Hnames Huse.
  - split.
    + intros _. exists config. split; [reflexivity | auto].
    + intros (name & feature & Hin & _). inversion Hin.
  - assert (Hin : name ∈ Obj.keys features) by (apply Hnames; left).
    apply ObjProps.get_keys in Hin as [feature Hfeature].
    pose proof (addFeature_outcome features name feature config Hfeature Huse) as Hadd.
    destruct (pkgConfigOf_outcome (pkg feature)) as [Hyes Hno].
    simpl. unfold mbind, Outcome_bind. split.
    + intros Hall. destruct (Hyes (Hall _ _ ltac:(left) Hfeature)) as [pkgConfig Hpc].
      rewrite Hpc in Hadd. destruct Hadd as (c1 & -> & Huse1 & Hframe1).
      destruct (IH c1) as [Hreturns _]; [intros n Hn; apply Hnames; now right | exact Huse1|].
      destruct Hreturns as (c2 & -> & Hframe2).
      { intros n f Hn. apply Hall. now right. }
      exists c2. split; [reflexivity|]. intros s Hs Hnone.
      rewrite Hframe2; [apply Hframe1; [exact Hs|] | exact Hs |].
      * destruct (decide (s = name)) as [->|Hne]; [|now left].
        right. specialize (Hnone feature ltac:(left) Hfeature). congruence.
      * intros f Hin. apply Hnone. now right.
    + intros (bad & f & Hin & Hf & Hbad).
      destruct (pkgConfigOf (pkg feature)) as [pkgConfig|e] eqn:Hpc.
      * destruct Hadd as (c1 & -> & Huse1 & _).
        destruct (IH c1) as [_ Hthrows]; [intros n Hn; apply Hnames; now right | exact Huse1|].
        apply Hthrows. apply elem_of_cons in Hin as [->|Hin]; [|eauto].
        rewrite Hfeature in Hf. injection Hf as <-.
        discriminate (Hno Hbad).
      * rewrite Hadd. revert Hpc. unfold pkgConfigOf.
        destruct (atomConfig (pkg feature)), (nuclide (pkg feature)); congruence.
Qed.

(** X7: The schema is built if every feature's package.json has an [atomConfig]
    or a [nuclide] section.  If one has neither (which the scan of pkg rules
    out, not that of atom-ide-ui), reading [pkg.nuclide.config] throws a
    TypeError and the module does not load. *)
Theorem buildConfig_needs_config_section :
  forall features : Obj Feature,
    ((forall name feature, Obj.get name features = Some feature ->
                           hasConfigSection (pkg feature)) ->
     exists config', buildConfig features = Return config')
    /\ (forall name feature, Obj.get name features = Some feature ->
                             ~ hasConfigSection (pkg feature) ->
                             buildConfig features = Throw TypeError).
Proof.
  intros features.
  destruct (forEachFeature_outcome features (Obj.keys features) config)
    as [Hreturns Hthrows]; [auto | do 2 eexists; split; reflexivity|].
  split.
  - intros Hall. destruct Hreturns as (config' & Hrun & _); eauto.
  - intros name feature Hfeature Hbad. apply Hthrows. exists name, feature.
    split; [apply ObjProps.get_keys; eauto | auto].
Qed.

Lemma buildConfig_needs_config_section_witness :
  (exists config', buildConfig Examples.sample_features = Return config')
  /\ buildConfig Examples.bare_features = Throw TypeError.
Proof.
  split.
  - apply (buildConfig_needs_config_section Examples.sample_features).
    intros name feature H. inspect_get H; right; eexists; reflexivity.
  - destruct (buildConfig_needs_config_section Examples.bare_features) as [_ Hthrows].
    apply (Hthrows "atom-ide-bare"
             (mkFeature Examples.bare_pkg ["modules"; "atom-ide-ui"; "pkg"; "bare"]
                "nuclide.use.atom-ide-bare")).
    + reflexivity.
    + intros [[? H]|[? H]]; discriminate.
Defined.

(** X8: Building the schema changes [config.use] and the sections of the
    features that declare a config, nothing else: the settings
    'installRecommendedPackages' and 'useLocalRpc' stay as the literal has
    them (unless a feature of that name declares a config), and no section is
    made for a feature that declares none. *)
Theorem buildConfig_keeps_other_sections :
  forall (features : Obj Feature) (config' : Obj Json) (section : string),
    buildConfig features = Return config' ->
    section <> "use" ->
    (forall feature, Obj.get section features = Some feature ->
                     pkgConfigOf (pkg feature) = Return None) ->
    Obj.get section config' = Obj.get section config.
Proof.
  intros features config' section Hrun Hs Hnone.
  destruct (forEachFeature_outcome features (Obj.keys features) config)
    as [Hreturns Hthrows]; [auto | do 2 eexists; split; reflexivity|].
  destruct Hreturns as (c & Hc & Hframe).
  - intros name feature Hin Hfeature.
    destruct (pkgConfigOf_outcome (pkg feature)) as [_ Hno].
    destruct (hasConfigSection_dec (pkg feature)) as [H|H]; [exact H|].
    exfalso. unfold buildConfig in Hrun. rewrite Hthrows in Hrun; [discriminate|].
    eauto.
  - unfold buildConfig in Hrun. rewrite Hc in Hrun. injection Hrun as <-.
    apply Hframe; auto.
Qed.

Lemma buildConfig_keeps_other_sections_witness :
  exists config',
    buildConfig Examples.sample_features = Return config'
    /\ Obj.get "useLocalRpc" config' = Obj.get "useLocalRpc" config
    /\ Obj.get "sample-hello" config' = None.
Proof.
  eexists. split; [vm_compute; reflexivity|]. split.
  - apply (buildConfig_keeps_other_sections Examples.sample_features).
    + vm_compute. reflexivity.
    + discriminate.
    + intros feature H. inspect_get H.
  - apply (buildConfig_keeps_other_sections Examples.sample_features _ "sample-hello").
    + vm_compute. reflexivity.
    + discriminate.
    + intros feature H. inspect_get H. reflexivity.
Defined.

(** X9: The entry that enables a feature: its four properties in order, its
    title, and its description, which is the package's description (or
    nothing) followed by the names of the services the package provides and
    of those it consumes, in the order of the package.json, for each of the
    two lists that the package has. *)
Theorem enableSetting_title_description :
  forall (name : string) (pkg : PackageJson),
    let provides :=
      match providedServices pkg with
      | Some services =>
          "<br/>**Provides:** _" +:+ join (Obj.keys services) ", " +:+ "_"
      | None => empty
      end in
    let consumes :=
      match consumedServices pkg with
      | Some services =>
          "<br/>**Consumes:** _" +:+ join (Obj.keys services) ", " +:+ "_"
      | None => empty
      end in
    Obj.keys (enableSetting name pkg) = ["title"; "description"; "type"; "default"]
    /\ Obj.get "title" (enableSetting name pkg)
       = Some (JStr ("Enable the " +:+ dq +:+ name +:+ dq +:+ " feature"))
    /\ Obj.get "description" (enableSetting name pkg)
       = Some (JStr ((match description pkg with Some d => d | None => empty end
                      +:+ provides) +:+ consumes)).
Proof.
  intros name pkg. unfold enableSetting.
  destruct (providedServices pkg), (consumedServices pkg); unfold empty; simpl;
    rewrite ?append_empty_r; repeat split.
Qed.

Example sample_enableSetting :
  Obj.get "description" (enableSetting "nuclide-hg" Examples.services_pkg)
  = Some (JStr ("Mercurial support<br/>**Provides:** _hg.repository, hg.blame_"
                +:+ "<br/>**Consumes:** _status-bar_")).
Proof. reflexivity. Qed.

(** *** Deactivation *)

Section Lifecycle.

Context {H : Type}.
Variable host : Host H.

Lemma after_after (s : State H) (a1 a2 : Atom H) (e1 e2 : list Event) :
  after (after s a1 e1) a2 e2 = after s a2 (e1 ++ e2).
Proof. unfold after. simpl. now rewrite app_assoc. Qed.

Lemma after_nil (s : State H) : after s (atom s) [] = s.
Proof. destruct s. unfold after. simpl. now rewrite app_nil_r. Qed.

Lemma call_spec {A} (f : HostCall H A) (event : Outcome A -> Event) (s : State H) :
  call f event s = (fst (f (atom s)), after s (snd (f (atom s))) [event (fst (f (atom s)))]).
Proof. unfold call, after. now destruct (f (atom s)). Qed.

Lemma safeDeactivate_spec (name : string) (suppressSerialization : option bool)
    (s : State H) :
  exists atom' events,
    Attempt name suppressSerialization events
    /\ safeDeactivate host name suppressSerialization s
       = (Return tt, after s atom' events).
Proof.
  unfold safeDeactivate, try_catch, mbind, M_bind. rewrite call_spec.
  destruct (packages_getLoadedPackage H host name (atom s)) as [[[pack|]|err] a1]; simpl.
  - rewrite call_spec. simpl.
    destruct (packages_deactivatePackage H host name suppressSerialization a1)
      as [[[]|err] a2]; simpl.
    + exists a2. eexists. split; [apply (attempt_deactivated _ _ pack)|].
      now rewrite after_after.
    + exists a2. eexists. split; [apply (attempt_deactivate_threw _ _ pack err)|].
      unfold console_error, after. simpl. now rewrite <- !app_assoc.
  - exists a1. eexists. split; [apply attempt_not_loaded|]. reflexivity.
  - exists a1. eexists. split; [apply (attempt_lookup_threw _ _ err)|].
    unfold console_error, after. simpl. now rewrite <- !app_assoc.
Qed.

Lemma forEach_safeDeactivate (names : list string)
    (suppressSerialization : option bool) (s : State H) :
  exists atom' attempts,
    Forall2 (fun name events => Attempt name suppressSerialization events)
            names attempts
    /\ forEach names (fun name => safeDeactivate host name suppressSerialization) s
       = (Return tt, after s atom' (concat attempts)).
Proof.
  revert s. induction names as [|name names IH]; intros s; simpl.
  - exists (atom s), []. split; [constructor|]. simpl. now rewrite after_nil.
  - destruct (safeDeactivate_spec name suppressSerialization s)
      as (a1 & events & Hattempt & Hrun).
    unfold mbind, M_bind. rewrite Hrun.
    destruct (IH (after s a1 events)) as (a2 & attempts & Hall & Hrest).
    exists a2, (events :: attempts). split; [now constructor|].
    rewrite Hrest, after_after. reflexivity.
Qed.

(** C4: from a state in which [disposables] and [errorReporterDisposable] are
    set, as [activate] leaves them, [deactivate] makes one attempt for every
    feature, in order and with serialization suppressed, whatever any of the
    calls throws; each exception is followed by its line on the console.
    After the attempts it calls [disposables.dispose()], and, if that
    returns, [errorReporterDisposable.dispose()]; both variables are then
    null. *)
Theorem deactivate_attempts_every_feature :
  forall (features : Obj Feature) (s : State H)
         (members : list Disposable) (reporter : Disposable),
    disposables s = Some members ->
    errorReporterDisposable s = Some reporter ->
    exists (attempts : list (list Event)) (r1 : Outcome unit)
           (rest : list Event) (r : Outcome unit) (s' : State H),
      deactivate host features s = (r, s')
      /\ Forall2 (fun name events => Attempt name (Some true) events)
                 (Obj.keys features) attempts
      /\ trace s' = trace s ++ concat attempts ++ DisposeAll members r1 :: rest
      /\ match r1 with
         | Return _ =>
             rest = [Dispose reporter r]
             /\ disposables s' = None
             /\ (r = Return tt -> errorReporterDisposable s' = None)
         | Throw err => rest = [] /\ r = Throw err
         end.
Proof.
  intros features s members reporter Hds Hreporter.
  destruct (forEach_safeDeactivate (Obj.keys features) (Some true) s)
    as (a1 & attempts & Hall & Hrun).
  unfold deactivate, mbind, M_bind. rewrite Hrun.
  unfold get_disposables. simpl. rewrite Hds, call_spec. simpl.
  destruct (CompositeDisposable_dispose H host members a1) as [[[]|err] a2]; simpl.
  - rewrite Hreporter, call_spec. simpl.
    destruct (Disposable_dispose H host reporter a2) as [[[]|err] a3]; simpl.
    + exists attempts, (Return tt). do 3 eexists. split; [reflexivity|].
      split; [exact Hall|]. simpl. rewrite <- !app_assoc. auto.
    + exists attempts, (Return tt). do 3 eexists. split; [reflexivity|].
      split; [exact Hall|]. simpl. rewrite <- !app_assoc.
      repeat split. discriminate.
  - exists attempts, (Throw err). do 3 eexists. split; [reflexivity|].
    split; [exact Hall|]. simpl. rewrite <- !app_assoc. auto.
Qed.

End Lifecycle.

(** *** The menu *)


(** Whenever an item has the role 'window' or 'help', the first [splice]
    does remove an item, be there a 'Nuclide' item or not. *)
Lemma moveNuclide_removed (template : list MenuItem) (nuclideIndex : Z) :
  template <> [] -> -1 <= nuclideIndex < Z.of_nat (List.length template) ->
  fst (splice template nuclideIndex 1 []) <> [].
Proof.
  intros Hne Hrange. unfold splice. cbv zeta. simpl fst.
  assert (Hlen : 0 < Z.of_nat (List.length template)).
  { destruct template; [congruence | simpl; lia]. }
  set (start := if nuclideIndex <? 0 then _ else _).
  assert (Hstart : 0 <= start < Z.of_nat (List.length template)).
  { subst start. destruct (Z.ltb_spec nuclideIndex 0); lia. }
  clearbody start.
  replace (Z.to_nat (Z.min (Z.max 1 0) (Z.of_nat (List.length template) - start)))
    with 1%nat by lia.
  intros Hnil.
  assert (Hone : List.length (take 1 (drop (Z.to_nat start) template)) = 1%nat)
    by (rewrite length_take, length_drop; lia).
  rewrite Hnil in Hone. discriminate.
Qed.

Section Menu.

Context {H : Type}.
Variable host : Host H.


End Menu.

(** *** Activation *)

Section Activation.

Context {H : Type}.
Variable host : Host H.
Variable nuclidePackageJson_version : string.
Variable features : Obj Feature.

(** From [s] to [s'] calls were made and disposables were added to
    [disposables], nothing else. *)
Definition grows (s s' : State H) : Prop :=
  (exists events, trace s' = trace s ++ events)
  /\ (forall members, disposables s = Some members ->
        exists more, disposables s' = Some (members ++ more))
  /\ errorReporterDisposable s' = errorReporterDisposable s.

Definition Growing {A} (m : M H A) : Prop :=
  forall s r s', m s = (r, s') -> grows s s'.

Lemma grows_refl (s : State H) : grows s s.
Proof.
  split; [exists []; now rewrite app_nil_r|]. split; [|reflexivity].
  intros members ->. exists []. now rewrite app_nil_r.
Qed.

Lemma grows_trans (s1 s2 s3 : State H) : grows s1 s2 -> grows s2 s3 -> grows s1 s3.
Proof.
  intros ([e1 He1] & Hd1 & Hr1) ([e2 He2] & Hd2 & Hr2). split; [|split].
  - exists (e1 ++ e2). now rewrite He2, He1, app_assoc.
  - intros members Hm. destruct (Hd1 _ Hm) as [m1 Hm1].
    destruct (Hd2 _ Hm1) as [m2 Hm2]. exists (m1 ++ m2). now rewrite Hm2, app_assoc.
  - congruence.
Qed.

Lemma grows_after (s : State H) (atom' : Atom H) (events : list Event) :
  grows s (after s atom' events).
Proof.
  split; [simpl; eauto|]. split; [|reflexivity].
  intros members Hm. simpl. rewrite Hm. exists []. now rewrite app_nil_r.
Qed.

Lemma growing_ret {A} (a : A) : Growing (mret a : M H A).
Proof. intros s r s' [= <- <-]. apply grows_refl. Qed.

Lemma growing_throw {A} (e : JsError) : Growing (throw e : M H A).
Proof. intros s r s' [= <- <-]. apply grows_refl. Qed.

Lemma growing_call {A} (f : HostCall H A) (event : Outcome A -> Event) :
  Growing (call f event).
Proof. intros s r s'. rewrite call_spec. intros [= <- <-]. apply grows_after. Qed.

Lemma growing_bind {A B} (m : M H A) (f : A -> M H B) :
  Growing m -> (forall a, Growing (f a)) -> Growing (m ≫= f).
Proof.
  intros Hm Hf s r s'. unfold mbind, M_bind.
  destruct (m s) as [[a|e] s1] eqn:E.
  - intros Hrun. eapply grows_trans; [eapply Hm | eapply Hf]; eauto.
  - intros [= <- <-]. eapply Hm; eauto.
Qed.

Lemma growing_forEach {A} (l : list A) (callback : A -> M H unit) :
  (forall x, Growing (callback x)) -> Growing (forEach l callback).
Proof.
  intros Hcb. induction l as [|x l IH]; simpl.
  - apply growing_ret.
  - apply growing_bind; auto.
Qed.

Lemma growing_get_disposables : Growing get_disposables.
Proof. intros s r s' [= <- <-]. apply grows_refl. Qed.

Lemma growing_get_template : Growing get_template.
Proof. intros s r s' [= <- <-]. apply grows_refl. Qed.

Lemma growing_set_template (template : list MenuItem) :
  Growing (set_template template).
Proof.
  intros s r s' [= <- <-]. split; [|split]; simpl; [| |reflexivity].
  - exists []. now rewrite app_nil_r.
  - intros members ->. exists []. now rewrite app_nil_r.
Qed.

Lemma growing_disposables_add (d : Disposable) : Growing (disposables_add d).
Proof.
  intros s r s'. unfold disposables_add, mbind, M_bind, get_disposables.
  destruct (disposables s) as [members|] eqn:E.
  - intros [= <- <-]. split; [|split]; simpl; [| |reflexivity].
    + exists []. now rewrite app_nil_r.
    + intros members' Hm. rewrite E in Hm. injection Hm as <-. eauto.
  - intros [= <- <-]. apply grows_refl.
Qed.

Ltac growing :=
  repeat first
    [ apply growing_ret | apply growing_throw | apply growing_call
    | apply growing_get_disposables | apply growing_get_template
    | apply growing_set_template | apply growing_disposables_add
    | apply growing_forEach; intros ?
    | apply growing_bind; [|intros ?]
    | match goal with
      | |- Growing (match ?x with _ => _ end) => destruct x
      end ].

Lemma growing_reorderMenu : Growing (reorderMenu host).
Proof. unfold reorderMenu. growing. Qed.

Lemma bind_Return {A B} (m : M H A) (f : A -> M H B) (s s' : State H) (b : B) :
  (m ≫= f) s = (Return b, s') ->
  exists a s1, m s = (Return a, s1) /\ f a s1 = (Return b, s').
Proof.
  unfold mbind, M_bind. destruct (m s) as [[a|e] s1]; [eauto | discriminate].
Qed.

Lemma forEach_Return {A} (l : list A) (callback : A -> M H unit) (s s' : State H) :
  (forall x, Growing (callback x)) ->
  forEach l callback s = (Return tt, s') ->
  forall x, x ∈ l ->
    exists s1 s2, grows s s1 /\ callback x s1 = (Return tt, s2) /\ grows s2 s'.
Proof.
  intros Hcb. revert s. induction l as [|y l IH]; intros s Hrun x Hx.
  - inversion Hx.
  - simpl in Hrun. apply bind_Return in Hrun as ([] & s1 & Hy & Hrest).
    apply elem_of_cons in Hx as [->|Hx].
    + exists s, s1. split; [apply grows_refl|]. split; [exact Hy|].
      eapply growing_forEach; eauto.
    + destruct (IH _ Hrest _ Hx) as (sa & sb & Hsa & Hrun & Hsb).
      exists sa, sb. split; [|auto]. eapply grows_trans; [eapply Hcb|]; eauto.
Qed.

(** The second loop of [activate]: one watcher per feature. *)
Definition watchFeature (name : string) : M H unit :=
  match Obj.get name features with
  | None => throw TypeError
  | Some feature =>
      watcher ← call (config_onDidChange H host (useKeyPath feature)
                        (FeatureWatcher name feature))
                     (OnDidChange (useKeyPath feature)
                        (FeatureWatcher name feature));
      ds ← get_disposables;
      match ds with
      | None => throw AssertionError
      | Some _ => disposables_add watcher
      end
  end.

Lemma growing_watchFeature (name : string) : Growing (watchFeature name).
Proof. unfold watchFeature. growing. Qed.

Lemma watchFeature_Return (name : string) (feature : Feature) (s s' : State H) :
  Obj.get name features = Some feature ->
  watchFeature name s = (Return tt, s') ->
  exists d members,
    trace s' = trace s ++ [OnDidChange (useKeyPath feature)
                             (FeatureWatcher name feature) (Return d)]
    /\ disposables s' = Some (members ++ [d]).
Proof.
  intros Hget. unfold watchFeature. rewrite Hget.
  unfold mbind, M_bind. rewrite call_spec.
  destruct (config_onDidChange H host _ _ (atom s)) as [[d|e] a1]; simpl;
    [|discriminate].
  unfold get_disposables, disposables_add, mbind, M_bind, get_disposables,
    set_disposables, throw; simpl.
  destruct (disposables s) as [members|] eqn:E; simpl; rewrite ?E; [|discriminate].
  intros [= <-]. exists d, members. simpl. auto.
Qed.

(** A run of [activate] that returns: up to [s0] the error reporter is seen
    to and [disposables] is made; from there on calls are made and
    disposables added, the watchers among them. *)
Lemma activate_Return (s s' : State H) :
  activate host nuclidePackageJson_version features s = (Return tt, s') ->
  exists s0 s1 s2 events reporter,
    trace s0 = trace s ++ events
    /\ errorReporterDisposable s0 = Some reporter
    /\ disposables s0 = Some []
    /\ grows s0 s1
    /\ forEach (Obj.keys features) watchFeature s1 = (Return tt, s2)
    /\ grows s2 s'.
Proof.
  unfold activate. intros Hrun.
  apply bind_Return in Hrun as (reporter & sa & Ha & Hrun).
  unfold get_errorReporterDisposable in Ha. injection Ha as <- <-.
  apply bind_Return in Hrun as ([] & sb & Hb & Hrun).
  assert (Hsb : exists events reporter,
             trace sb = trace s ++ events
             /\ errorReporterDisposable sb = Some reporter).
  { destruct (errorReporterDisposable s) as [reporter|] eqn:E.
    - unfold mret, M_ret in Hb. injection Hb as <-.
      exists [], reporter. now rewrite app_nil_r.
    - apply bind_Return in Hb as (d & sb' & Hcall & Hset).
      rewrite call_spec in Hcall. injection Hcall as _ <-.
      unfold set_errorReporterDisposable in Hset. injection Hset as <-.
      simpl. eauto. }
  destruct Hsb as (e1 & reporter & He1 & Hreporter).
  apply bind_Return in Hrun as (nuclidePack & sc & Hc & Hrun).
  rewrite call_spec in Hc. injection Hc as _ <-.
  destruct nuclidePack as [nuclidePack|]; [|discriminate].
  apply bind_Return in Hrun as ([] & sd & Hd & Hrun).
  rewrite call_spec in Hd. injection Hd as _ <-.
  apply bind_Return in Hrun as ([] & se & He & Hrun).
  unfold set_disposables in He. injection He as <-.
  apply bind_Return in Hrun as (d & sf & Hf & Hrun).
  apply growing_call in Hf.
  apply bind_Return in Hrun as ([] & sg & Hg & Hrun).
  apply growing_disposables_add in Hg.
  apply bind_Return in Hrun as ([] & sh & Hh & Hrun).
  apply growing_reorderMenu in Hh.
  apply bind_Return in Hrun as ([] & si & Hi & Hrun).
  apply growing_forEach in Hi.
  2:{ intros name. growing. }
  apply bind_Return in Hrun as ([] & sj & Hj & Hrun).
  eexists _, si, sj, _, reporter.
  split; [|split; [|split; [|split; [|split; [exact Hj|]]]]].
  5:{ revert Hrun. generalize sj, (Return tt : Outcome unit), s'.
      fold (Growing (A:=unit)). growing. }
  4:{ eapply grows_trans; [exact Hf|]. eapply grows_trans; [exact Hg|].
      eapply grows_trans; [exact Hh | exact Hi]. }
  - simpl. rewrite He1, <- !app_assoc. reflexivity.
  - simpl. exact Hreporter.
  - reflexivity.
Qed.

(** When [activate] has returned, [disposables] and
    [errorReporterDisposable] are set. *)
Lemma activate_sets_disposables (s s' : State H) :
  activate host nuclidePackageJson_version features s = (Return tt, s') ->
  exists members reporter,
    disposables s' = Some members
    /\ errorReporterDisposable s' = Some reporter.
Proof.
  intros Hrun.
  apply activate_Return in Hrun
    as (s0 & s1 & s2 & events & reporter & _ & Hreporter & Hds & H01 & Hloop & H2).
  apply (growing_forEach _ _ growing_watchFeature) in Hloop.
  destruct (grows_trans _ _ _ H01 (grows_trans _ _ _ Hloop H2)) as (_ & Hmore & Hsame).
  destruct (Hmore _ Hds) as [more Hmembers].
  exists ([] ++ more), reporter. split; [exact Hmembers | congruence].
Qed.

(** C7: when [activate] has returned, a watcher has been registered on
    'nuclide.use.<name>' for every feature [name] and added to
    [disposables].  Invoked with a new value of [true], the watcher
    activates the package of the feature (by its directory) and does nothing
    else; with [false], it makes one attempt to deactivate the package by
    name, that is, deactivates it if it is loaded; with any other value it
    does nothing at all. *)
Theorem watchers_toggle_features :
  forall (fs : Node) (JSON_parse : string -> Outcome PackageJson)
         (__dirname : path) (s s' : State H),
    Loader.features fs JSON_parse __dirname = Return features ->
    activate host nuclidePackageJson_version features s = (Return tt, s') ->
    forall name feature,
      Obj.get name features = Some feature ->
      (exists d events members,
          trace s' = trace s ++ events
          /\ OnDidChange ("nuclide.use." +:+ name) (FeatureWatcher name feature)
               (Return d) ∈ events
          /\ disposables s' = Some members
          /\ d ∈ members)
      /\ forall (event : ConfigEvent) (s1 : State H),
           match newValue event with
           | Some (JBool true) =>
               exists r atom',
                 invoke host (FeatureWatcher name feature) event s1
                 = (r, after s1 atom' [ActivatePackage (dirname feature) r])
           | Some (JBool false) =>
               exists atom' events,
                 Attempt name None events
                 /\ invoke host (FeatureWatcher name feature) event s1
                    = (Return tt, after s1 atom' events)
           | _ =>
               invoke host (FeatureWatcher name feature) event s1
               = (Return tt, s1)
           end.
Proof.
  intros fs JSON_parse __dirname s s' Hfeatures Hrun name feature Hget. split.
  - apply features_wellFormed in Hfeatures. rewrite <- (Hfeatures _ _ Hget).
    apply activate_Return in Hrun
      as (s0 & s1 & s2 & e0 & reporter & He0 & _ & _ & ([e1 He1] & _) & Hloop & Htail).
    assert (Hin : name ∈ Obj.keys features) by (apply ObjProps.get_keys; eauto).
    destruct (forEach_Return _ _ _ _ growing_watchFeature Hloop _ Hin)
      as (sa & sb & ([e2 He2] & _) & Hwatch & Hsb).
    destruct (watchFeature_Return _ _ _ _ Hget Hwatch) as (d & members & He3 & Hd).
    destruct (grows_trans _ _ _ Hsb Htail) as ([e4 He4] & Hmore & _).
    destruct (Hmore _ Hd) as [more Hmembers].
    exists d, (e0 ++ e1 ++ e2 ++ [OnDidChange (useKeyPath feature)
                                    (FeatureWatcher name feature) (Return d)] ++ e4).
    exists ((members ++ [d]) ++ more). repeat split.
    + rewrite He4, He3, He2, He1, He0, <- !app_assoc. reflexivity.
    + rewrite !elem_of_app. right. right. right. left. now left.
    + exact Hmembers.
    + rewrite !elem_of_app. left. right. now left.
  - intros event s1. unfold invoke, featureWatcher.
    destruct (newValue event) as [[|[|]| | | |]|]; try reflexivity.
    + rewrite call_spec. eauto.
    + apply safeDeactivate_spec.
Qed.

End Activation.

Lemma deactivate_attempts_every_feature_witness :
  exists (attempts : list (list Event)) (r1 : Outcome unit)
         (rest : list Event) (r : Outcome unit) (s' : State Examples.Editor),
    deactivate Examples.sample_host Examples.sample_features Examples.sample_activated
    = (r, s')
    /\ Forall2 (fun name events => Attempt name (Some true) events)
               (Obj.keys Examples.sample_features) attempts
    /\ trace s' = trace Examples.sample_activated ++ concat attempts
                  ++ DisposeAll [1; 2; 3]%nat r1 :: rest
    /\ match r1 with
       | Return _ =>
           rest = [Dispose 0%nat r]
           /\ disposables s' = None
           /\ (r = Return tt -> errorReporterDisposable s' = None)
       | Throw err => rest = [] /\ r = Throw err
       end.
Proof.
  apply (deactivate_attempts_every_feature Examples.sample_host
           Examples.sample_features Examples.sample_activated [1; 2; 3]%nat 0%nat);
    reflexivity.
Defined.

(** The broken package throws, the other feature is attempted all the same,
    and both disposals are made. *)
Example sample_deactivate :
  let boom := mkError None "service already disconnected" in
  let pack name := mkPackage ("defer:" +:+ name) in
  let (r, s') := deactivate Examples.sample_host Examples.sample_features
                   Examples.sample_activated in
  r = Return tt
  /\ trace s' = trace Examples.sample_activated ++
       [ GetLoadedPackage "nuclide-debugger" (Return (Some (pack "nuclide-debugger")));
         DeactivatePackage "nuclide-debugger" (Some true) (Throw boom);
         ConsoleError (deactivatingMessage "nuclide-debugger" boom);
         GetLoadedPackage "sample-hello" (Return (Some (pack "sample-hello")));
         DeactivatePackage "sample-hello" (Some true) (Return tt);
         DisposeAll [1; 2; 3]%nat (Return tt);
         Dispose 0%nat (Return tt) ].
Proof. vm_compute. split; reflexivity. Qed.


Lemma watchers_toggle_features_witness :
  let name := "nuclide-debugger" in
  let feature := {| pkg := Examples.debugger_pkg;
                    dirname := ["pkg"; "nuclide-debugger"];
                    useKeyPath := "nuclide.use.nuclide-debugger" |} in
  (exists d events members,
      trace Examples.sample_activated = trace Examples.sample_state ++ events
      /\ OnDidChange ("nuclide.use." +:+ name) (FeatureWatcher name feature)
           (Return d) ∈ events
      /\ disposables Examples.sample_activated = Some members
      /\ d ∈ members)
  /\ forall (event : ConfigEvent) (s1 : State Examples.Editor),
       match newValue event with
       | Some (JBool true) =>
           exists r atom',
             invoke Examples.sample_host (FeatureWatcher name feature) event s1
             = (r, after s1 atom' [ActivatePackage (dirname feature) r])
       | Some (JBool false) =>
           exists atom' events,
             Attempt name None events
             /\ invoke Examples.sample_host (FeatureWatcher name feature) event s1
                = (Return tt, after s1 atom' events)
       | _ =>
           invoke Examples.sample_host (FeatureWatcher name feature) event s1
           = (Return tt, s1)
       end.
Proof.
  intros name feature.
  apply (watchers_toggle_features Examples.sample_host "0.7.234"
           Examples.sample_features Examples.sample_fs Examples.sample_parse ["lib"]
           Examples.sample_state Examples.sample_activated).
  - vm_compute. reflexivity.
  - vm_compute. reflexivity.
  - reflexivity.
Defined.

Example sample_activate :
  activate Examples.sample_host "0.7.234" Examples.sample_features Examples.sample_state
  = (Return tt, Examples.sample_activated)
  /\ map label (menu_template (atom Examples.sample_activated))
     = [Some "File"; Some "Edit"; Some "Nuclide"; Some "Window"; Some "Help"]
  /\ disposables Examples.sample_activated = Some [1; 2; 3]%nat.
Proof. vm_compute. repeat split. Qed.

(** *** The calls of a successful activation *)

Section ActivationCalls.

Context {H : Type}.
Variable host : Host H.
Variable nuclidePackageJson_version : string.
Variable features : Obj Feature.

Local Abbreviation enableFeature := (enableFeature host features).
Local Abbreviation installRecommended := (installRecommended host).
Local Abbreviation Enabling := (Enabling features).
Local Abbreviation Watching := (Watching features).

Lemma call_Return {A} (f : HostCall H A) (event : Outcome A -> Event)
    (s s' : State H) (a : A) :
  call f event s = (Return a, s') ->
  exists atom', s' = after s atom' [event (Return a)].
Proof. rewrite call_spec. intros [= Hr <-]. rewrite Hr. eauto. Qed.

Lemma enableFeature_Return (name : string) (s s' : State H) :
  enableFeature name s = (Return tt, s') ->
  exists atom' events, Enabling name events /\ s' = after s atom' events.
Proof.
  unfold LoaderCalls.enableFeature. destruct (Obj.get name features) as [feature|] eqn:Hget;
    [|discriminate].
  intros Hrun. apply bind_Return in Hrun as (v & s1 & Hv & Hrun).
  apply call_Return in Hv as [a1 ->].
  destruct (truthy v) eqn:Hv.
  - apply call_Return in Hrun as [a2 ->]. rewrite after_after.
    exists a2. eexists. split; [|reflexivity]. now apply enabling_on.
  - injection Hrun as <-. exists a1. eexists. split; [|reflexivity].
    now apply enabling_off.
Qed.

Lemma forEach_enableFeature (names : list string) (s s' : State H) :
  forEach names enableFeature s = (Return tt, s') ->
  exists atom' enablings,
    Forall2 Enabling names enablings /\ s' = after s atom' (concat enablings).
Proof.
  revert s. induction names as [|name names IH]; intros s Hrun; simpl in Hrun.
  - injection Hrun as <-. exists (atom s), []. split; [constructor|].
    now rewrite after_nil.
  - apply bind_Return in Hrun as ([] & s1 & Hname & Hrun).
    apply enableFeature_Return in Hname as (a1 & events & Hevents & ->).
    apply IH in Hrun as (a2 & enablings & Hall & ->).
    exists a2, (events :: enablings). split; [now constructor|].
    now rewrite after_after.
Qed.

Lemma forEach_watchFeature (names : list string) (s s' : State H)
    (members : list Disposable) :
  disposables s = Some members ->
  forEach names (watchFeature host features) s = (Return tt, s') ->
  exists registered,
    Forall2 Watching names registered
    /\ trace s' = trace s ++ registered.*2
    /\ disposables s' = Some (members ++ registered.*1)
    /\ errorReporterDisposable s' = errorReporterDisposable s.
Proof.
  revert s members. induction names as [|name names IH]; intros s members Hds Hrun;
    simpl in Hrun.
  - injection Hrun as <-. exists []. simpl. rewrite !app_nil_r. auto using Forall2_nil.
  - apply bind_Return in Hrun as ([] & s1 & Hname & Hrun).
    unfold watchFeature in Hname.
    destruct (Obj.get name features) as [feature|] eqn:Hget; [|discriminate].
    apply bind_Return in Hname as (d & s0 & Hd & Hname).
    apply call_Return in Hd as [a0 ->].
    unfold get_disposables, disposables_add, mbind, M_bind, get_disposables,
      set_disposables in Hname. simpl in Hname. rewrite Hds in Hname.
    simpl in Hname. rewrite ?Hds in Hname. injection Hname as <-.
    apply (IH _ (members ++ [d])) in Hrun as (registered & Hall & Htrace & Hds' & Hrep);
      [|reflexivity].
    exists ((d, OnDidChange (useKeyPath feature) (FeatureWatcher name feature)
                  (Return d)) :: registered).
    split; [constructor; [now constructor | exact Hall]|].
    simpl in *. rewrite Htrace, Hds', <- !app_assoc. auto.
Qed.

Lemma reorderMenu_Return (s s' : State H) :
  reorderMenu host s = (Return tt, s') ->
  exists update,
    (update = [] \/ update = [MenuUpdate (Return tt)])
    /\ trace s' = trace s ++ update
    /\ disposables s' = disposables s
    /\ errorReporterDisposable s' = errorReporterDisposable s.
Proof.
  unfold reorderMenu. intros Hrun.
  apply bind_Return in Hrun as (template & s0 & Ht & Hrun).
  injection Ht as <- <-.
  destruct (negb _).
  - apply bind_Return in Hrun as ([] & s1 & Hset & Hrun).
    injection Hset as <-. apply call_Return in Hrun as [a1 ->].
    exists [MenuUpdate (Return tt)]. simpl. auto.
  - injection Hrun as <-. exists []. rewrite app_nil_r. auto.
Qed.

Lemma installRecommended_Return (s s' : State H) :
  installRecommended s = (Return tt, s') ->
  exists atom' events, Recommended events /\ s' = after s atom' events.
Proof.
  unfold LoaderCalls.installRecommended. intros Hrun.
  apply bind_Return in Hrun as (v & s1 & Hv & Hrun).
  apply call_Return in Hv as [a1 ->].
  destruct (truthy v) eqn:Hv.
  - apply bind_Return in Hrun as (windows & s2 & Hw & Hrun).
    apply call_Return in Hw as [a2 ->].
    destruct windows as [|first windows]; [discriminate|].
    apply bind_Return in Hrun as (current & s3 & Hc & Hrun).
    apply call_Return in Hc as [a3 ->].
    destruct (Z.eqb_spec (id first) (id current)) as [Hsame|Hother].
    + apply call_Return in Hrun as [a4 ->]. rewrite !after_after. simpl.
      exists a4. eexists. split; [|reflexivity].
      now apply recommended_first_window.
    + injection Hrun as <-. rewrite !after_after. simpl.
      exists a3. eexists. split; [|reflexivity].
      now apply recommended_other_window.
  - injection Hrun as <-. exists a1. eexists. split; [|reflexivity].
    now apply recommended_off.
Qed.

(** A run of [activate] that returns, call by call. *)
Lemma activate_calls (s s' : State H) :
  activate host nuclidePackageJson_version features s = (Return tt, s') ->
  exists (install : list Event) (reporter : Disposable) (pack : Package)
         (d : Disposable) (update : list Event) (enablings : list (list Event))
         (registered : list (Disposable * Event)) (recommended : list Event),
    match errorReporterDisposable s with
    | Some r => install = [] /\ reporter = r
    | None => install = [InstallErrorReporter (Return reporter)]
    end
    /\ (update = [] \/ update = [MenuUpdate (Return tt)])
    /\ Forall2 Enabling (Obj.keys features) enablings
    /\ Forall2 Watching (Obj.keys features) registered
    /\ Recommended recommended
    /\ trace s'
       = trace s ++ install
         ++ [ GetLoadedPackage "nuclide" (Return (Some pack));
              RemoveItem (getCanDeferMainModuleRequireStorageKey pack) (Return tt);
              MenuAdd [nuclideMenu nuclidePackageJson_version] (Return d) ]
         ++ update ++ concat enablings ++ registered.*2 ++ recommended
    /\ disposables s' = Some (d :: registered.*1)
    /\ errorReporterDisposable s' = Some reporter.
Proof.
  unfold activate. intros Hrun.
  apply bind_Return in Hrun as (reporter0 & sa & Ha & Hrun).
  unfold get_errorReporterDisposable in Ha. injection Ha as <- <-.
  apply bind_Return in Hrun as ([] & sb & Hb & Hrun).
  assert (Hsb : exists install reporter,
             match errorReporterDisposable s with
             | Some r => install = [] /\ reporter = r
             | None => install = [InstallErrorReporter (Return reporter)]
             end
             /\ trace sb = trace s ++ install
             /\ errorReporterDisposable sb = Some reporter).
  { destruct (errorReporterDisposable s) as [r|] eqn:E.
    - injection Hb as <-. exists [], r. rewrite app_nil_r. auto.
    - apply bind_Return in Hb as (r & sb' & Hcall & Hset).
      apply call_Return in Hcall as [a0 ->].
      injection Hset as <-. exists [InstallErrorReporter (Return r)], r. auto. }
  destruct Hsb as (install & reporter & Hinstall & Htrace_b & Hreporter_b).
  apply bind_Return in Hrun as (nuclidePack & sc & Hc & Hrun).
  apply call_Return in Hc as [ac ->].
  destruct nuclidePack as [pack|]; [|discriminate].
  apply bind_Return in Hrun as ([] & sd & Hd & Hrun).
  apply call_Return in Hd as [ad ->].
  apply bind_Return in Hrun as ([] & se & He & Hrun).
  injection He as <-.
  apply bind_Return in Hrun as (d & sf & Hf & Hrun).
  apply call_Return in Hf as [af ->].
  apply bind_Return in Hrun as ([] & sg & Hg & Hrun).
  injection Hg as <-.
  apply bind_Return in Hrun as ([] & sh & Hh & Hrun).
  apply reorderMenu_Return in Hh as (update & Hupdate & Htrace_h & Hds_h & Hreporter_h).
  apply bind_Return in Hrun as ([] & si & Hi & Hrun).
  apply forEach_enableFeature in Hi as (ai & enablings & Henablings & ->).
  apply bind_Return in Hrun as ([] & sj & Hj & Hrun).
  eapply (forEach_watchFeature _ _ _ [d]) in Hj
    as (registered & Hregistered & Htrace_j & Hds_j & Hreporter_j);
    [|simpl; rewrite Hds_h; reflexivity].
  apply installRecommended_Return in Hrun as (ak & recommended & Hrecommended & ->).
  exists install, reporter, pack, d, update, enablings, registered, recommended.
  split; [exact Hinstall|]. split; [exact Hupdate|]. split; [exact Henablings|].
  split; [exact Hregistered|]. split; [exact Hrecommended|].
  simpl in *. rewrite Htrace_j, Hds_j, Hreporter_j, Htrace_h, Hreporter_h, Htrace_b.
  rewrite <- !app_assoc. simpl. auto.
Qed.

Lemma Watching_calls (names : list string) (registered : list (Disposable * Event)) :
  Forall2 Watching names registered ->
  Forall (fun e => isEnablingCall e = false /\ isRecommendedCall e = false
                   /\ isInstallErrorReporter e = false) registered.*2.
Proof.
  induction 1 as [|name de names registered Hde _ IH]; [constructor|].
  destruct Hde. simpl. constructor; auto.
Qed.

Lemma Enabling_calls (names : list string) (enablings : list (list Event)) :
  Forall2 Enabling names enablings ->
  Forall (fun e => isRecommendedCall e = false /\ isInstallErrorReporter e = false)
         (concat enablings).
Proof.
  induction 1 as [|name events names enablings Hevents _ IH]; [constructor|].
  simpl. apply Forall_app. split; [|exact IH].
  destruct Hevents; repeat constructor.
Qed.

Lemma Recommended_calls (recommended : list Event) :
  Recommended recommended ->
  Forall (fun e => isEnablingCall e = false /\ isInstallErrorReporter e = false)
         recommended.
Proof. destruct 1; repeat constructor. Qed.

(** X10: When [activate] returns, the settings it has read with
    [atom.config.get] and the packages it has activated are these: for each
    feature in turn, the setting 'nuclide.use.<name>' was read once, and the
    package in the feature's directory was activated next if and only if the
    value read was truthy.  No other setting was read that way and no other
    package activated. *)
Theorem activate_activates_enabled_features :
  forall s s' : State H,
    activate host nuclidePackageJson_version features s = (Return tt, s') ->
    exists (before : list Event) (enablings : list (list Event))
           (after : list Event),
      trace s' = trace s ++ before ++ concat enablings ++ after
      /\ Forall2 Enabling (Obj.keys features) enablings
      /\ Forall (fun e => isEnablingCall e = false) (before ++ after).
Proof.
  intros s s' Hrun.
  apply activate_calls in Hrun
    as (install & reporter & pack & d & update & enablings & registered & recommended
        & Hinstall & Hupdate & Henablings & Hregistered & Hrecommended & Htrace & _).
  exists (install ++ [ GetLoadedPackage "nuclide" (Return (Some pack));
               RemoveItem (getCanDeferMainModuleRequireStorageKey pack) (Return tt);
               MenuAdd [nuclideMenu nuclidePackageJson_version] (Return d) ] ++ update),
    enablings, (registered.*2 ++ recommended).
  split; [|split; [exact Henablings|]].
  - rewrite Htrace, <- !app_assoc. reflexivity.
  - rewrite !Forall_app. repeat split.
    + destruct (errorReporterDisposable s); [destruct Hinstall as [-> _] | subst install];
        repeat constructor.
    + repeat constructor.
    + destruct Hupdate as [->| ->]; repeat constructor.
    + eapply Forall_impl; [apply (Watching_calls _ _ Hregistered)|]. now intros ? [? _].
    + eapply Forall_impl; [apply (Recommended_calls _ Hrecommended)|]. now intros ? [? _].
Qed.

(** X11: When [activate] returns, the last thing it did was to see to the
    recommended packages: it read the setting 'installRecommendedPackages';
    if the value was truthy it listed the windows and asked for the current
    one; and it called [atomPackageDepsInstall('nuclide', false)] if and only
    if the first window listed was the current one.  Nothing before that
    touched the setting, the windows or the installer. *)
Theorem activate_installs_recommended_packages_in_first_window :
  forall s s' : State H,
    activate host nuclidePackageJson_version features s = (Return tt, s') ->
    exists (before recommended : list Event),
      trace s' = trace s ++ before ++ recommended
      /\ Recommended recommended
      /\ Forall (fun e => isRecommendedCall e = false) before.
Proof.
  intros s s' Hrun.
  apply activate_calls in Hrun
    as (install & reporter & pack & d & update & enablings & registered & recommended
        & Hinstall & Hupdate & Henablings & Hregistered & Hrecommended & Htrace & _).
  exists (install ++ [ GetLoadedPackage "nuclide" (Return (Some pack));
               RemoveItem (getCanDeferMainModuleRequireStorageKey pack) (Return tt);
               MenuAdd [nuclideMenu nuclidePackageJson_version] (Return d) ]
             ++ update ++ concat enablings ++ registered.*2), recommended.
  split; [|split; [exact Hrecommended|]].
  - rewrite Htrace, <- !app_assoc. reflexivity.
  - rewrite !Forall_app. repeat split.
    + destruct (errorReporterDisposable s); [destruct Hinstall as [-> _] | subst install];
        repeat constructor.
    + repeat constructor.
    + destruct Hupdate as [->| ->]; repeat constructor.
    + eapply Forall_impl; [apply (Enabling_calls _ _ Henablings)|]. now intros ? [? _].
    + eapply Forall_impl; [apply (Watching_calls _ _ Hregistered)|]. now intros ? (_ & ? & _).
Qed.

(** X12: When [activate] returns, [disposables] holds exactly the disposable
    returned for the menu followed by the disposables returned for the
    watchers, one for each feature and in the order of the features: what
    [deactivate] disposes of is that and nothing else. *)
Theorem activate_collects_disposables :
  forall s s' : State H,
    activate host nuclidePackageJson_version features s = (Return tt, s') ->
    exists (d : Disposable) (registered : list (Disposable * Event))
           (events : list Event),
      disposables s' = Some (d :: registered.*1)
      /\ Forall2 Watching (Obj.keys features) registered
      /\ trace s' = trace s ++ events
      /\ MenuAdd [nuclideMenu nuclidePackageJson_version] (Return d) ∈ events
      /\ Forall (fun e => e ∈ events) registered.*2.
Proof.
  intros s s' Hrun.
  apply activate_calls in Hrun
    as (install & reporter & pack & d & update & enablings & registered & recommended
        & Hinstall & Hupdate & Henablings & Hregistered & Hrecommended & Htrace & Hds & _).
  exists d, registered. eexists. split; [exact Hds|]. split; [exact Hregistered|].
  split; [exact Htrace|]. split.
  - rewrite !elem_of_app. right. left. do 2 right. left.
  - apply Forall_forall. intros e He. rewrite !elem_of_app. do 4 right. now left.
Qed.

(** X13: [activate] installs the error reporter again only after [deactivate]
    has taken it away: when it returns, an error reporter is installed; if
    one was installed before, that is the one and [installErrorReporter] was
    not called; if none was, [installErrorReporter] was called once, first
    of all, and what it returned is kept. *)
Theorem activate_installs_error_reporter_once :
  forall s s' : State H,
    activate host nuclidePackageJson_version features s = (Return tt, s') ->
    exists (reporter : Disposable) (events : list Event),
      errorReporterDisposable s' = Some reporter
      /\ Forall (fun e => isInstallErrorReporter e = false) events
      /\ match errorReporterDisposable s with
         | Some r => reporter = r /\ trace s' = trace s ++ events
         | None =>
             trace s' = trace s ++ InstallErrorReporter (Return reporter) :: events
         end.
Proof.
  intros s s' Hrun.
  apply activate_calls in Hrun
    as (install & reporter & pack & d & update & enablings & registered & recommended
        & Hinstall & Hupdate & Henablings & Hregistered & Hrecommended & Htrace & _
        & Hreporter).
  exists reporter.
  exists ([ GetLoadedPackage "nuclide" (Return (Some pack));
               RemoveItem (getCanDeferMainModuleRequireStorageKey pack) (Return tt);
               MenuAdd [nuclideMenu nuclidePackageJson_version] (Return d) ]
            ++ update ++ concat enablings ++ registered.*2 ++ recommended).
  split; [exact Hreporter|]. split.
  - rewrite !Forall_app. repeat split.
    + repeat constructor.
    + destruct Hupdate as [->| ->]; repeat constructor.
    + eapply Forall_impl; [apply (Enabling_calls _ _ Henablings)|]. now intros ? [_ ?].
    + eapply Forall_impl; [apply (Watching_calls _ _ Hregistered)|]. now intros ? (_ & _ & ?).
    + eapply Forall_impl; [apply (Recommended_calls _ Hrecommended)|]. now intros ? [_ ?].
  - destruct (errorReporterDisposable s).
    + destruct Hinstall as [-> ->]. split; [reflexivity | exact Htrace].
    + subst install. exact Htrace.
Qed.

(** X14: Before the editor has loaded the package 'nuclide', [activate] throws:
    with the error reporter in place, it asks for the package, fails the
    [invariant], and has done nothing else; no menu was added and
    [disposables] is as it was. *)
Theorem activate_requires_nuclide_package :
  forall (s : State H) (reporter : Disposable) (atom' : Atom H),
    errorReporterDisposable s = Some reporter ->
    packages_getLoadedPackage H host "nuclide" (atom s) = (Return None, atom') ->
    activate host nuclidePackageJson_version features s
    = (Throw AssertionError,
       after s atom' [GetLoadedPackage "nuclide" (Return None)]).
Proof.
  intros s reporter atom' Hreporter Hlookup.
  unfold activate, mbind, M_bind, get_errorReporterDisposable.
  rewrite Hreporter. simpl. rewrite call_spec, Hlookup. reflexivity.
Qed.

(** X16: Without [disposables], that is before [activate] or after a
    [deactivate] that got as far as resetting it, [deactivate] still makes
    its attempt to deactivate every feature, then fails the [invariant]:
    it throws and nothing is disposed of. *)
Theorem deactivate_requires_activate :
  forall s : State H,
    disposables s = None ->
    exists (atom' : Atom H) (attempts : list (list Event)),
      Forall2 (fun name events => Attempt name (Some true) events)
              (Obj.keys features) attempts
      /\ deactivate host features s
         = (Throw AssertionError, after s atom' (concat attempts)).
Proof.
  intros s Hds.
  destruct (forEach_safeDeactivate host (Obj.keys features) (Some true) s)
    as (a1 & attempts & Hall & Hrun).
  exists a1, attempts. split; [exact Hall|].
  unfold deactivate, mbind, M_bind. rewrite Hrun.
  unfold get_disposables. simpl. rewrite Hds. reflexivity.
Qed.

(** X17: [deactivate] cannot be run twice: if it has returned, both module
    variables are null, and a second [deactivate] throws, after its attempts
    on the features, without disposing of anything. *)
Theorem deactivate_twice_throws :
  forall s s1 : State H,
    deactivate host features s = (Return tt, s1) ->
    disposables s1 = None
    /\ errorReporterDisposable s1 = None
    /\ exists (atom' : Atom H) (attempts : list (list Event)),
         Forall2 (fun name events => Attempt name (Some true) events)
                 (Obj.keys features) attempts
         /\ deactivate host features s1
            = (Throw AssertionError, after s1 atom' (concat attempts)).
Proof.
  intros s s1 Hrun.
  assert (Hnull : disposables s1 = None /\ errorReporterDisposable s1 = None).
  { unfold deactivate in Hrun.
    apply bind_Return in Hrun as ([] & sa & _ & Hrun).
    apply bind_Return in Hrun as (ds & sb & Hds & Hrun).
    injection Hds as <- <-.
    destruct (disposables sa) as [members|]; [|discriminate].
    apply bind_Return in Hrun as ([] & sc & Hc & Hrun).
    apply call_Return in Hc as [ac ->].
    apply bind_Return in Hrun as ([] & sd & Hd & Hrun).
    injection Hd as <-.
    apply bind_Return in Hrun as (reporter & se & He & Hrun).
    injection He as <- <-. simpl in Hrun.
    destruct (errorReporterDisposable sa) as [r|]; [|discriminate].
    apply bind_Return in Hrun as ([] & sf & Hf & Hrun).
    apply call_Return in Hf as [af ->].
    injection Hrun as <-. auto. }
  destruct Hnull as [Hds Hreporter]. split; [exact Hds|]. split; [exact Hreporter|].
  destruct (forEach_safeDeactivate host (Obj.keys features) (Some true) s1)
    as (a1 & attempts & Hall & Hagain).
  exists a1, attempts. split; [exact Hall|].
  unfold deactivate, mbind, M_bind. rewrite Hagain.
  unfold get_disposables. simpl. rewrite Hds. reflexivity.
Qed.

End ActivationCalls.

Lemma activate_activates_enabled_features_witness :
  exists (before : list Event) (enablings : list (list Event)) (after : list Event),
    trace Examples.sample_activated
    = trace Examples.sample_state ++ before ++ concat enablings ++ after
    /\ Forall2 (Enabling Examples.sample_features)
               (Obj.keys Examples.sample_features) enablings
    /\ Forall (fun e => isEnablingCall e = false) (before ++ after).
Proof.
  apply (activate_activates_enabled_features Examples.sample_host "0.7.234"
           Examples.sample_features Examples.sample_state Examples.sample_activated).
  vm_compute. reflexivity.
Defined.

(** On the sample: the debugger is enabled and activated, the sample
    feature is not. *)
Example sample_enablings :
  filter (fun e => isEnablingCall e = true) (trace Examples.sample_activated)
  = [ ConfigGet "nuclide.use.nuclide-debugger" (Return (Some (JBool true)));
      ActivatePackage ["pkg"; "nuclide-debugger"] (Return tt);
      ConfigGet "nuclide.use.sample-hello" (Return None) ].
Proof. vm_compute. reflexivity. Qed.

Lemma activate_installs_recommended_packages_in_first_window_witness :
  exists (before recommended : list Event),
    trace Examples.sample_activated
    = trace Examples.sample_state ++ before ++ recommended
    /\ Recommended recommended
    /\ Forall (fun e => isRecommendedCall e = false) before.
Proof.
  apply (activate_installs_recommended_packages_in_first_window
           Examples.sample_host "0.7.234" Examples.sample_features
           Examples.sample_state Examples.sample_activated).
  vm_compute. reflexivity.
Defined.

Lemma activate_collects_disposables_witness :
  exists (d : Disposable) (registered : list (Disposable * Event))
         (events : list Event),
    disposables Examples.sample_activated = Some (d :: registered.*1)
    /\ Forall2 (Watching Examples.sample_features)
               (Obj.keys Examples.sample_features) registered
    /\ trace Examples.sample_activated = trace Examples.sample_state ++ events
    /\ MenuAdd [nuclideMenu "0.7.234"] (Return d) ∈ events
    /\ Forall (fun e => e ∈ events) registered.*2.
Proof.
  apply (activate_collects_disposables Examples.sample_host "0.7.234"
           Examples.sample_features Examples.sample_state Examples.sample_activated).
  vm_compute. reflexivity.
Defined.

Lemma activate_installs_error_reporter_once_witness :
  exists (reporter : Disposable) (events : list Event),
    errorReporterDisposable
      (snd (activate Examples.sample_host "0.7.234" Examples.sample_features
              Examples.sample_deactivated))
    = Some reporter
    /\ Forall (fun e => isInstallErrorReporter e = false) events
    /\ trace (snd (activate Examples.sample_host "0.7.234" Examples.sample_features
                     Examples.sample_deactivated))
       = trace Examples.sample_deactivated
         ++ InstallErrorReporter (Return reporter) :: events.
Proof.
  apply (activate_installs_error_reporter_once Examples.sample_host "0.7.234"
           Examples.sample_features Examples.sample_deactivated
           (snd (activate Examples.sample_host "0.7.234" Examples.sample_features
                   Examples.sample_deactivated))).
  vm_compute. reflexivity.
Defined.

Lemma activate_requires_nuclide_package_witness :
  activate Examples.sample_host "0.7.234" Examples.sample_features
           Examples.unloaded_state
  = (Throw AssertionError,
     after Examples.unloaded_state (atom Examples.unloaded_state)
           [GetLoadedPackage "nuclide" (Return None)]).
Proof.
  apply (activate_requires_nuclide_package Examples.sample_host "0.7.234"
           Examples.sample_features Examples.unloaded_state 0%nat
           (atom Examples.unloaded_state)); reflexivity.
Defined.

Lemma deactivate_requires_activate_witness :
  exists (atom' : Atom Examples.Editor) (attempts : list (list Event)),
    Forall2 (fun name events => Attempt name (Some true) events)
            (Obj.keys Examples.sample_features) attempts
    /\ deactivate Examples.sample_host Examples.sample_features Examples.sample_state
       = (Throw AssertionError, after Examples.sample_state atom' (concat attempts)).
Proof.
  apply (deactivate_requires_activate Examples.sample_host Examples.sample_features
           Examples.sample_state).
  reflexivity.
Defined.

Lemma deactivate_twice_throws_witness :
  disposables Examples.sample_deactivated = None
  /\ errorReporterDisposable Examples.sample_deactivated = None
  /\ exists (atom' : Atom Examples.Editor) (attempts : list (list Event)),
       Forall2 (fun name events => Attempt name (Some true) events)
               (Obj.keys Examples.sample_features) attempts
       /\ deactivate Examples.sample_host Examples.sample_features
                     Examples.sample_deactivated
          = (Throw AssertionError,
             after Examples.sample_deactivated atom' (concat attempts)).
Proof.
  apply (deactivate_twice_throws Examples.sample_host Examples.sample_features
           Examples.sample_activated Examples.sample_deactivated).
  vm_compute. reflexivity.
Defined.


(** *** What [activate] never does *)

Section Envelope.

Context {H : Type}.
Variable P : Event -> Prop.

Lemma emits_silent {A} (m : M H A) :
  (forall s, trace (snd (m s)) = trace s) -> Emits (H:=H) P m.
Proof.
  intros Hm s r s' Hrun. exists []. rewrite app_nil_r. split; [|constructor].
  specialize (Hm s). now rewrite Hrun in Hm.
Qed.

Lemma emits_ret {A} (a : A) : Emits (H:=H) P (mret a : M H A).
Proof. now apply emits_silent. Qed.

Lemma emits_throw {A} (e : JsError) : Emits (H:=H) P (throw e : M H A).
Proof. now apply emits_silent. Qed.

Lemma emits_call {A} (f : HostCall H A) (event : Outcome A -> Event) :
  (forall r, P (event r)) -> Emits (H:=H) P (call f event).
Proof.
  intros Hevent s r s'. rewrite call_spec. intros [= <- <-].
  eexists. split; [reflexivity|]. repeat constructor. apply Hevent.
Qed.

Lemma emits_bind {A B} (m : M H A) (f : A -> M H B) :
  Emits (H:=H) P m -> (forall a, Emits (H:=H) P (f a)) -> Emits (H:=H) P (m ≫= f).
Proof.
  intros Hm Hf s r s'. unfold mbind, M_bind.
  destruct (m s) as [[a|e] s1] eqn:E.
  - intros Hrun. destruct (Hm _ _ _ E) as (e1 & He1 & HP1).
    destruct (Hf _ _ _ _ Hrun) as (e2 & He2 & HP2).
    exists (e1 ++ e2). split; [now rewrite He2, He1, app_assoc|].
    now apply Forall_app.
  - intros [= <- <-]. eapply Hm; eauto.
Qed.

Lemma emits_forEach {A} (l : list A) (callback : A -> M H unit) :
  (forall x, Emits (H:=H) P (callback x)) -> Emits (H:=H) P (forEach l callback).
Proof.
  intros Hcb. induction l as [|x l IH]; simpl.
  - apply emits_ret.
  - apply emits_bind; auto.
Qed.

Lemma emits_disposables_add (d : Disposable) : Emits (H:=H) P (disposables_add d).
Proof.
  apply emits_silent. intros s. unfold disposables_add, mbind, M_bind, get_disposables.
  now destruct (disposables s).
Qed.

End Envelope.

Section NeverDoes.

Context {H : Type}.
Variable host : Host H.
Variable nuclidePackageJson_version : string.
Variable features : Obj Feature.

Local Abbreviation setsUp := (setsUp nuclidePackageJson_version features).

(** X15: Whether it returns or throws, [activate] deactivates no package,
    disposes of nothing and writes nothing to the console.  The only
    package it looks up is 'nuclide', the only menu it adds is the Nuclide
    menu, the only packages it activates and the only settings it reads or
    watches with [atom.config] are those of the discovered features, and it
    installs the recommended packages of 'nuclide' only, never prompting. *)
Theorem activate_only_sets_up :
  forall s : State H,
    exists events,
      trace (snd (activate host nuclidePackageJson_version features s))
      = trace s ++ events
      /\ Forall setsUp events.
Proof.
  intros s.
  destruct (activate host nuclidePackageJson_version features s) as [r s'] eqn:Hrun.
  revert s r s' Hrun. fold (Emits setsUp (activate host nuclidePackageJson_version features)).
  unfold activate.
  apply emits_bind; [now apply emits_silent|]. intros reporter.
  apply emits_bind.
  { destruct reporter; [apply emits_ret|].
    apply emits_bind; [now apply emits_call|]. intros d. now apply emits_silent. }
  intros _. apply emits_bind; [now apply emits_call|]. intros [pack|]; [|apply emits_throw].
  apply emits_bind; [now apply emits_call|]. intros _.
  apply emits_bind; [now apply emits_silent|]. intros _.
  apply emits_bind; [now apply emits_call|]. intros d.
  apply emits_bind; [apply emits_disposables_add|]. intros _.
  apply emits_bind.
  { unfold reorderMenu. apply emits_bind; [now apply emits_silent|]. intros template.
    destruct (negb _); [|apply emits_ret].
    apply emits_bind; [now apply emits_silent|]. intros _. now apply emits_call. }
  intros _. apply emits_bind.
  { apply emits_forEach. intros name.
    destruct (Obj.get name features) as [feature|] eqn:Hget; [|apply emits_throw].
    apply emits_bind; [apply emits_call; simpl; eauto|]. intros v.
    destruct (truthy v); [|apply emits_ret]. apply emits_call. simpl. eauto. }
  intros _. apply emits_bind.
  { apply emits_forEach. intros name.
    destruct (Obj.get name features) as [feature|] eqn:Hget; [|apply emits_throw].
    apply emits_bind; [apply emits_call; simpl; eauto|]. intros watcher.
    apply emits_bind; [now apply emits_silent|]. intros [members|];
      [apply emits_disposables_add | apply emits_throw]. }
  intros _. apply emits_bind; [now apply emits_call|]. intros v.
  destruct (truthy v); [|apply emits_ret].
  apply emits_bind; [now apply emits_call|]. intros [|first windows]; [apply emits_throw|].
  apply emits_bind; [now apply emits_call|]. intros current.
  destruct (_ =? _); [now apply emits_call | apply emits_ret].
Qed.

End NeverDoes.

(** *** The menu without a 'Nuclide' item *)

Lemma splice_last {A} (before : list A) (last : A) :
  splice (before ++ [last]) (-1) 1 [] = ([last], before).
Proof.
  unfold splice. cbv zeta. rewrite length_app. simpl List.length.
  change (-1 <? 0) with true. cbv iota.
  replace (Z.to_nat (Z.max (Z.of_nat (List.length before + 1) + -1) 0))
    with (List.length before) by lia.
  replace (Z.to_nat (Z.min (Z.max 1 0) _)) with 1%nat by lia.
  rewrite drop_app_length, take_app_length. simpl.
  rewrite drop_app_ge by lia.
  replace (List.length before + 1 - List.length before)%nat with 1%nat by lia.
  now rewrite app_nil_r.
Qed.

Lemma splice_insert_from_end {A} (l : list A) (x : A) :
  snd (splice l (-1) 0 [x])
  = take (pred (List.length l)) l ++ x :: drop (pred (List.length l)) l.
Proof.
  unfold splice. cbv zeta. simpl snd. change (-1 <? 0) with true. cbv iota.
  replace (Z.to_nat (Z.max (Z.of_nat (List.length l) + -1) 0))
    with (pred (List.length l)) by lia.
  replace (Z.to_nat (Z.min (Z.max 0 0) _)) with 0%nat by lia.
  now rewrite Nat.add_0_r.
Qed.

(** X18: [activate] takes it that the template has an item labelled 'Nuclide'.
    If it has none, [findIndex] gives -1 and [splice(-1, 1)] takes the last
    item of the template instead; that item is put back one place before the
    first item with the role 'window' or 'help' (in front of the last of the
    remaining items if that first item leads the template). *)
Theorem moveNuclide_without_Nuclide_item :
  forall (before : list MenuItem) (last : MenuItem) (insertIndex : nat),
    Forall (fun item => isNuclide item = false) (before ++ [last]) ->
    findIndex (before ++ [last]) isWindowOrHelp = Z.of_nat insertIndex ->
    let position :=
      match insertIndex with
      | O => pred (List.length before)
      | S i => i
      end in
    moveNuclide (before ++ [last]) (Z.of_nat insertIndex)
    = take position before ++ last :: drop position before.
Proof.
  intros before last insertIndex Hnone Hindex position.
  assert (Hbound : (insertIndex <= List.length before)%nat).
  { unfold findIndex in Hindex.
    destruct (findIndex_from_spec isWindowOrHelp (before ++ [last]) 0)
      as [[_ H]|(l1 & x & l2 & Heq & _ & _ & Hi)]; [lia|].
    apply (f_equal (@List.length _)) in Heq. rewrite !length_app in Heq.
    simpl in Heq. lia. }
  unfold moveNuclide. rewrite (findIndex_none _ _ Hnone), splice_last.
  replace (Z.of_nat insertIndex >? -1) with true by (symmetry; apply Z.gtb_lt; lia).
  subst position. destruct insertIndex as [|i].
  - apply splice_insert_from_end.
  - replace (Z.of_nat (S i) - 1) with (Z.of_nat i) by lia.
    apply splice_insert. lia.
Qed.

Lemma moveNuclide_without_Nuclide_item_witness :
  let window := Examples.menuItem "Window" (Some "window") in
  let file := Examples.menuItem "File" None in
  let edit := Examples.menuItem "Edit" None in
  moveNuclide [window; file; edit] 0 = [window; edit; file].
Proof.
  intros window file edit.
  apply (moveNuclide_without_Nuclide_item [window; file] edit 0).
  - repeat constructor.
  - reflexivity.
Defined.

End LoaderProps.

(** ** lib/main.js: the load phase and serialization *)

Module LoaderPhasesProps.
Import LoaderPhases.

Section Phases.

Context {H : Type}.
Variable host : Host H.
Variable features : Obj Loader.Feature.

Lemma phase_after_after (s : State H) (a1 a2 : H) (e1 e2 : list Event) :
  after (after s a1 e1) a2 e2 = after s a2 (e1 ++ e2).
Proof. unfold after. simpl. now rewrite app_assoc. Qed.

Lemma phase_after_nil (s : State H) : after s (atom s) [] = s.
Proof. destruct s. unfold after. simpl. now rewrite app_nil_r. Qed.

Lemma phase_call_spec {A} (f : HostCall H A) (event : Outcome A -> Event)
    (s : State H) :
  call f event s
  = (fst (f (atom s)), after s (snd (f (atom s))) [event (fst (f (atom s)))]).
Proof. unfold call, after. now destruct (f (atom s)). Qed.

Lemma phase_call_Return {A} (f : HostCall H A) (event : Outcome A -> Event)
    (s s' : State H) (a : A) :
  call f event s = (Return a, s') ->
  exists atom', s' = after s atom' [event (Return a)].
Proof. rewrite phase_call_spec. intros [= Hr <-]. rewrite Hr. eauto. Qed.

Lemma phase_bind_Return {A B} (m : M H A) (f : A -> M H B) (s s' : State H) (b : B) :
  (m ≫= f) s = (Return b, s') ->
  exists a s1, m s = (Return a, s1) /\ f a s1 = (Return b, s').
Proof.
  unfold mbind, M_bind. destruct (m s) as [[a|e] s1]; [eauto | discriminate].
Qed.

(** X19: While the module is evaluated, the setting 'nuclide.useLocalRpc' is read
    once and, unless that read throws, [setUseLocalRpc] is called once, with
    a boolean: [true] if and only if the value read is the boolean [true].
    Any other value, also a truthy one such as the string 'true', gives the
    default of the schema, [false]. *)
Theorem useLocalRpc_passes_a_boolean :
  forall s : State H,
    exists events,
      trace (snd (useLocalRpc host s)) = trace s ++ events
      /\ ((exists err, events = [ConfigGet "nuclide.useLocalRpc" (Throw err)])
          \/ exists (v : option Json) (b : bool) (r : Outcome unit),
               events = [ ConfigGet "nuclide.useLocalRpc" (Return v);
                          SetUseLocalRpc (Some (JBool b)) r ]
               /\ fst (useLocalRpc host s) = r
               /\ (b = true <-> v = Some (JBool true))).
Proof.
  intros s. unfold useLocalRpc, mbind, M_bind. rewrite phase_call_spec.
  destruct (config_get H host "nuclide.useLocalRpc" (atom s)) as [[v|err] a1]; simpl.
  - rewrite phase_call_spec. simpl. eexists. rewrite <- app_assoc.
    split; [reflexivity|]. right.
    assert (Hb : exists b, _shouldUseLocalRpc v = Some (JBool b)
                           /\ (b = true <-> v = Some (JBool true))).
    { destruct v as [[|b| | | |]|]; try (exists false; split; [reflexivity|];
        split; discriminate).
      exists b. split; [reflexivity|]. split; [now intros -> | now intros [= ->]]. }
    destruct Hb as (b & Hb & Hiff). rewrite Hb. eauto 10.
  - eexists. split; [reflexivity|]. left. eauto.
Qed.

(** X20: [serialize] never throws.  It makes one attempt for every feature, in
    order: the active package of that name is looked up and, if there is
    one, serialized; an exception from either call is caught and followed by
    its line on the console, and the remaining features are attempted all
    the same. *)
Theorem serialize_attempts_every_feature :
  forall s : State H,
    exists (atom' : H) (attempts : list (list Event)),
      Forall2 Attempt (Obj.keys features) attempts
      /\ serialize host features s = (Return tt, after s atom' (concat attempts)).
Proof.
  unfold serialize. induction (Obj.keys features) as [|name names IH]; intros s; simpl.
  - exists (atom s), []. split; [constructor|]. simpl. now rewrite phase_after_nil.
  - assert (Hone : exists atom' events,
               Attempt name events
               /\ safeSerialize host name s = (Return tt, after s atom' events)).
    { unfold safeSerialize, try_catch, mbind, M_bind. rewrite phase_call_spec.
      destruct (packages_getActivePackage H host name (atom s))
        as [[[pack|]|err] a1]; simpl.
      - rewrite phase_call_spec. simpl.
        destruct (packages_serializePackage H host pack a1) as [[[]|err] a2]; simpl.
        + exists a2. eexists. split; [apply (attempt_serialized _ pack)|].
          now rewrite phase_after_after.
        + exists a2. eexists. split; [apply (attempt_serialize_threw _ pack err)|].
          unfold console_error, after. simpl. now rewrite <- !app_assoc.
      - exists a1. eexists. split; [apply attempt_not_active|]. reflexivity.
      - exists a1. eexists. split; [apply (attempt_lookup_threw _ err)|].
        unfold console_error, after. simpl. now rewrite <- !app_assoc. }
    destruct Hone as (a1 & events & Hattempt & Hrun).
    unfold mbind, M_bind. rewrite Hrun.
    destruct (IH (after s a1 events)) as (a2 & attempts & Hall & Hrest).
    exists a2, (events :: attempts). split; [now constructor|].
    rewrite Hrest, phase_after_after. reflexivity.
Qed.

Lemma defaultOf_built (config : Obj Json) (name : string) (feature : Loader.Feature) :
  Loader.buildConfig features = Return config ->
  (forall feature, Obj.get "use" features = Some feature ->
                   Loader.pkgConfigOf (Loader.pkg feature) = Return None) ->
  Obj.get name features = Some feature ->
  defaultOf config name = Return (Some (JBool (negb (startsWith name "sample-")))).
Proof.
  intros Hbuilt Huse Hfeature.
  assert (Hdeclared : forall name feature,
             Obj.get name features = Some feature ->
             exists pkgConfig,
               Loader.pkgConfigOf (Loader.pkg feature) = Return pkgConfig).
  { intros n f Hf.
    destruct (LoaderProps.pkgConfigOf_outcome (Loader.pkg f)) as [Hyes _].
    apply Hyes.
    destruct (LoaderProps.hasConfigSection_dec (Loader.pkg f)) as [Hsec|Hsec];
      [exact Hsec | exfalso].
    destruct (LoaderProps.forEachFeature_outcome features (Obj.keys features)
                Loader.config) as [_ Hthrows];
      [auto | do 2 eexists; split; reflexivity|].
    unfold Loader.buildConfig in Hbuilt. rewrite Hthrows in Hbuilt; [discriminate|].
    exists n, f. split; [apply ObjProps.get_keys; eauto | auto]. }
  destruct (LoaderProps.forEachFeature_spec features Hdeclared Huse
              (Obj.keys features) Loader.config)
    as (config' & Hrun & _ & Hall & _); [auto | do 2 eexists; split; reflexivity|].
  unfold Loader.buildConfig in Hbuilt. rewrite Hrun in Hbuilt. injection Hbuilt as <-.
  assert (Hin : name ∈ Obj.keys features) by (apply ObjProps.get_keys; eauto).
  destruct (Hall _ Hin _ Hfeature) as [Hentry _].
  unfold defaultOf. rewrite Hentry.
  now destruct (LoaderProps.enableSetting_type_default name (Loader.pkg feature))
    as [_ ->].
Qed.

Lemma loadFeature_Return (config : Obj Json) (name : string) (s s' : State H) :
  (forall feature, Obj.get name features = Some feature ->
     defaultOf config name
     = Return (Some (JBool (negb (startsWith name "sample-"))))) ->
  loadFeature host features config name s = (Return tt, s') ->
  exists atom' events, Loading features name events /\ s' = after s atom' events.
Proof.
  intros Hdefault. unfold loadFeature.
  destruct (Obj.get name features) as [feature|] eqn:Hget; [|discriminate].
  specialize (Hdefault _ eq_refl). intros Hrun.
  apply phase_bind_Return in Hrun as (v & s1 & Hv & Hrun).
  apply phase_call_Return in Hv as [a1 ->].
  apply phase_bind_Return in Hrun as (shouldEnable & s2 & Hshould & Hrun).
  assert (Hs : s2 = after s a1 [ConfigGet (Loader.useKeyPath feature) (Return v)]
               /\ truthy shouldEnable = enabledBy name v).
  { destruct v as [v|].
    - injection Hshould as <- <-. auto.
    - unfold eval in Hshould. rewrite Hdefault in Hshould.
      injection Hshould as <- <-. auto. }
  destruct Hs as [-> Htruthy]. rewrite Htruthy in Hrun.
  destruct (enabledBy name v) eqn:Henabled.
  - apply phase_call_Return in Hrun as [a2 ->]. rewrite phase_after_after.
    exists a2. eexists. split; [|reflexivity]. now apply loading_loaded.
  - injection Hrun as <-. exists a1. eexists. split; [|reflexivity].
    now apply loading_skipped.
Qed.

(** X21: When the editor reports that 'nuclide' is loaded, and the schema is the
    one built from the features (none of them a feature 'use' with a config
    of its own), a callback that returns has done this: for each feature in
    turn it has read the setting 'nuclide.use.<name>' and loaded the package
    in the feature's directory if and only if the value read is truthy or,
    no value being set, the feature is not a sample ('sample-...'); then it
    has disposed of its own subscription and reset
    [initialLoadDisposable]. *)
Theorem nuclide_load_loads_enabled_features :
  forall (config : Obj Json) (s s' : State H),
    Loader.buildConfig features = Return config ->
    (forall feature, Obj.get "use" features = Some feature ->
                     Loader.pkgConfigOf (Loader.pkg feature) = Return None) ->
    onDidLoadPackage_callback host features config (mkLoadedPackage "nuclide") s
    = (Return tt, s') ->
    exists (loadings : list (list Event)) (d : Loader.Disposable) (atom' : H),
      Forall2 (Loading features) (Obj.keys features) loadings
      /\ initialLoadDisposable s = Some d
      /\ s' = {| initialLoadDisposable := None;
                 atom := atom';
                 trace := trace s ++ concat loadings ++ [Dispose d (Return tt)] |}.
Proof.
  intros config s s' Hbuilt Huse. unfold onDidLoadPackage_callback. simpl.
  intros Hrun. apply phase_bind_Return in Hrun as ([] & s1 & Hloop & Hrun).
  assert (Hloadings : exists atom' loadings,
             Forall2 (Loading features) (Obj.keys features) loadings
             /\ s1 = after s atom' (concat loadings)).
  { clear Hrun. revert s Hloop.
    assert (Hnames : forall name, name ∈ Obj.keys features ->
                                  name ∈ Obj.keys features) by auto.
    revert Hnames. generalize (Obj.keys features) at 1 3 4.
    intros names. induction names as [|name names IH]; intros Hnames s Hloop;
      simpl in Hloop.
    - injection Hloop as <-. exists (atom s), []. split; [constructor|].
      now rewrite phase_after_nil.
    - apply phase_bind_Return in Hloop as ([] & s0 & Hname & Hloop).
      apply loadFeature_Return in Hname as (a1 & events & Hevents & ->).
      2:{ intros feature Hfeature. eapply defaultOf_built; eauto. }
      apply IH in Hloop as (a2 & loadings & Hall & ->).
      2:{ intros n Hn. apply Hnames. now right. }
      exists a2, (events :: loadings). split; [now constructor|].
      now rewrite phase_after_after. }
  destruct Hloadings as (a1 & loadings & Hall & ->).
  apply phase_bind_Return in Hrun as (d & s2 & Hd & Hrun).
  injection Hd as <- <-. simpl in Hrun.
  destruct (initialLoadDisposable s) as [d|] eqn:Hsub; [|discriminate].
  apply phase_bind_Return in Hrun as ([] & s3 & Hdispose & Hrun).
  apply phase_call_Return in Hdispose as [a2 ->].
  injection Hrun as <-. exists loadings, d, a2. split; [exact Hall|].
  split; [reflexivity|]. simpl. now rewrite <- app_assoc.
Qed.

Lemma loadFeature_keeps_subscription (config : Obj Json) (names : list string)
    (s s' : State H) (r : Outcome unit) :
  forEach names (loadFeature host features config) s = (r, s') ->
  initialLoadDisposable s' = initialLoadDisposable s
  /\ exists events, trace s' = trace s ++ events.
Proof.
  revert s. induction names as [|name names IH]; intros s; simpl.
  - intros [= <- <-]. split; [reflexivity|]. exists []. now rewrite app_nil_r.
  - unfold mbind, M_bind.
    destruct (loadFeature host features config name s) as [r1 s1] eqn:Hname.
    assert (Hs1 : initialLoadDisposable s1 = initialLoadDisposable s
                  /\ exists events, trace s1 = trace s ++ events).
    { revert Hname. unfold loadFeature.
      destruct (Obj.get name features) as [feature|];
        [|intros [= <- <-]; split; [reflexivity|]; exists []; now rewrite app_nil_r].
      unfold mbind, M_bind. rewrite phase_call_spec.
      destruct (config_get H host _ (atom s)) as [[v|e] a1]; simpl;
        [|intros [= <- <-]; simpl; eauto].
      set (s0 := after s a1 _).
      assert (Hshould : forall (shouldEnable : option Json),
                 (if truthy shouldEnable
                  then call (packages_loadPackage H host (Loader.dirname feature))
                            (LoadPackage (Loader.dirname feature))
                  else mret tt) s0 = (r1, s1) ->
                 initialLoadDisposable s1 = initialLoadDisposable s
                 /\ exists events, trace s1 = trace s ++ events).
      { intros shouldEnable. destruct (truthy shouldEnable).
        - rewrite phase_call_spec. intros [= <- <-]. simpl.
          rewrite <- app_assoc. eauto.
        - intros [= <- <-]. simpl. eauto. }
      destruct v as [v|]; [apply Hshould|].
      unfold eval. destruct (defaultOf config name) as [v|e]; [apply Hshould|].
      intros [= <- <-]. simpl. eauto. }
    destruct Hs1 as [Hsub1 [e1 He1]].
    destruct r1 as [[]|e].
    + intros Hrest. apply IH in Hrest as [Hsub [e2 He2]].
      split; [congruence|]. exists (e1 ++ e2). now rewrite He2, He1, app_assoc.
    + intros [= <- <-]. eauto.
Qed.

(** X22: The callback gives up its subscription exactly when its work is done.
    For a package other than 'nuclide' it makes no call and leaves
    everything as it is.  For 'nuclide', if it returns, the last thing it
    did was to dispose of the subscription, and [initialLoadDisposable] is
    null; if it throws (reading a setting, loading a package or disposing),
    [initialLoadDisposable] is still set. *)
Theorem callback_keeps_subscription_until_done :
  forall (config : Obj Json) (pack : LoadedPackage) (s : State H)
         (d : Loader.Disposable),
    initialLoadDisposable s = Some d ->
    let (r, s') := onDidLoadPackage_callback host features config pack s in
    if String.eqb (name pack) "nuclide" then
      match r with
      | Return _ =>
          initialLoadDisposable s' = None
          /\ exists events, trace s' = trace s ++ events ++ [Dispose d (Return tt)]
      | Throw _ => initialLoadDisposable s' = Some d
      end
    else r = Return tt /\ s' = s.
Proof.
  intros config pack s d Hsub. unfold onDidLoadPackage_callback.
  destruct (String.eqb (name pack) "nuclide"); simpl; [|auto].
  unfold mbind, M_bind.
  destruct (forEach (Obj.keys features) (loadFeature host features config) s)
    as [r1 s1] eqn:Hloop.
  apply loadFeature_keeps_subscription in Hloop as [Hsub1 [e1 He1]].
  destruct r1 as [[]|e]; [|congruence].
  unfold get_initialLoadDisposable. rewrite Hsub1, Hsub, phase_call_spec.
  destruct (Disposable_dispose H host d (atom s1)) as [[[]|e] a2]; simpl.
  - split; [reflexivity|]. exists e1. now rewrite He1, <- app_assoc.
  - congruence.
Qed.

End Phases.

Lemma callback_keeps_subscription_until_done_witness :
  (let (r, s') :=
     onDidLoadPackage_callback Examples.phases_host Examples.sample_features
       Examples.sample_config (mkLoadedPackage "language-javascript")
       Examples.phases_state in
   r = Return tt /\ s' = Examples.phases_state)
  /\ (let (r, s') :=
        onDidLoadPackage_callback Examples.phases_host Examples.sample_features
          Examples.sample_config (mkLoadedPackage "nuclide")
          Examples.phases_state in
      match r with
      | Return _ =>
          initialLoadDisposable s' = None
          /\ exists events,
               trace s' = trace Examples.phases_state ++ events
                          ++ [Dispose 4%nat (Return tt)]
      | Throw _ => initialLoadDisposable s' = Some 4%nat
      end).
Proof.
  split.
  - apply (callback_keeps_subscription_until_done Examples.phases_host
             Examples.sample_features Examples.sample_config
             (mkLoadedPackage "language-javascript") Examples.phases_state 4%nat).
    reflexivity.
  - apply (callback_keeps_subscription_until_done Examples.phases_host
             Examples.sample_features Examples.sample_config
             (mkLoadedPackage "nuclide") Examples.phases_state 4%nat).
    reflexivity.
Defined.

Lemma nuclide_load_loads_enabled_features_witness :
  exists (loadings : list (list Event)) (d : Loader.Disposable) (atom' : Obj Json),
    Forall2 (Loading Examples.sample_features)
            (Obj.keys Examples.sample_features) loadings
    /\ initialLoadDisposable Examples.phases_state = Some d
    /\ snd (onDidLoadPackage_callback Examples.phases_host Examples.sample_features
              Examples.sample_config (mkLoadedPackage "nuclide")
              Examples.phases_state)
       = {| initialLoadDisposable := None;
            atom := atom';
            trace := trace Examples.phases_state ++ concat loadings
                     ++ [Dispose d (Return tt)] |}.
Proof.
  apply (nuclide_load_loads_enabled_features Examples.phases_host
           Examples.sample_features Examples.sample_config Examples.phases_state).
  - vm_compute. reflexivity.
  - intros feature Hfeature. LoaderProps.inspect_get Hfeature.
  - vm_compute. reflexivity.
Defined.

(** On the sample: with nothing set for it the debugger is loaded, by the
    default of the schema; the sample feature is loaded because the user
    has switched it on. *)
Example sample_load :
  trace (snd (onDidLoadPackage_callback Examples.phases_host Examples.sample_features
                Examples.sample_config (mkLoadedPackage "nuclide")
                Examples.phases_state))
  = [ ConfigGet "nuclide.use.nuclide-debugger" (Return None);
      LoadPackage ["pkg"; "nuclide-debugger"] (Return tt);
      ConfigGet "nuclide.use.sample-hello" (Return (Some (JBool true)));
      LoadPackage ["pkg"; "sample-hello"] (Return tt);
      Dispose 4%nat (Return tt) ]
  /\ trace (snd (useLocalRpc Examples.phases_host Examples.phases_state))
     = [ ConfigGet "nuclide.useLocalRpc" (Return (Some (JStr "true")));
         SetUseLocalRpc (Some (JBool false)) (Return tt) ]
  /\ trace (snd (serialize Examples.phases_host Examples.sample_features
                   Examples.phases_state))
     = [ GetActivePackage "nuclide-debugger"
           (Return (Some (Loader.mkPackage "defer:nuclide-debugger")));
         SerializePackage (Loader.mkPackage "defer:nuclide-debugger")
           (Throw (mkError None "cannot serialize"));
         ConsoleError (serializingMessage "nuclide-debugger"
                         (mkError None "cannot serialize"));
         GetActivePackage "sample-hello"
           (Return (Some (Loader.mkPackage "defer:sample-hello")));
         SerializePackage (Loader.mkPackage "defer:sample-hello") (Return tt) ].
Proof. vm_compute. repeat split. Qed.

End LoaderPhasesProps.

(** ** observePaneItemVisibility.js *)

Module VisibilityProps.
Import Visibility.

(** *** The operators *)

Section Operators.

Context {A B : Type}.

Lemma scan_tick_snd (f : B -> A -> B) (acc : B) (xs : list A) :
  snd (scan_tick f acc xs) = fold_left f xs acc.
Proof.
  revert acc. induction xs as [|x xs IH]; intros acc; simpl; [reflexivity|].
  specialize (IH (f acc x)). destruct (scan_tick f (f acc x) xs). exact IH.
Qed.

Lemma scan_tick_last (f : B -> A -> B) (acc : B) (xs : list A) :
  last (fst (scan_tick f acc xs))
  = match xs with
    | [] => None
    | _ => Some (fold_left f xs acc)
    end.
Proof.
  revert acc. induction xs as [|x xs IH]; intros acc; simpl; [reflexivity|].
  specialize (IH (f acc x)). destruct (scan_tick f (f acc x) xs) as [out final].
  simpl in *. destruct xs as [|y xs].
  - apply last_None in IH as ->. reflexivity.
  - destruct out as [|z out]; [discriminate|]. rewrite last_cons, IH. reflexivity.
Qed.

(** What [debounceTime] lets through of a [scan] is, at every tick, the
    accumulator as the activations up to that tick have left it. *)
Lemma debounce_scan (f : B -> A -> B) (timeline : list Tick) (source : Signal A)
    (acc : B) (pending : option B) (k : nat) (xs : list B) (x : B) :
  (forall y, pending = Some y -> y = acc) ->
  debounceTime pending timeline (scan f acc source) !! k = Some xs ->
  x ∈ xs ->
  x = fold_left f (concat (take (S k) source)) acc.
Proof.
  revert source acc pending k.
  induction timeline as [|tick timeline IH]; intros source acc pending k Hpending;
    [discriminate|].
  destruct source as [|ys source]; [discriminate|]. simpl.
  pose proof (scan_tick_snd f acc ys) as Hsnd.
  pose proof (scan_tick_last f acc ys) as Hlast.
  destruct (scan_tick f acc ys) as [out acc']. simpl in Hsnd, Hlast. subst acc'.
  set (pending' := match last out with Some y => Some y | None => pending end).
  assert (Hpending' : forall y, pending' = Some y -> y = fold_left f ys acc).
  { intros y. subst pending'. rewrite Hlast. destruct ys; [apply Hpending|].
    now intros [= <-]. }
  rewrite fold_left_app.
  destruct (isAnimationFrame tick).
  - destruct k as [|k].
    + simpl.
      destruct pending' as [y|]; intros [= <-] Hx.
      * apply list_elem_of_singleton in Hx as ->. now apply Hpending'.
      * inversion Hx.
    + assert (Hrest : debounceTime None timeline (scan f (fold_left f ys acc) source)
                      !! k = Some xs -> x ∈ xs ->
                      x = fold_left f (concat (take (S k) source)) (fold_left f ys acc)).
      { apply IH. discriminate. }
      destruct pending'; exact Hrest.
  - destruct k as [|k].
    + simpl. intros [= <-] Hx. inversion Hx.
    + apply IH. exact Hpending'.
Qed.

Lemma map_lookup (f : A -> B) (source : Signal A) (k : nat) :
  map_ f source !! k = map f <$> source !! k.
Proof. unfold map_. apply list_lookup_fmap. Qed.

End Operators.

Section Distinct.

Context {A : Type} `{EqDecision A}.

Lemma distinct_tick_spec (previous : option A) (xs : list A) :
  let (out, final) := distinct_tick previous xs in
  NoRepeat previous out
  /\ final = match last out with Some x => Some x | None => previous end
  /\ (forall x, x ∈ out -> x ∈ xs)
  /\ (forall x, last xs = Some x -> final = Some x).
Proof.
  revert previous. induction xs as [|x xs IH]; intros previous; simpl.
  - repeat split; auto. discriminate.
  - case_bool_decide as Hsame.
    + specialize (IH previous). destruct (distinct_tick previous xs) as [out final].
      destruct IH as (Hno & Hfinal & Hsub & Hlast). repeat split; auto.
      * intros y Hy. right. auto.
      * intros y. destruct xs as [|z xs]; [|exact (Hlast y)].
        simpl in *. intros [= <-]. destruct out; [|exfalso].
        -- simpl in Hfinal. congruence.
        -- pose proof (Hsub a (list_elem_of_here _ _)) as Hin. inversion Hin.
    + specialize (IH (Some x)). destruct (distinct_tick (Some x) xs) as [out final].
      destruct IH as (Hno & Hfinal & Hsub & Hlast). repeat split; auto.
      * rewrite Hfinal. destruct out as [|y out]; [reflexivity|].
        change (last (x :: y :: out)) with (last (y :: out)).
        destruct (last (y :: out)) eqn:E; [reflexivity|].
        apply last_None in E. discriminate.
      * intros y Hy. apply elem_of_cons in Hy as [->|Hy]; [left | right; auto].
      * intros y. destruct xs as [|z xs]; [|exact (Hlast y)].
        simpl in *. intros [= <-]. destruct out; [|exfalso].
        -- simpl in Hfinal. congruence.
        -- pose proof (Hsub a (list_elem_of_here _ _)) as Hin. inversion Hin.
Qed.

Lemma NoRepeat_app (previous : option A) (l1 l2 : list A) :
  NoRepeat previous l1 ->
  NoRepeat (match last l1 with Some x => Some x | None => previous end) l2 ->
  NoRepeat previous (l1 ++ l2).
Proof.
  revert previous. induction l1 as [|x l1 IH]; intros previous; simpl; [auto|].
  intros [Hx Hl1] Hl2. split; [exact Hx|]. apply IH; [exact Hl1|].
  destruct l1 as [|y l1]; [exact Hl2|].
  change (last (x :: y :: l1)) with (last (y :: l1)) in Hl2.
  destruct (last (y :: l1)) eqn:E; [exact Hl2|].
  apply last_None in E. discriminate.
Qed.

Lemma distinctUntilChanged_NoRepeat (previous : option A) (source : Signal A) :
  NoRepeat previous (concat (distinctUntilChanged previous source)).
Proof.
  revert previous. induction source as [|xs source IH]; intros previous; simpl; [exact I|].
  pose proof (distinct_tick_spec previous xs) as Hspec.
  destruct (distinct_tick previous xs) as [out final].
  destruct Hspec as (Hno & -> & _). simpl. apply NoRepeat_app; auto.
Qed.

Lemma NoRepeat_adjacent (previous : option A) (l before after : list A) (x y : A) :
  NoRepeat previous l -> l = before ++ x :: y :: after -> x <> y.
Proof.
  revert previous l. induction before as [|z before IH]; intros previous l Hno ->.
  - simpl in Hno. destruct Hno as (_ & Hy & _). congruence.
  - simpl in Hno. destruct Hno as [_ Hno]. eapply IH; eauto.
Qed.

Lemma distinctUntilChanged_lookup (previous : option A) (source : Signal A)
    (k : nat) (ys : list A) :
  distinctUntilChanged previous source !! k = Some ys ->
  exists xs, source !! k = Some xs /\ forall y, y ∈ ys -> y ∈ xs.
Proof.
  revert previous k. induction source as [|xs source IH]; intros previous k; simpl;
    [discriminate|].
  pose proof (distinct_tick_spec previous xs) as Hspec.
  destruct (distinct_tick previous xs) as [out final].
  destruct Hspec as (_ & _ & Hsub & _).
  destruct k as [|k]; simpl.
  - intros [= <-]. eauto.
  - apply IH.
Qed.

(** After any tick at which the source delivered something, the last value
    let through is the last value the source delivered. *)
Lemma distinctUntilChanged_last (previous : option A) (source : Signal A) (x : A) :
  last (concat source) = Some x ->
  match last (concat (distinctUntilChanged previous source)) with
  | Some y => y = x
  | None => previous = Some x
  end.
Proof.
  revert previous. induction source as [|xs source IH]; intros previous; simpl;
    [discriminate|].
  pose proof (distinct_tick_spec previous xs) as Hspec.
  destruct (distinct_tick previous xs) as [out final].
  destruct Hspec as (_ & Hfinal & _ & Hlast). simpl.
  rewrite !last_app. intros Hx.
  destruct (last (concat source)) as [z|] eqn:Hz.
  - injection Hx as ->. specialize (IH final eq_refl).
    destruct (last (concat (distinctUntilChanged final source))) as [y|]; [exact IH|].
    rewrite Hfinal in IH. destruct (last out); [now injection IH | exact IH].
  - assert (Hnone : concat (distinctUntilChanged final source) = []).
    { apply last_None in Hz. clear -Hz. revert final.
      induction source as [|ys source IH]; intros final; simpl; [reflexivity|].
      simpl in Hz. apply app_eq_nil in Hz as [-> Hz]. simpl. now rewrite IH. }
    rewrite Hnone. simpl. specialize (Hlast _ Hx). rewrite Hfinal in Hlast.
    destruct (last out); [now injection Hlast | exact Hlast].
Qed.

End Distinct.

(** *** The map of active items *)

Section ActiveItems.

Variable containers : list PaneContainer.

Lemma itemActivations_app (live : list Pane) (t1 t2 : list Tick) :
  itemActivations containers live (t1 ++ t2)
  = itemActivations containers live t1
    ++ itemActivations containers (liveAfter containers live t1) t2.
Proof.
  revert live. induction t1 as [|tick t1 IH]; intros live; [reflexivity|].
  destruct tick; simpl; now rewrite IH.
Qed.

Lemma liveAfter_app (live : list Pane) (t1 t2 : list Tick) :
  liveAfter containers live (t1 ++ t2)
  = liveAfter containers (liveAfter containers live t1) t2.
Proof.
  revert live. induction t1 as [|tick t1 IH]; intros live; [reflexivity|].
  destruct tick; simpl; now rewrite IH.
Qed.

Lemma take_itemActivations (live : list Pane) (timeline : list Tick) (n : nat) :
  take n (itemActivations containers live timeline)
  = itemActivations containers live (take n timeline).
Proof.
  revert live n. induction timeline as [|tick timeline IH]; intros live n.
  - now destruct n.
  - destruct n as [|n]; [reflexivity|]. destruct tick; simpl; now rewrite IH.
Qed.

Lemma length_itemActivations (live : list Pane) (timeline : list Tick) :
  List.length (itemActivations containers live timeline) = List.length timeline.
Proof.
  revert live. induction timeline as [|tick timeline IH]; intros live; [reflexivity|].
  destruct tick; simpl; now rewrite IH.
Qed.

Lemma subscriptions_pos (pane : Pane) (live : list Pane) :
  subscriptions pane live <> 0%nat <-> pane ∈ live.
Proof.
  unfold subscriptions. induction live as [|p live IH]; simpl.
  - split; [congruence | intros H; inversion H].
  - rewrite filter_cons. destruct (decide (p = pane)) as [->|Hne]; simpl.
    + split; [left | discriminate].
    + rewrite IH, elem_of_cons. split; [auto | intros [?|?]; congruence].
Qed.

Lemma setActiveItem_idem (acc : gmap Pane Item) (a : Activation) :
  setActiveItem (setActiveItem acc a) a = setActiveItem acc a.
Proof.
  unfold setActiveItem. destruct (item a).
  - apply insert_insert_eq.
  - apply delete_delete_eq.
Qed.

Lemma fold_left_replicate (n : nat) (a : Activation) (acc : gmap Pane Item) :
  fold_left setActiveItem (replicate n a) acc
  = if decide (n = 0%nat) then acc else setActiveItem acc a.
Proof.
  destruct n as [|n]; [reflexivity|]. simpl.
  revert acc. induction n as [|n IH]; intros acc; [reflexivity|].
  simpl. rewrite setActiveItem_idem. apply IH.
Qed.

(** The panes with a subscription are the observed ones. *)
Lemma Observed_nil (pane : Pane) : ~ Observed containers [] pane.
Proof. intros H. inversion H as [tl ? ? ? E|tl ? ? ? ? E]; now destruct tl. Qed.

Lemma Observed_snoc (timeline : list Tick) (tick : Tick) (pane : Pane) :
  Observed containers (timeline ++ [tick]) pane
  <-> (exists container, tick = observePanes_callback container pane
                         /\ container ∈ containers)
      \/ (Observed containers timeline pane /\ tick <> onDidDestroy_callback pane).
Proof.
  split.
  - intros H. inversion H as [tl c p Hc E|tl t p Hobs Hne E];
      apply app_inj_tail in E as [-> <-]; subst; eauto.
  - intros [(c & -> & Hc)|[Hobs Hne]]; [now constructor | now apply observed_before].
Qed.

Lemma liveAfter_Observed (timeline : list Tick) (pane : Pane) :
  pane ∈ liveAfter containers [] timeline <-> Observed containers timeline pane.
Proof.
  induction timeline as [|tick timeline IH] using rev_ind.
  - simpl. split; [intros H; inversion H | intros H; now apply Observed_nil in H].
  - rewrite liveAfter_app, Observed_snoc, <- IH. destruct tick as [c p|p i|p|]; simpl.
    + rewrite elem_of_app, elem_of_replicate. split.
      * intros [[-> Hn]|Hin]; [left | right; split; [auto | discriminate]].
        exists c. split; [reflexivity|].
        destruct (filter (λ c0, c0 = c) containers) as [|c' l] eqn:E; [simpl in Hn; lia|].
        assert (Hc' : c' ∈ filter (λ c0, c0 = c) containers) by (rewrite E; left).
        apply list_elem_of_filter in Hc' as [-> Hc']. exact Hc'.
      * intros [(c' & [= <- <-] & Hc)|[Hin _]]; [left | now right].
        split; [reflexivity|]. intros Hlen. apply length_zero_iff_nil in Hlen.
        assert (Hc' : c ∈ filter (λ c0, c0 = c) containers)
          by (apply list_elem_of_filter; auto).
        rewrite Hlen in Hc'. inversion Hc'.
    + split; [intros Hin; right; split; [auto | discriminate]|].
      intros [(c & [=] & _)|[Hin _]]. exact Hin.
    + rewrite list_elem_of_filter. split.
      * intros [Hne Hin]. right. split; [exact Hin | congruence].
      * intros [(c & [=] & _)|[Hin Hne]]. split; [congruence | exact Hin].
    + split; [intros Hin; right; split; [auto | discriminate]|].
      intros [(c & [=] & _)|[Hin _]]. exact Hin.
Qed.

Lemma ActiveItemOf_nil (pane : Pane) (item : Item) :
  ~ ActiveItemOf containers [] pane item.
Proof. intros H. inversion H as [tl ? ? ? E|tl ? ? ? ? ? ? E]; now destruct tl. Qed.

Lemma ActiveItemOf_snoc (timeline : list Tick) (tick : Tick) (pane : Pane) (item : Item) :
  ActiveItemOf containers (timeline ++ [tick]) pane item
  <-> (tick = observeActiveItem_callback pane (Some item)
       /\ Observed containers timeline pane)
      \/ (ActiveItemOf containers timeline pane item
          /\ (forall i, tick <> observeActiveItem_callback pane i)
          /\ tick <> onDidDestroy_callback pane).
Proof.
  split.
  - intros H. inversion H as [tl p i Hobs E|tl t p i Hact Hne1 Hne2 E];
      apply app_inj_tail in E as [-> <-]; subst; [left | right]; auto.
  - intros [[-> Hobs]|(Hact & Hne1 & Hne2)];
      [now constructor | now apply active_before].
Qed.

Lemma ActiveItemOf_Observed (timeline : list Tick) (pane : Pane) (item : Item) :
  ActiveItemOf containers timeline pane item -> Observed containers timeline pane.
Proof.
  induction 1 as [tl p i Hobs|tl t p i Hact IH Hne1 Hne2].
  - apply observed_before; [exact Hobs | discriminate].
  - now apply observed_before.
Qed.

Lemma panesToActiveItemAfter_snoc (seed : gmap Pane Item) (timeline : list Tick)
    (tick : Tick) :
  panesToActiveItemAfter containers seed (timeline ++ [tick])
  = fold_left setActiveItem
      (concat (itemActivations containers (liveAfter containers [] timeline) [tick]))
      (panesToActiveItemAfter containers seed timeline).
Proof.
  unfold panesToActiveItemAfter.
  now rewrite itemActivations_app, concat_app, fold_left_app.
Qed.

(** Over a first connection the map holds, for each pane, the pane's most
    recently reported active item, and nothing for a pane that reported none
    or has been destroyed. *)
Lemma panesToActiveItemAfter_spec (timeline : list Tick) (pane : Pane) (item : Item) :
  panesToActiveItemAfter containers ∅ timeline !! pane = Some item
  <-> ActiveItemOf containers timeline pane item.
Proof.
  revert pane item. induction timeline as [|tick timeline IH] using rev_ind;
    intros pane item.
  - unfold panesToActiveItemAfter. simpl. rewrite lookup_empty.
    split; [discriminate | intros H; now apply ActiveItemOf_nil in H].
  - rewrite panesToActiveItemAfter_snoc, ActiveItemOf_snoc.
    pose proof (liveAfter_Observed timeline) as Hlive.
    destruct tick as [c p|p i|p|]; simpl.
    + rewrite IH. split; [intros H; right; repeat split; auto; discriminate|].
      intros [[[=] _]|[H _]]. exact H.
    + rewrite app_nil_r, fold_left_replicate.
      destruct (decide (subscriptions p (liveAfter containers [] timeline) = 0%nat))
        as [Hzero|Hpos].
      * assert (Hnot : ~ Observed containers timeline p).
        { rewrite <- Hlive, <- subscriptions_pos. auto. }
        rewrite IH. split.
        -- intros Hact. right. split; [exact Hact|]. split; [|discriminate].
           intros j [= -> _]. apply Hnot. eapply ActiveItemOf_Observed; eauto.
        -- intros [[[= <- _] Hobs]|[Hact _]]; [contradiction | exact Hact].
      * assert (Hobs : Observed containers timeline p).
        { rewrite <- Hlive, <- subscriptions_pos. auto. }
        unfold setActiveItem. simpl. destruct (decide (p = pane)) as [->|Hne].
        -- destruct i as [i|].
           ++ rewrite lookup_insert_eq. split.
              ** intros [= ->]. left. auto.
              ** intros [[[= ->] _]|(_ & Hno & _)]; [reflexivity|].
                 now specialize (Hno (Some i)).
           ++ rewrite lookup_delete_eq. split; [discriminate|].
              intros [[[=] _]|(_ & Hno & _)]. now specialize (Hno None).
        -- assert (Hsame : (match i with
                            | Some i0 => <[p:=i0]> (panesToActiveItemAfter containers ∅ timeline)
                            | None => delete p (panesToActiveItemAfter containers ∅ timeline)
                            end) !! pane
                           = panesToActiveItemAfter containers ∅ timeline !! pane).
           { destruct i; [now apply lookup_insert_ne | now apply lookup_delete_ne]. }
           rewrite Hsame, IH. split.
           ++ intros Hact. right. split; [exact Hact|]. split; [|discriminate].
              intros j [= -> _]. congruence.
           ++ intros [[[= -> _] _]|[Hact _]]; [congruence | exact Hact].
    + rewrite app_nil_r, fold_left_replicate.
      destruct (decide (subscriptions p (liveAfter containers [] timeline) = 0%nat))
        as [Hzero|Hpos].
      * assert (Hnot : ~ Observed containers timeline p).
        { rewrite <- Hlive, <- subscriptions_pos. auto. }
        rewrite IH. split.
        -- intros Hact. right. split; [exact Hact|]. split; [discriminate|].
           intros [= ->]. apply Hnot. eapply ActiveItemOf_Observed; eauto.
        -- intros [[[=] _]|[Hact _]]. exact Hact.
      * unfold setActiveItem. simpl. destruct (decide (p = pane)) as [->|Hne].
        -- rewrite lookup_delete_eq. split; [discriminate|].
           intros [[[=] _]|(_ & _ & Hno)]. congruence.
        -- rewrite lookup_delete_ne by exact Hne. rewrite IH. split.
           ++ intros Hact. right. split; [exact Hact|]. split; [discriminate|].
              congruence.
           ++ intros [[[=] _]|[Hact _]]. exact Hact.
    + rewrite IH. split; [intros H; right; repeat split; auto; discriminate|].
      intros [[[=] _]|[H _]]. exact H.
Qed.

Lemma elem_of_values (acc : gmap Pane Item) (item : Item) :
  item ∈ values acc <-> exists pane, acc !! pane = Some item.
Proof.
  unfold values. rewrite list_elem_of_fmap. split.
  - intros ([p i] & -> & Hin). apply elem_of_map_to_list in Hin. eauto.
  - intros [p Hp]. exists (p, item). split; [reflexivity|].
    now apply elem_of_map_to_list.
Qed.

End ActiveItems.

(** *** The observable *)

Lemma debounceTime_frames {A} (pending : option A) (timeline : list Tick)
    (source : Signal A) (k : nat) (xs : list A) :
  debounceTime pending timeline source !! k = Some xs ->
  xs <> [] ->
  timeline !! k = Some animationFrame.
Proof.
  revert pending source k. induction timeline as [|tick timeline IH];
    intros pending source k; [discriminate|].
  destruct source as [|ys source]; [discriminate|]. simpl.
  destruct tick; simpl; destruct k as [|k]; simpl;
    try (intros [= <-] Hne; congruence); try apply IH.
  - reflexivity.
  - destruct (match last ys with Some x => Some x | None => pending end);
      apply IH.
Qed.

Lemma take_distinctUntilChanged {A} `{EqDecision A} (previous : option A)
    (source : Signal A) (n : nat) :
  take n (distinctUntilChanged previous source)
  = distinctUntilChanged previous (take n source).
Proof.
  revert previous n. induction source as [|xs source IH]; intros previous n.
  - now destruct n.
  - destruct n as [|n]; [reflexivity|]. simpl.
    destruct (distinct_tick previous xs) as [out final]. simpl. now rewrite IH.
Qed.

Lemma observeActiveItems_lookup (containers : list PaneContainer)
    (earlier : list (list Tick)) (timeline : list Tick) (k : nat)
    (delivered : list (list Item)) (activeItems : list Item) :
  observeActiveItems containers earlier timeline !! k = Some delivered ->
  activeItems ∈ delivered ->
  activeItems
  = values (panesToActiveItemAfter containers (seedAfter containers earlier)
              (take (S k) timeline)).
Proof.
  unfold observeActiveItems. rewrite map_lookup.
  destruct (debounceTime _ _ _ !! k) as [ms|] eqn:Hms; [|discriminate].
  intros [= <-] Hin. apply list_elem_of_fmap in Hin as (m & -> & Hm).
  f_equal. unfold panesToActiveItemAfter.
  rewrite <- take_itemActivations.
  eapply debounce_scan; eauto. discriminate.
Qed.

Lemma received_lookup (containers : list PaneContainer) (item : Item)
    (earlier : list (list Tick)) (since : nat) (timeline : list Tick)
    (k : nat) (bs : list bool) (b : bool) :
  received (observePaneItemVisibility (mkWorkspace (Some containers)) item
              earlier since timeline) !! k = Some bs ->
  b ∈ bs ->
  exists delivered activeItems,
    observeActiveItems containers earlier timeline !! (since + k)%nat
    = Some delivered
    /\ activeItems ∈ delivered
    /\ b = includes activeItems item.
Proof.
  unfold observePaneItemVisibility. simpl. intros Hk Hb.
  apply distinctUntilChanged_lookup in Hk as (xs & Hxs & Hsub).
  specialize (Hsub _ Hb). rewrite map_lookup in Hxs. unfold share in Hxs.
  rewrite lookup_drop in Hxs.
  destruct (observeActiveItems containers earlier timeline !! (since + k)%nat)
    as [delivered|]; [|discriminate].
  injection Hxs as <-. apply list_elem_of_fmap in Hsub as (activeItems & -> & Hin).
  eauto.
Qed.

(** What holds of [observePaneItemVisibility(item)]: take a workspace with
    pane containers, an item, and a subscriber that arrives after [since]
    ticks of a connection.  (a) If the connection is the first one, every
    boolean received is true exactly if, at that tick, the item is the
    active item of some pane: the item that an observed, not since destroyed
    pane reported last.  (b) No boolean received equals the one received just
    before.  (c) Booleans only arrive at animation frames.  (d) Whenever the
    shared source has delivered a list of active items to the subscriber,
    the last boolean received tells whether the item is in the last list
    delivered. *)
Theorem subscription_tracks_active_items :
  forall (containers : list PaneContainer) (item : Item)
         (earlier : list (list Tick)) (since : nat) (timeline : list Tick),
    let subscription :=
      observePaneItemVisibility (mkWorkspace (Some containers)) item
        earlier since timeline in
    (earlier = [] ->
     forall k bs b,
       received subscription !! k = Some bs -> b ∈ bs ->
       (b = true <->
        exists pane,
          ActiveItemOf containers (take (S (since + k)) timeline) pane item))
    /\ (forall before after b b',
           emitted subscription = before ++ b :: b' :: after -> b <> b')
    /\ (forall k bs,
           received subscription !! k = Some bs -> bs <> [] ->
           timeline !! (since + k)%nat = Some animationFrame)
    /\ (forall n activeItems,
           last (concat (take n (share since
                                   (observeActiveItems containers earlier timeline))))
           = Some activeItems ->
           last (concat (take n (received subscription)))
           = Some (includes activeItems item)).
Proof.
  intros containers item earlier since timeline subscription. repeat split.
  - subst earlier. intros ->.
    destruct (received_lookup _ _ _ _ _ _ _ _ H0 H1)
      as (delivered & activeItems & Hk & Hin & Hb).
    rewrite (observeActiveItems_lookup _ _ _ _ _ _ Hk Hin) in Hb.
    symmetry in Hb. apply bool_decide_eq_true in Hb.
    apply elem_of_values in Hb as [pane Hpane]. exists pane.
    now apply panesToActiveItemAfter_spec.
  - subst earlier. intros [pane Hpane].
    destruct (received_lookup _ _ _ _ _ _ _ _ H0 H1)
      as (delivered & activeItems & Hk & Hin & ->).
    rewrite (observeActiveItems_lookup _ _ _ _ _ _ Hk Hin).
    apply bool_decide_eq_true, elem_of_values. exists pane.
    now apply panesToActiveItemAfter_spec.
  - intros before after b b' Hemitted.
    eapply NoRepeat_adjacent; [|exact Hemitted].
    apply distinctUntilChanged_NoRepeat.
  - intros k bs Hk Hne. subst subscription.
    unfold observePaneItemVisibility in Hk. simpl in Hk.
    apply distinctUntilChanged_lookup in Hk as (xs & Hxs & Hsub).
    rewrite map_lookup in Hxs. unfold share in Hxs. rewrite lookup_drop in Hxs.
    unfold observeActiveItems in Hxs. rewrite map_lookup in Hxs.
    destruct (debounceTime _ _ _ !! (since + k)%nat) as [ms|] eqn:Hms; [|discriminate].
    eapply debounceTime_frames; [exact Hms|].
    intros ->. injection Hxs as <-. destruct bs as [|b bs]; [congruence|].
    specialize (Hsub b ltac:(left)). inversion Hsub.
  - intros n activeItems Hlast. subst subscription.
    unfold observePaneItemVisibility. simpl.
    rewrite take_distinctUntilChanged.
    set (source := take n (map_ _ _)).
    assert (Hsource : last (concat source) = Some (includes activeItems item)).
    { subst source. unfold map_. rewrite firstn_map, <- concat_map.
      set (l := concat _) in *.
      change (last ((fun activeItems => includes activeItems item) <$> l)
              = Some (includes activeItems item)).
      now rewrite fmap_last, Hlast. }
    pose proof (distinctUntilChanged_last None source _ Hsource) as Hd.
    destruct (last (concat (distinctUntilChanged None source))) as [y|];
      [now subst y | discriminate].
Qed.

(** On the sample: item 7 shows at the first frame; at the second frame it is
    still the active item, and nothing is emitted; the pane is destroyed, and
    at the third frame it is gone. *)
Example sample_visibility :
  received (observePaneItemVisibility (mkWorkspace (Some [0%nat])) 7%nat [] 0
                                      sample_timeline)
  = [ []; []; [true]; []; []; []; []; [false] ]
  /\ emitted (observePaneItemVisibility (mkWorkspace (Some [0%nat])) 8%nat [] 0
                                        sample_timeline)
     = [ false ].
Proof. vm_compute. split; reflexivity. Qed.

(** An entry of the [Map] for a pane that no container reports during a
    connection is still there when the connection ends. *)
Lemma stale_entry_stays (containers : list PaneContainer)
    (seed : gmap Pane Item) (timeline : list Tick) (pane : Pane) :
  (forall container, observePanes_callback container pane ∉ timeline) ->
  panesToActiveItemAfter containers seed timeline !! pane = seed !! pane.
Proof.
  intros Hnever. induction timeline as [|tick timeline IH] using rev_ind;
    [reflexivity|].
  rewrite panesToActiveItemAfter_snoc.
  assert (Hbefore : forall container, observePanes_callback container pane ∉ timeline).
  { intros c Hin. apply (Hnever c), elem_of_app. now left. }
  specialize (IH Hbefore).
  assert (Hnot : ~ Observed containers timeline pane).
  { clear -Hbefore. induction timeline as [|t timeline IH] using rev_ind.
    - apply Observed_nil.
    - rewrite Observed_snoc. intros [(c & -> & _)|[Hobs _]].
      + apply (Hbefore c), elem_of_app. right. left.
      + apply IH; [|exact Hobs]. intros c Hin.
        apply (Hbefore c), elem_of_app. now left. }
  rewrite <- liveAfter_Observed, <- subscriptions_pos in Hnot.
  destruct tick as [c p|p i|p|]; simpl; try exact IH.
  - rewrite app_nil_r, fold_left_replicate. case_decide as Hn; [exact IH|].
    destruct (decide (p = pane)) as [->|Hne]; [contradiction|].
    unfold setActiveItem. simpl.
    destruct i; [rewrite lookup_insert_ne | rewrite lookup_delete_ne]; auto.
  - rewrite app_nil_r, fold_left_replicate. case_decide as Hn; [exact IH|].
    destruct (decide (p = pane)) as [->|Hne]; [contradiction|].
    unfold setActiveItem. simpl. rewrite lookup_delete_ne; auto.
Qed.

(** C6 fails on the code after a reconnection.  A first connection sees
    pane 1 show item 7 and ends; pane 1 is destroyed while nobody is
    connected, so no [{pane, item: null}] is ever scanned for it.  The next
    connection starts [scan] on the same [Map], which still has the entry of
    pane 1: a subscriber asking about item 7 receives [true] at the first
    animation frame, although the only pane of the workspace shows item 9 and
    no pane has item 7 as its active item.  (With a fresh [Map] it would
    receive [false].) *)
Lemma stale_pane_reported_visible :
  let workspace := mkWorkspace (Some [0%nat]) in
  emitted (observePaneItemVisibility workspace 7%nat [first_connection] 0
             second_connection)
  = [true]
  /\ (forall pane, ~ ActiveItemOf [0%nat] second_connection pane 7%nat)
  /\ emitted (observePaneItemVisibility workspace 7%nat [] 0 second_connection)
     = [false].
Proof.
  split; [vm_compute; reflexivity|]. split; [|vm_compute; reflexivity].
  intros pane Hactive. apply panesToActiveItemAfter_spec in Hactive.
  assert (Hin : 7%nat ∈ values (panesToActiveItemAfter [0%nat] ∅ second_connection))
    by (apply elem_of_values; eauto).
  vm_compute in Hin. apply list_elem_of_singleton in Hin. discriminate.
Qed.

(** C10: without [getPaneContainers] the observable delivers nothing, at any
    tick, and completes on subscription. *)
Theorem observePaneItemVisibility_without_docks :
  forall (item : Item) (earlier : list (list Tick)) (since : nat)
         (timeline : list Tick),
    let subscription :=
      observePaneItemVisibility (mkWorkspace None) item earlier since timeline in
    emitted subscription = []
    /\ (forall k bs, received subscription !! k = Some bs -> bs = [])
    /\ completedAfter subscription = Some 0%nat.
Proof.
  intros item earlier since timeline subscription. subst subscription.
  unfold observePaneItemVisibility, Observable_empty, emitted. simpl.
  repeat split.
  - induction (drop since timeline) as [|tick l IH]; [reflexivity | exact IH].
  - intros k bs Hk. rewrite list_lookup_fmap in Hk.
    destruct (drop since timeline !! k); [now injection Hk | discriminate].
Qed.

(** *** Further properties of the observable *)

Lemma Observable_empty_received {A} (timeline : list Tick) (k : nat) (xs : list A) :
  received (Observable_empty timeline) !! k = Some xs -> xs = [].
Proof.
  unfold Observable_empty. simpl. change (map (fun _ : Tick => @nil A) timeline)
    with ((fun _ : Tick => @nil A) <$> timeline).
  rewrite list_lookup_fmap. destruct (timeline !! k); [now intros [= <-] | discriminate].
Qed.

Lemma Observable_empty_emitted {A} (timeline : list Tick) :
  emitted (Observable_empty (A:=A) timeline) = [].
Proof.
  unfold emitted, Observable_empty. simpl.
  induction timeline as [|tick timeline IH]; [reflexivity | exact IH].
Qed.

Lemma distinct_tick_length {A} `{EqDecision A} (previous : option A) (xs : list A) :
  (List.length (fst (distinct_tick previous xs)) <= List.length xs)%nat.
Proof.
  revert previous. induction xs as [|x xs IH]; intros previous; simpl; [lia|].
  case_bool_decide.
  - specialize (IH previous). lia.
  - specialize (IH (Some x)). destruct (distinct_tick (Some x) xs). simpl in *. lia.
Qed.

Lemma distinctUntilChanged_length {A} `{EqDecision A} (previous : option A)
    (source : Signal A) (k : nat) (ys : list A) :
  distinctUntilChanged previous source !! k = Some ys ->
  exists xs, source !! k = Some xs /\ (List.length ys <= List.length xs)%nat.
Proof.
  revert previous k. induction source as [|xs source IH]; intros previous k; simpl;
    [discriminate|].
  pose proof (distinct_tick_length previous xs) as Hlen.
  destruct (distinct_tick previous xs) as [out final]. simpl in Hlen.
  destruct k as [|k]; simpl.
  - intros [= <-]. eauto.
  - apply IH.
Qed.

Lemma debounceTime_length {A} (pending : option A) (timeline : list Tick)
    (source : Signal A) (k : nat) (xs : list A) :
  debounceTime pending timeline source !! k = Some xs ->
  (List.length xs <= 1)%nat.
Proof.
  revert pending source k. induction timeline as [|tick timeline IH];
    intros pending source k; [discriminate|].
  destruct source as [|ys source]; [discriminate|]. simpl.
  destruct (isAnimationFrame tick).
  - destruct (match last ys with Some x => Some x | None => pending end);
      destruct k as [|k]; simpl; try apply IH; intros [= <-]; simpl; lia.
  - destruct k as [|k]; simpl; [intros [= <-]; simpl; lia | apply IH].
Qed.

(** X23: Whenever the [Map] that a connection starts from is empty (as on the
    first connection, or when every pane seen by the earlier connections was
    destroyed or left without an item while they lasted), each boolean a
    subscriber receives is true exactly if, at that tick, the item is the
    active item of some pane: the item that an observed, not since destroyed
    pane reported last. *)
Theorem empty_seed_reports_active_items :
  forall (containers : list PaneContainer) (item : Item)
         (earlier : list (list Tick)) (since : nat) (timeline : list Tick)
         (k : nat) (bs : list bool) (b : bool),
    seedAfter containers earlier = ∅ ->
    received (observePaneItemVisibility (mkWorkspace (Some containers)) item
                earlier since timeline) !! k = Some bs ->
    b ∈ bs ->
    (b = true <->
     exists pane,
       ActiveItemOf containers (take (S (since + k)) timeline) pane item).
Proof.
  intros containers item earlier since timeline k bs b Hseed Hk Hb.
  destruct (received_lookup _ _ _ _ _ _ _ _ Hk Hb)
    as (delivered & activeItems & Hk' & Hin & ->).
  rewrite (observeActiveItems_lookup _ _ _ _ _ _ Hk' Hin), Hseed.
  unfold includes. rewrite bool_decide_eq_true, elem_of_values.
  split; intros [pane Hpane]; exists pane; now apply panesToActiveItemAfter_spec.
Qed.

Lemma empty_seed_reports_active_items_witness :
  seedAfter [0%nat] [sample_timeline] = ∅
  /\ (true = true <->
      exists pane, ActiveItemOf [0%nat] (take 3 sample_timeline) pane 7%nat).
Proof.
  split; [vm_compute; reflexivity|].
  apply (empty_seed_reports_active_items [0%nat] 7%nat [sample_timeline] 0
           sample_timeline 2 [true] true).
  - vm_compute. reflexivity.
  - vm_compute. reflexivity.
  - left.
Defined.

(** X24: Whatever the workspace and whatever was there before, no subscriber
    receives the same boolean twice in a row. *)
Theorem emitted_never_repeats :
  forall (workspace : Workspace) (item : Item) (earlier : list (list Tick))
         (since : nat) (timeline : list Tick) (before after : list bool)
         (b b' : bool),
    emitted (observePaneItemVisibility workspace item earlier since timeline)
    = before ++ b :: b' :: after ->
    b <> b'.
Proof.
  intros [[containers|]] item earlier since timeline before after b b'.
  - apply (subscription_tracks_active_items containers item earlier since timeline).
  - unfold observePaneItemVisibility. simpl. rewrite Observable_empty_emitted.
    now destruct before.
Qed.

Lemma emitted_never_repeats_witness : true <> false.
Proof.
  apply (emitted_never_repeats (mkWorkspace (Some [0%nat])) 7%nat [] 0
           sample_timeline [] [] true false).
  vm_compute. reflexivity.
Defined.

(** X25: During one tick a subscriber receives at most one boolean, and it
    receives one only when the tick is an animation frame. *)
Theorem one_value_per_animation_frame :
  forall (workspace : Workspace) (item : Item) (earlier : list (list Tick))
         (since : nat) (timeline : list Tick) (k : nat) (bs : list bool),
    received (observePaneItemVisibility workspace item earlier since timeline) !! k
    = Some bs ->
    bs = []
    \/ (exists b, bs = [b])
       /\ timeline !! (since + k)%nat = Some animationFrame.
Proof.
  intros [[containers|]] item earlier since timeline k bs Hk.
  2:{ left. revert Hk. unfold observePaneItemVisibility. simpl.
      apply Observable_empty_received. }
  destruct bs as [|b bs]; [now left | right]. split.
  - revert Hk. unfold observePaneItemVisibility. simpl. intros Hk.
    apply distinctUntilChanged_length in Hk as (xs & Hxs & Hlen).
    rewrite map_lookup in Hxs. unfold share in Hxs. rewrite lookup_drop in Hxs.
    unfold observeActiveItems in Hxs. rewrite map_lookup in Hxs.
    destruct (debounceTime _ _ _ !! (since + k)%nat) as [ms|] eqn:Hms; [|discriminate].
    apply debounceTime_length in Hms. injection Hxs as <-.
    rewrite !length_map in Hlen. simpl in Hlen.
    exists b. destruct bs; [reflexivity | simpl in Hlen; lia].
  - eapply (subscription_tracks_active_items containers item earlier since timeline);
      [exact Hk | discriminate].
Qed.

Lemma one_value_per_animation_frame_witness :
  [true] = []
  \/ (exists b, [true] = [b])
     /\ sample_timeline !! (0 + 2)%nat = Some animationFrame.
Proof.
  apply (one_value_per_animation_frame (mkWorkspace (Some [0%nat])) 7%nat [] 0
           sample_timeline 2 [true]).
  vm_compute. reflexivity.
Defined.

(** X26: Whenever the shared source has delivered a list of active items to a
    subscriber, the last boolean the subscriber has received tells whether
    the item is in the last list delivered: a change that the source
    delivers is never lost, also when several arrive between two frames. *)
Theorem last_received_agrees_with_source :
  forall (containers : list PaneContainer) (item : Item)
         (earlier : list (list Tick)) (since : nat) (timeline : list Tick)
         (n : nat) (activeItems : list Item),
    last (concat (take n (share since
                            (observeActiveItems containers earlier timeline))))
    = Some activeItems ->
    last (concat (take n (received
                            (observePaneItemVisibility (mkWorkspace (Some containers))
                               item earlier since timeline))))
    = Some (includes activeItems item).
Proof.
  intros containers item earlier since timeline.
  apply (subscription_tracks_active_items containers item earlier since timeline).
Qed.

Lemma last_received_agrees_with_source_witness :
  last (concat (take 8 (received
                          (observePaneItemVisibility (mkWorkspace (Some [0%nat]))
                             7%nat [] 0 sample_timeline))))
  = Some (includes [] 7%nat).
Proof.
  apply (last_received_agrees_with_source [0%nat] 7%nat [] 0 sample_timeline 8 []).
  vm_compute. reflexivity.
Defined.

(** X27: An item left in the [Map] by earlier connections, for a pane that no
    container reports during this connection, is reported visible
    throughout: every boolean a subscriber for it receives is true. *)
Theorem stale_item_stays_visible :
  forall (containers : list PaneContainer) (item : Item)
         (earlier : list (list Tick)) (since : nat) (timeline : list Tick)
         (pane : Pane) (k : nat) (bs : list bool) (b : bool),
    seedAfter containers earlier !! pane = Some item ->
    (forall container, observePanes_callback container pane ∉ timeline) ->
    received (observePaneItemVisibility (mkWorkspace (Some containers)) item
                earlier since timeline) !! k = Some bs ->
    b ∈ bs ->
    b = true.
Proof.
  intros containers item earlier since timeline pane k bs b Hseed Hnever Hk Hb.
  destruct (received_lookup _ _ _ _ _ _ _ _ Hk Hb)
    as (delivered & activeItems & Hk' & Hin & ->).
  rewrite (observeActiveItems_lookup _ _ _ _ _ _ Hk' Hin).
  apply bool_decide_eq_true, elem_of_values. exists pane.
  rewrite stale_entry_stays; [exact Hseed|].
  intros container Hc. apply (Hnever container).
  apply elem_of_take in Hc as (i & Hi & _). apply list_elem_of_lookup. eauto.
Qed.

Lemma stale_item_stays_visible_witness :
  seedAfter [0%nat] [first_connection] !! 1%nat = Some 7%nat
  /\ true = true.
Proof.
  split; [vm_compute; reflexivity|].
  apply (stale_item_stays_visible [0%nat] 7%nat [first_connection] 0
           second_connection 1%nat 2 [true] true).
  - vm_compute. reflexivity.
  - intros container Hin.
    repeat (apply elem_of_cons in Hin as [Hin|Hin]; [discriminate|]).
    inversion Hin.
  - vm_compute. reflexivity.
  - left.
Defined.

Lemma itemActivations_no_containers (live : list Pane) (timeline : list Tick) :
  live = [] -> concat (itemActivations [] live timeline) = [].
Proof.
  intros ->. induction timeline as [|tick timeline IH]; [reflexivity|].
  destruct tick; simpl; exact IH.
Qed.

(** X28: In a workspace that has [getPaneContainers] but no pane container at
    all, the observable delivers nothing and completes on subscription,
    whatever the editor reports. *)
Theorem no_pane_container_completes :
  forall (item : Item) (earlier : list (list Tick)) (since : nat)
         (timeline : list Tick),
    let subscription :=
      observePaneItemVisibility (mkWorkspace (Some [])) item earlier since timeline in
    emitted subscription = [] /\ completedAfter subscription = Some 0%nat.
Proof.
  intros item earlier since timeline subscription. split; [|reflexivity].
  destruct (emitted subscription) as [|b bs] eqn:Hemitted; [reflexivity|exfalso].
  assert (Hb : b ∈ emitted subscription) by (rewrite Hemitted; left).
  unfold emitted in Hb. apply list_elem_of_In, in_concat in Hb as (xs & Hxs & Hb).
  apply list_elem_of_In in Hb, Hxs. apply list_elem_of_lookup in Hxs as [k Hk].
  destruct (received_lookup _ _ _ _ _ _ _ _ Hk Hb)
    as (delivered & activeItems & Hk' & Hin & _).
  unfold observeActiveItems in Hk'. rewrite map_lookup in Hk'.
  destruct (debounceTime _ _ _ !! (since + k)%nat) as [ms|] eqn:Hms; [|discriminate].
  injection Hk' as <-. apply list_elem_of_fmap in Hin as (m & _ & Hm).
  clear -Hms Hm.
  assert (Hnone : forall acc pending timeline' (source : Signal Activation) j ms,
             concat source = [] -> pending = None ->
             debounceTime pending timeline' (scan setActiveItem acc source) !! j
             = Some ms -> ms = []).
  { clear. intros acc pending timeline' source. revert acc pending timeline'.
    induction source as [|xs source IH]; intros acc pending timeline' j ms Hsrc ->.
    - destruct timeline'; discriminate.
    - simpl in Hsrc. apply app_eq_nil in Hsrc as [-> Hsrc].
      destruct timeline' as [|tick timeline']; [discriminate|]. simpl.
      destruct (isAnimationFrame tick); destruct j as [|j]; simpl;
        try (now intros [= <-]); eapply IH; eauto. }
  rewrite (Hnone _ _ _ _ _ _ (itemActivations_no_containers [] timeline eq_refl)
             eq_refl Hms) in Hm.
  inversion Hm.
Qed.

End VisibilityProps.
